(** * Supplier updates: CSV reconciliation and batch commit

    A shallow embedding of the supplier-updates feature (CSV parsing, record
    extraction, catalog matching, margin computation, batch commit) and the
    properties its specification states about it.

    Conventions of the embedding:
    - a JavaScript [number] is an IEEE-754 binary64 value, i.e. Rocq's
      primitive [float]; comparisons are the IEEE ones ([NaN] compares false);
    - a JavaScript string is a [string]; one [ascii] stands for one code unit,
      so the model is exact on code units below 256;
    - [undefined]/[null] are [None];
    - the remote Admin API is an oracle that answers each call from the log of
      the calls made so far; every call is appended to that log. *)

From Stdlib Require Import ZArith List String Ascii Bool Lia.
From Stdlib Require Import PrimFloat FloatAxioms FloatOps SpecFloat.
From stdpp Require Import base option list gmap sets strings.

Local Open Scope string_scope.
Local Open Scope list_scope.

(** ** JavaScript runtime *)

Module Js.

(** Built-ins of the runtime that the repository calls but does not define. *)
Class Runtime := {
  toLowerCase : string -> string;
  parseFloat : string -> float;
  parseInt10 : string -> float;
  toFixed2 : float -> string;
}.

(** [Array.prototype.slice(i, j)] for [0 <= i <= j]. *)
Definition slice {T} (arr : list T) (i j : nat) : list T :=
  take (j - i) (drop i arr).

(** [Array.prototype.find]. *)
Fixpoint find {T} (p : T -> bool) (arr : list T) : option T :=
  match arr with
  | [] => None
  | x :: rest => if p x then Some x else find p rest
  end.

(** [x !== 0] and [isNaN] on numbers. *)
Definition num_ne (x y : float) : bool := negb (PrimFloat.eqb x y).
Definition isNaN (x : float) : bool := negb (PrimFloat.eqb x x).

(** [WhiteSpace] and [LineTerminator] code units below 256. *)
Definition isWhiteSpace (c : ascii) : bool :=
  let n := nat_of_ascii c in
  (n =? 9)%nat || (n =? 10)%nat || (n =? 11)%nat || (n =? 12)%nat
  || (n =? 13)%nat || (n =? 32)%nat || (n =? 160)%nat.

Fixpoint trimStart (s : string) : string :=
  match s with
  | EmptyString => EmptyString
  | String c rest => if isWhiteSpace c then trimStart rest else s
  end.

(** [trimEnd] keeps a character iff it or something after it is not white. *)
Fixpoint trimEnd (s : string) : string :=
  match s with
  | EmptyString => EmptyString
  | String c rest =>
      match trimEnd rest with
      | EmptyString => if isWhiteSpace c then EmptyString else String c EmptyString
      | r => String c r
      end
  end.

(** [String.prototype.trim]. *)
Definition trim (s : string) : string := trimEnd (trimStart s).

(** Truthiness of a string: [Boolean(s)]. *)
Definition truthy (s : string) : bool :=
  match s with EmptyString => false | _ => true end.

(** [s || d] on a possibly undefined string. *)
Definition orDefault (s : option string) (d : string) : string :=
  match s with
  | Some v => if truthy v then v else d
  | None => d
  end.

(** [x || 0] on a number: [NaN], [0] and [-0] are falsy. *)
Definition numOrZero (x : float) : float :=
  if isNaN x || PrimFloat.eqb x 0 then 0%float else x.

Definition dquote : ascii := ascii_of_nat 34.
Definition backslash : ascii := ascii_of_nat 92.
Definition LF : ascii := ascii_of_nat 10.
Definition CR : ascii := ascii_of_nat 13.
Definition comma : ascii := ascii_of_nat 44.

(** [s + c] for a single character [c]. *)
Definition snoc (s : string) (c : ascii) : string := s ++ String c EmptyString.

(** [text.split(/\r?\n/)]: a line feed ends a line, and a carriage return
    directly before it belongs to the separator. *)
Fixpoint splitLines (text : string) (current : string) : list string :=
  match text with
  | EmptyString => [current]
  | String c rest =>
      if Ascii.eqb c LF then current :: splitLines rest EmptyString
      else if Ascii.eqb c CR then
        match rest with
        | String c2 rest2 =>
            if Ascii.eqb c2 LF then current :: splitLines rest2 EmptyString
            else splitLines rest (snoc current c)
        | EmptyString => splitLines rest (snoc current c)
        end
      else splitLines rest (snoc current c)
  end.

(** Canonicalisation of the [i] flag on the letters the patterns use. *)
Definition lowerAscii (c : ascii) : ascii :=
  let n := nat_of_ascii c in
  if (65 <=? n)%nat && (n <=? 90)%nat then ascii_of_nat (n + 32) else c.

Fixpoint prefixCI (pat s : string) : bool :=
  match pat, s with
  | EmptyString, _ => true
  | String p pat', String c s' =>
      Ascii.eqb (lowerAscii p) (lowerAscii c) && prefixCI pat' s'
  | String _ _, EmptyString => false
  end.

(** [new RegExp(pat, "i").test(s)] for a literal pattern [pat]. *)
Fixpoint testCI (pat s : string) : bool :=
  prefixCI pat s
  || match s with
     | EmptyString => false
     | String _ s' => testCI pat s'
     end.

(** [s.replace(/[^...]/g, "")]: keep the characters satisfying [keep]. *)
Fixpoint keepChars (keep : ascii -> bool) (s : string) : string :=
  match s with
  | EmptyString => EmptyString
  | String c rest =>
      if keep c then String c (keepChars keep rest) else keepChars keep rest
  end.

(** *** A reference runtime

    Executable readings of the built-ins, used to run the model on concrete
    inputs: [toLowerCase] on code units below 256, [parseFloat] and [parseInt]
    on decimal literals without exponent (exactly rounded when the digits form
    an integer below 2^53 and there are at most 22 fraction digits), and
    [toFixed(2)] on finite numbers below 1e21. *)

Definition isDigit (c : ascii) : bool :=
  let n := nat_of_ascii c in (48 <=? n)%nat && (n <=? 57)%nat.

Definition lowerLatin1 (c : ascii) : ascii :=
  let n := nat_of_ascii c in
  if ((65 <=? n)%nat && (n <=? 90)%nat)
     || ((192 <=? n)%nat && (n <=? 222)%nat && negb (n =? 215)%nat)
  then ascii_of_nat (n + 32) else c.

Fixpoint mapString (f : ascii -> ascii) (s : string) : string :=
  match s with
  | EmptyString => EmptyString
  | String c rest => String (f c) (mapString f rest)
  end.

(** The longest prefix of digits, as a number and a count, and the rest. *)
Fixpoint readDigits (s : string) (acc : Z) (count : nat) : Z * nat * string :=
  match s with
  | String c rest =>
      if isDigit c
      then readDigits rest (10 * acc + Z.of_nat (nat_of_ascii c - 48)) (S count)
      else (acc, count, s)
  | EmptyString => (acc, count, s)
  end.

Definition floatOfZ (z : Z) : float := SF2Prim (binary_normalize prec emax z 0 false).

Definition readSign (s : string) : bool * string :=
  match s with
  | String c rest =>
      if (nat_of_ascii c =? 45)%nat then (true, rest)
      else if (nat_of_ascii c =? 43)%nat then (false, rest)
      else (false, s)
  | EmptyString => (false, s)
  end.

Definition signed (negative : bool) (x : float) : float :=
  if negative then (- x)%float else x.

Definition refParseFloat (s : string) : float :=
  let '(negative, body) := readSign (trimStart s) in
  let '(whole, nWhole, rest) := readDigits body 0 0 in
  let '(digits, nFrac) :=
    match rest with
    | String c rest' =>
        if (nat_of_ascii c =? 46)%nat
        then let '(all, n, _) := readDigits rest' whole 0 in (all, n)
        else (whole, 0%nat)
    | EmptyString => (whole, 0%nat)
    end in
  if ((nWhole + nFrac)%nat =? 0)%nat then nan
  else signed negative (floatOfZ digits / floatOfZ (10 ^ Z.of_nat nFrac))%float.

Definition refParseInt10 (s : string) : float :=
  let '(negative, body) := readSign (trimStart s) in
  let '(whole, nWhole, _) := readDigits body 0 0 in
  if (nWhole =? 0)%nat then nan else signed negative (floatOfZ whole).

Fixpoint digitsOfZ (fuel : nat) (z : Z) (acc : string) : string :=
  match fuel with
  | O => acc
  | S fuel' =>
      let acc' := String (ascii_of_nat (48 + Z.to_nat (z mod 10))) acc in
      if (z / 10 =? 0)%Z then acc' else digitsOfZ fuel' (z / 10) acc'
  end.

Definition decimalOfZ (z : Z) : string :=
  digitsOfZ (S (Z.to_nat (Z.log2 z))) z EmptyString.

(** The integer [n] with [n / 100] nearest to [m * 2^e], the larger one on a
    tie. *)
Definition hundredths (m : positive) (e : Z) : Z :=
  if (0 <=? e)%Z then 100 * Z.pos m * 2 ^ e
  else (200 * Z.pos m + 2 ^ (- e)) / 2 ^ (1 - e).

Definition fixed2 (n : Z) : string :=
  let frac := (n mod 100)%Z in
  (decimalOfZ (n / 100) ++ "." ++ (if (frac <? 10)%Z then "0" else "")
     ++ decimalOfZ frac)%string.

Definition refToFixed2 (x : float) : string :=
  match Prim2SF x with
  | S754_zero _ => "0.00"
  | S754_finite negative m e =>
      let n := hundredths m e in
      ((if negative then "-" else "") ++ fixed2 n)%string
  | S754_infinity negative => if negative then "-Infinity" else "Infinity"
  | S754_nan => "NaN"
  end.

Definition refRuntime : Runtime :=
  {| toLowerCase := mapString lowerLatin1;
     parseFloat := refParseFloat;
     parseInt10 := refParseInt10;
     toFixed2 := refToFixed2 |}.

End Js.

(** ** lib/supplier-updates *)

Module Lib.
Import Js.

(** *** Types (types/supplier-updates) *)

Inductive SohValue := SohColumn (index : nat) | SohNone.

Record Field (A : Type) := { label : string; value : option A }.
Arguments label {A}.
Arguments value {A}.

Record CSVFieldMapping := {
  f_sku : Field nat;
  f_cost : Field nat;
  f_soh : Field SohValue;
}.

Record CSVProduct := {
  csv_sku : string;
  csv_cost : float;
  csv_soh : option float;
}.

Record Quantity := { q_name : string; q_quantity : float }.

Record InventoryLevel := {
  il_location : option string;
  il_quantities : option (list Quantity);
}.

Record InventoryItem := {
  ii_id : string;
  ii_unitCost : option string;
  ii_inventoryLevel : option InventoryLevel;
}.

Record ShopifyVariant := {
  v_id : string;
  v_sku : option string;
  v_price : string;
  v_inventoryItem : InventoryItem;
  v_inventoryQuantity : float;
}.

Record ShopifyProduct := {
  sp_id : string;
  sp_title : string;
  sp_image : option string;
  sp_variants : list ShopifyVariant;
}.

Inductive MarginStatus := good | medium | negative.

Record NormalizedProduct := {
  id : string;
  variantId : string;
  inventoryItemId : string;
  sku : string;
  name : string;
  image : string;
  cost : float;
  price : float;
  quantity : float;
  costNew : float;
  quantityNew : float;
  margin : float;
  marginStatus : MarginStatus;
  update : bool;
}.

Record UpdateResponse := {
  r_sku : string;
  r_updated : bool;
  r_message : string;
  r_error : option string;
}.

(** *** parseCSV *)

(** The character loop over one line: [row], [current] and [inQuotes] are the
    loop's variables; skipping the second quote of an escaped pair is the
    [i++] of the source. *)
Fixpoint scanLine (line : string) (row : list string) (current : string)
    (inQuotes : bool) : list string :=
  match line with
  | EmptyString => row ++ [trim current]
  | String char rest =>
      if Ascii.eqb char dquote then
        match rest with
        | String next rest' =>
            if inQuotes && Ascii.eqb next dquote
            then scanLine rest' row (snoc current dquote) inQuotes
            else scanLine rest row current (negb inQuotes)
        | EmptyString => scanLine rest row current (negb inQuotes)
        end
      else if Ascii.eqb char comma && negb inQuotes
      then scanLine rest (row ++ [trim current]) EmptyString inQuotes
      else scanLine rest row (snoc current char) inQuotes
  end.

Fixpoint parseLines (lines : list string) (rows : list (list string))
    : list (list string) :=
  match lines with
  | [] => rows
  | line :: lines' =>
      if String.eqb (trim line) EmptyString then parseLines lines' rows
      else parseLines lines' (rows ++ [scanLine line [] EmptyString false])
  end.

Definition parseCSV (text : string) : list (list string) :=
  parseLines (splitLines text EmptyString) [].

(** *** cleanCostValue, extractProductsFromCSV *)

(** The class [\d.-] of the cleaning pattern. *)
Definition isCostChar (c : ascii) : bool :=
  let n := nat_of_ascii c in
  ((48 <=? n)%nat && (n <=? 57)%nat) || (n =? 46)%nat || (n =? 45)%nat.

Definition cleanCostValue `{Runtime} (value : string) : float :=
  let cleaned := keepChars isCostChar value in
  let parsed := parseFloat cleaned in
  if isNaN parsed then 0%float else parsed.

(** The body of the row loop: [None] is [continue]. *)
Definition extractRow `{Runtime} (skuCol costCol : nat) (soh : option SohValue)
    (row : list string) : option CSVProduct :=
  if (length row =? 0)%nat then None else
  match trim <$> (row !! skuCol) with
  | None => None
  | Some s =>
      if negb (truthy s) then None else
      let c := cleanCostValue (orDefault (row !! costCol) "0") in
      Some {| csv_sku := s; csv_cost := c;
              csv_soh :=
                match soh with
                | Some (SohColumn sohCol) =>
                    let n := parseInt10 (orDefault (row !! sohCol) "0") in
                    Some (if isNaN n then 0%float else n)
                | _ => None
                end |}
  end.

Fixpoint extractRows `{Runtime} (skuCol costCol : nat) (soh : option SohValue)
    (rows : list (list string)) (products : list CSVProduct) : list CSVProduct :=
  match rows with
  | [] => products
  | row :: rows' =>
      match extractRow skuCol costCol soh row with
      | None => extractRows skuCol costCol soh rows' products
      | Some product => extractRows skuCol costCol soh rows' (products ++ [product])
      end
  end.

Definition extractProductsFromCSV `{Runtime} (csvData : list (list string))
    (fields : CSVFieldMapping) : list CSVProduct :=
  if (length csvData <? 2)%nat then [] else
  match value (f_sku fields), value (f_cost fields) with
  | Some skuCol, Some costCol =>
      extractRows skuCol costCol (value (f_soh fields)) (drop 1 csvData) []
  | _, _ => []
  end.

(** *** calculateMargin, getMarginStatus *)

Definition calculateMargin (price cost : float) : float :=
  if (cost <=? 0)%float then 0%float else (price / cost * 100 - 100)%float.

Definition getMarginStatus (margin threshold : float) : MarginStatus :=
  if (margin <? 0)%float then negative
  else if (margin <? threshold)%float then medium
  else good.

(** *** normalizeShopifyProduct *)

Definition skuMatches `{Runtime} (variantSku : option string) (csvSku : string) : bool :=
  match variantSku with
  | Some s => String.eqb (toLowerCase s) (toLowerCase csvSku)
  | None => false
  end.

Definition availableQuantity (level : option InventoryLevel) : option float :=
  match level with
  | Some l =>
      match il_quantities l with
      | Some quantities =>
          q_quantity <$> find (fun qty => String.eqb (q_name qty) "available") quantities
      | None => None
      end
  | None => None
  end.

Definition optTruthy (s : option string) : bool :=
  match s with Some v => truthy v | None => false end.

Definition normalizeShopifyProduct `{Runtime} (shopifyProduct : ShopifyProduct)
    (csvProduct : CSVProduct) (marginThreshold : float)
    (locationId : option string) : option NormalizedProduct :=
  match find (fun v => skuMatches (v_sku v) (csv_sku csvProduct))
             (sp_variants shopifyProduct) with
  | None => None
  | Some variant =>
      match v_sku variant with
      | None => None
      | Some variantSku =>
          let item := v_inventoryItem variant in
          let currentCost :=
            match ii_unitCost item with
            | Some amount => parseFloat amount
            | None => 0%float
            end in
          let currentPrice := numOrZero (parseFloat (v_price variant)) in
          let newCost := csv_cost csvProduct in
          let locationAvailable :=
            if optTruthy locationId then
              if bool_decide ((ii_inventoryLevel item ≫= il_location) = locationId)
              then availableQuantity (ii_inventoryLevel item)
              else None
            else availableQuantity (ii_inventoryLevel item) in
          let currentQuantity :=
            match locationAvailable with
            | Some q => q
            | None => v_inventoryQuantity variant
            end in
          let newQuantity :=
            match csv_soh csvProduct with
            | Some soh => soh
            | None => currentQuantity
            end in
          let margin := calculateMargin currentPrice newCost in
          Some {| id := sp_id shopifyProduct;
                  variantId := v_id variant;
                  inventoryItemId := ii_id item;
                  sku := variantSku;
                  name := sp_title shopifyProduct;
                  image := orDefault (sp_image shopifyProduct) "";
                  cost := currentCost;
                  price := currentPrice;
                  quantity := currentQuantity;
                  costNew := newCost;
                  quantityNew := newQuantity;
                  margin := margin;
                  marginStatus := getMarginStatus margin marginThreshold;
                  update := true |}
      end
  end.

(** *** groupProductsByParent *)

(** A JavaScript [Map] iterates in insertion order and [set] on a present key
    keeps its position: an association list updated in place. *)
Fixpoint mapGet {V} (groups : list (string * V)) (key : string) : option V :=
  match groups with
  | [] => None
  | (k, v) :: rest => if String.eqb k key then Some v else mapGet rest key
  end.

Fixpoint mapSet {V} (groups : list (string * V)) (key : string) (v : V)
    : list (string * V) :=
  match groups with
  | [] => [(key, v)]
  | (k, w) :: rest =>
      if String.eqb k key then (k, v) :: rest else (k, w) :: mapSet rest key v
  end.

Fixpoint groupLoop (products : list NormalizedProduct)
    (groups : list (string * list NormalizedProduct))
    : list (string * list NormalizedProduct) :=
  match products with
  | [] => groups
  | product :: rest =>
      let existing := default [] (mapGet groups (id product)) in
      groupLoop rest (mapSet groups (id product) (existing ++ [product]))
  end.

Definition groupProductsByParent (products : list NormalizedProduct)
    : list (string * list NormalizedProduct) :=
  groupLoop products [].

(** *** chunkArray *)

(** The [for (i = 0; i < arr.length; i += size)] loop of [chunkArray]; the
    loop does not terminate for [size = 0] on a non-empty array, which the
    model reports as [None] once the fuel is spent. *)
Fixpoint chunk_loop {T} (fuel : nat) (arr : list T) (size i : nat)
    (chunks : list (list T)) : option (list (list T)) :=
  if (i <? length arr)%nat then
    match fuel with
    | O => None
    | S fuel' =>
        chunk_loop fuel' arr size (i + size) (chunks ++ [slice arr i (i + size)])
    end
  else Some chunks.

Definition chunkArray {T} (arr : list T) (size : nat) : option (list (list T)) :=
  chunk_loop (length arr) arr size 0 [].

End Lib.

(** ** hooks/supplier-updates *)

Module Hooks.
Import Js Lib.

(** *** useCSVFieldMapping *)

Definition initialFields : CSVFieldMapping :=
  {| f_sku := {| label := "SKU Column"; value := None |};
     f_cost := {| label := "Cost Column"; value := None |};
     f_soh := {| label := "Stock on Hand Column"; value := None |} |}.

Inductive FieldKey := KeySku | KeyCost | KeySoh.

(** [updateField(fieldKey, value)]: the value is a column index, ["none"]
    (stock only) or [null]. *)
Definition updateField (prev : CSVFieldMapping) (fieldKey : FieldKey)
    (v : option SohValue) : CSVFieldMapping :=
  let index :=
    match v with Some (SohColumn i) => Some i | _ => None end in
  match fieldKey with
  | KeySku => {| f_sku := {| label := label (f_sku prev); value := index |};
                 f_cost := f_cost prev; f_soh := f_soh prev |}
  | KeyCost => {| f_sku := f_sku prev;
                  f_cost := {| label := label (f_cost prev); value := index |};
                  f_soh := f_soh prev |}
  | KeySoh => {| f_sku := f_sku prev; f_cost := f_cost prev;
                 f_soh := {| label := label (f_soh prev); value := v |} |}
  end.

Definition resetFields : CSVFieldMapping := initialFields.

Definition allFieldsSelected (fields : CSVFieldMapping) : bool :=
  bool_decide (value (f_sku fields) <> None)
  && bool_decide (value (f_cost fields) <> None)
  && bool_decide (value (f_soh fields) <> None).

(** *** usePricingProducts *)

Definition withPricing (p : NormalizedProduct) (newPrice newMargin : float)
    (status : MarginStatus) : NormalizedProduct :=
  {| id := id p; variantId := variantId p; inventoryItemId := inventoryItemId p;
     sku := sku p; name := name p; image := image p;
     cost := cost p; price := newPrice; quantity := quantity p;
     costNew := costNew p; quantityNew := quantityNew p;
     margin := newMargin; marginStatus := status; update := update p |}.

(** [updateProductPrice(variantId, newPrice)] applied to the product list;
    [margin] is the hook's threshold state. *)
Definition updateProductPrice (margin : float) (variantId' : string)
    (newPrice : float) (prev : list NormalizedProduct) : list NormalizedProduct :=
  map (fun p =>
         if negb (String.eqb (variantId p) variantId') then p
         else
           let newMargin := (newPrice / costNew p * 100 - 100)%float in
           withPricing p newPrice newMargin
             (if (newMargin <? 0)%float then negative
              else if (newMargin <? margin)%float then medium
              else good))
      prev.

(** *** useBatchProcessor *)

Record BatchState := {
  isProcessing : bool;
  currentBatch : nat;
  totalBatches : nat;
  results : list UpdateResponse;
}.

Definition initialBatchState : BatchState :=
  {| isProcessing := false; currentBatch := 0; totalBatches := 0; results := [] |}.

Definition setIsProcessing (b : bool) (s : BatchState) : BatchState :=
  {| isProcessing := b; currentBatch := currentBatch s;
     totalBatches := totalBatches s; results := results s |}.

Definition setCurrentBatch (n : nat) (s : BatchState) : BatchState :=
  {| isProcessing := isProcessing s; currentBatch := n;
     totalBatches := totalBatches s; results := results s |}.

Definition setTotalBatches (n : nat) (s : BatchState) : BatchState :=
  {| isProcessing := isProcessing s; currentBatch := currentBatch s;
     totalBatches := n; results := results s |}.

Definition setResults (r : list UpdateResponse) (s : BatchState) : BatchState :=
  {| isProcessing := isProcessing s; currentBatch := currentBatch s;
     totalBatches := totalBatches s; results := r |}.

Definition reset (s : BatchState) : BatchState :=
  setResults [] (setTotalBatches 0 (setCurrentBatch 0 (setIsProcessing false s))).

Definition addResults (newResults : list UpdateResponse) (s : BatchState) : BatchState :=
  setResults (results s ++ newResults) s.

Definition updatedCount (s : BatchState) : nat :=
  length (List.filter r_updated (results s)).

Definition notUpdatedCount (s : BatchState) : nat :=
  length (List.filter (fun r => negb (r_updated r)) (results s)).

(** *** usePricingProducts: filter, selection, threshold effect, stats *)

Inductive FilterType := FilterAll | FilterMed | FilterNeg.

Definition isStatus (status : MarginStatus) (p : NormalizedProduct) : bool :=
  match marginStatus p, status with
  | good, good | medium, medium | negative, negative => true
  | _, _ => false
  end.

Definition filteredProducts (filter : FilterType) (products : list NormalizedProduct)
    : list NormalizedProduct :=
  match filter with
  | FilterAll => products
  | FilterMed => List.filter (isStatus medium) products
  | FilterNeg => List.filter (isStatus negative) products
  end.

Definition withUpdate (p : NormalizedProduct) (b : bool) : NormalizedProduct :=
  {| id := id p; variantId := variantId p; inventoryItemId := inventoryItemId p;
     sku := sku p; name := name p; image := image p;
     cost := cost p; price := price p; quantity := quantity p;
     costNew := costNew p; quantityNew := quantityNew p;
     margin := margin p; marginStatus := marginStatus p; update := b |}.

Definition withStatus (p : NormalizedProduct) (status : MarginStatus)
    : NormalizedProduct :=
  {| id := id p; variantId := variantId p; inventoryItemId := inventoryItemId p;
     sku := sku p; name := name p; image := image p;
     cost := cost p; price := price p; quantity := quantity p;
     costNew := costNew p; quantityNew := quantityNew p;
     margin := margin p; marginStatus := status; update := update p |}.

Definition toggleProductUpdate (variantId' : string)
    (prev : list NormalizedProduct) : list NormalizedProduct :=
  map (fun p => if String.eqb (variantId p) variantId'
                then withUpdate p (negb (update p)) else p) prev.

(** The [map] with the [changed] flag of [setUpdatesForVariants] and of the
    threshold effect: the step returns the item itself or its replacement. *)
Fixpoint mapChanged {A} (step : A -> option A) (prev : list A) : bool * list A :=
  match prev with
  | [] => (false, [])
  | p :: rest =>
      let r := mapChanged step rest in
      match step p with
      | None => (fst r, p :: snd r)
      | Some q => (true, q :: snd r)
      end
  end.

(** [return changed ? next : prev]. *)
Definition keepIfUnchanged {A} (step : A -> option A) (prev : list A) : list A :=
  let r := mapChanged step prev in
  if fst r then snd r else prev.

Definition setUpdatesForVariants (variantIds : list string)
    (prev : list NormalizedProduct) : list NormalizedProduct :=
  let selected : gset string := list_to_set variantIds in
  keepIfUnchanged
    (fun p =>
       let shouldUpdate := bool_decide (variantId p ∈ selected) in
       if Bool.eqb (update p) shouldUpdate then None
       else Some (withUpdate p shouldUpdate))
    prev.

(** The effect that runs when the threshold [margin] changes. *)
Definition thresholdEffect (margin' : float) (prev : list NormalizedProduct)
    : list NormalizedProduct :=
  keepIfUnchanged
    (fun p =>
       let nextStatus := getMarginStatus (margin p) margin' in
       if isStatus nextStatus p then None else Some (withStatus p nextStatus))
    prev.

Definition selectableProducts (products : list NormalizedProduct)
    : list NormalizedProduct :=
  List.filter update products.

Record Stats := {
  s_total : nat;
  s_good : nat;
  s_medium : nat;
  s_negative : nat;
  s_toUpdate : nat;
}.

Definition stats (products : list NormalizedProduct) : Stats :=
  {| s_total := length products;
     s_good := length (List.filter (isStatus good) products);
     s_medium := length (List.filter (isStatus medium) products);
     s_negative := length (List.filter (isStatus negative) products);
     s_toUpdate := length (List.filter update products) |}.

(** The filter of the earlier version of the hook, which reads the margin
    instead of the status. *)
Definition filteredProductsByMargin (margin' : float) (filter : FilterType)
    (products : list NormalizedProduct) : list NormalizedProduct :=
  match filter with
  | FilterAll => products
  | FilterMed =>
      List.filter (fun p => (0 <? margin p)%float && (margin p <? margin')%float)
                  products
  | FilterNeg => List.filter (fun p => (margin p <? 0)%float) products
  end.

End Hooks.

(** ** graphql/supplier-updates *)

Module Graphql.
Import Js.

(** [value.replace(/c/g, by)] for a single character [c]. *)
Fixpoint replaceChar (c : ascii) (by_ : string) (value : string) : string :=
  match value with
  | EmptyString => EmptyString
  | String x rest =>
      if Ascii.eqb x c then by_ ++ replaceChar c by_ rest
      else String x (replaceChar c by_ rest)
  end.

Definition escapeQueryValue (value : string) : string :=
  replaceChar dquote (String backslash (String dquote EmptyString))
    (replaceChar backslash (String backslash (String backslash EmptyString)) value).

Definition buildSkuQuery (skus : list string) : string :=
  String.concat " OR "
    (map (fun sku => ("sku:" ++ String dquote (escapeQueryValue sku)
                        ++ String dquote EmptyString)%string)
         (List.filter truthy (map trim skus))).

Fixpoint chunkSkus_loop (fuel : nat) (skus : list string) (batchSize i : nat)
    (chunks : list (list string)) : option (list (list string)) :=
  if (i <? length skus)%nat then
    match fuel with
    | O => None
    | S fuel' =>
        chunkSkus_loop fuel' skus batchSize (i + batchSize)
          (chunks ++ [slice skus i (i + batchSize)])
    end
  else Some chunks.

Definition chunkSkusForQuery (skus : list string) (batchSize : nat)
    : option (list (list string)) :=
  chunkSkus_loop (length skus) skus batchSize 0 [].

End Graphql.

(** ** Admin API *)

Module Api.
Import Js Lib.

Record UserError := { ue_field : option (list string); ue_message : string }.

Record InventoryChange := {
  c_inventoryItemId : string;
  c_locationId : option string;
  c_delta : float;
}.

(** One entry of [variants] in [productVariantsBulkUpdate]; [vi_cost] is the
    optional [inventoryItem.cost]. *)
Record VariantInput := {
  vi_id : string;
  vi_price : string;
  vi_cost : option float;
}.

Inductive Call :=
| GetProductsBySku (query locationId : string)
| InventoryAdjustQuantities (reason name : string) (changes : list InventoryChange)
| ProductVariantsBulkUpdate (productId : string) (variants : list VariantInput)
| InventoryItemUpdate (itemId : string) (cost : float).

(** What a rejected call throws. *)
Inductive Thrown := ErrorObject (message : string) | OtherValue.

(** [err instanceof Error ? err.message : "Unknown error"]. *)
Definition errMessage (err : Thrown) : string :=
  match err with
  | ErrorObject m => m
  | OtherValue => "Unknown error"
  end.

Inductive Reply (A : Type) := Json (body : A) | Rejected (err : Thrown).
Arguments Json {A}.
Arguments Rejected {A}.

(** The authenticated [admin.graphql] client followed by [response.json()].
    Each operation sees the calls made before it; the body is [data?.<op>],
    reduced to the fields the route reads. *)
Record Admin := {
  getProductsBySku :
    list Call -> string -> string -> Reply (option (list ShopifyProduct));
  inventoryAdjustQuantities :
    list Call -> list InventoryChange -> Reply (option (list UserError));
  productVariantsBulkUpdate :
    list Call -> string -> list VariantInput -> Reply (option (list UserError));
  inventoryItemUpdate :
    list Call -> string -> float -> Reply (option (list UserError));
}.

(** *** Computations that call the API *)

Inductive Outcome (A : Type) := Resolved (a : A) | Threw (err : Thrown) | Diverged.
Arguments Resolved {A}.
Arguments Threw {A}.
Arguments Diverged {A}.

(** A computation over the call log and the mutable locals [S] of its
    function; a throw keeps what was mutated before it. *)
Definition M (S A : Type) : Type := list Call * S -> Outcome A * (list Call * S).

Definition ret {S A} (a : A) : M S A := fun st => (Resolved a, st).

Definition bind {S A B} (m : M S A) (k : A -> M S B) : M S B :=
  fun st =>
    match m st with
    | (Resolved a, st') => k a st'
    | (Threw e, st') => (Threw e, st')
    | (Diverged, st') => (Diverged, st')
    end.

Definition throw {S A} (err : Thrown) : M S A := fun st => (Threw err, st).

Definition tryCatch {S A} (m : M S A) (handler : Thrown -> M S A) : M S A :=
  fun st =>
    match m st with
    | (Threw e, st') => handler e st'
    | r => r
    end.

Definition get {S} : M S S := fun st => (Resolved (snd st), st).

Definition modify {S} (f : S -> S) : M S unit :=
  fun st => (Resolved tt, (fst st, f (snd st))).

Definition liftOption {S A} (o : option A) : M S A :=
  fun st => match o with Some a => (Resolved a, st) | None => (Diverged, st) end.

Definition perform {S A} (c : Call) (answer : list Call -> Reply A) : M S A :=
  fun st =>
    let st' := (fst st ++ [c], snd st) in
    match answer (fst st) with
    | Json body => (Resolved body, st')
    | Rejected err => (Threw err, st')
    end.

Notation "'let*' x ':=' m 'in' k" := (bind m (fun x => k))
  (at level 10, x name, m at level 100, k at level 200).
Notation "m ';;;' k" := (bind m (fun _ => k))
  (at level 100, k at level 200, right associativity).

Fixpoint forEach {S T} (items : list T) (body : T -> M S unit) : M S unit :=
  match items with
  | [] => ret tt
  | x :: rest => body x ;;; forEach rest body
  end.

Definition getProducts {S} (admin : Admin) (query locationId : string)
    : M S (option (list ShopifyProduct)) :=
  perform (GetProductsBySku query locationId)
          (fun log => getProductsBySku admin log query locationId).

Definition adjustQuantities {S} (admin : Admin) (changes : list InventoryChange)
    : M S (option (list UserError)) :=
  perform (InventoryAdjustQuantities "correction" "available" changes)
          (fun log => inventoryAdjustQuantities admin log changes).

Definition bulkUpdate {S} (admin : Admin) (productId : string)
    (variants : list VariantInput) : M S (option (list UserError)) :=
  perform (ProductVariantsBulkUpdate productId variants)
          (fun log => productVariantsBulkUpdate admin log productId variants).

Definition itemUpdate {S} (admin : Admin) (itemId : string) (cost : float)
    : M S (option (list UserError)) :=
  perform (InventoryItemUpdate itemId cost)
          (fun log => inventoryItemUpdate admin log itemId cost).

End Api.

(** ** routes/app.supplier-updates *)

Module Route.
Import Js Lib Hooks Graphql Api.

Record ActionData := {
  a_results : list UpdateResponse;
  a_error : option string;
}.

Record LookupData := {
  l_error : option string;
  l_products : list NormalizedProduct;
  l_notFound : list string;
}.

(** [0 < xs.length]. *)
Definition nonEmpty {A} (xs : list A) : bool := (0 <? length xs)%nat.

(** [userErrors[0].message]; reading it off an empty array is a [TypeError]. *)
Definition firstMessage {S} (userErrors : list UserError) : M S string :=
  match userErrors with
  | e :: _ => ret (ue_message e)
  | [] => throw (ErrorObject "Cannot read properties of undefined")
  end.

Definition push {A} (x : A) : M (list A) unit := modify (fun xs => xs ++ [x]).

(** *** intent lookupProducts *)

Definition LookupState : Type := list NormalizedProduct * gset string.

(** The body of the loop over the variants of a returned product. *)
Definition matchVariant `{Runtime} (csvProducts : list CSVProduct)
    (marginThreshold : float) (locationId : option string)
    (shopifyProduct : ShopifyProduct) (variant : ShopifyVariant)
    (st : LookupState) : LookupState :=
  match find (fun p =>
                match v_sku variant with
                | Some s => String.eqb (toLowerCase (csv_sku p)) (toLowerCase s)
                | None => false
                end) csvProducts with
  | Some csvProduct =>
      match normalizeShopifyProduct shopifyProduct csvProduct marginThreshold
              locationId with
      | Some normalized =>
          (fst st ++ [normalized], {[ toLowerCase (csv_sku csvProduct) ]} ∪ snd st)
      | None => st
      end
  | None => st
  end.

Definition matchProduct `{Runtime} (csvProducts : list CSVProduct)
    (marginThreshold : float) (locationId : option string)
    (st : LookupState) (shopifyProduct : ShopifyProduct) : LookupState :=
  fold_left (fun acc variant =>
               matchVariant csvProducts marginThreshold locationId
                 shopifyProduct variant acc)
            (sp_variants shopifyProduct) st.

Definition lookupBatch `{Runtime} (admin : Admin) (csvProducts : list CSVProduct)
    (marginThreshold : float) (locationId : option string)
    (skuBatch : list string) : M LookupState unit :=
  let query := buildSkuQuery skuBatch in
  if negb (truthy query) then ret tt
  else
    let* data := getProducts admin query (orDefault locationId "") in
    let shopifyProducts := default [] data in
    modify (fun st =>
              fold_left (matchProduct csvProducts marginThreshold locationId)
                        shopifyProducts st).

Definition lookupProducts `{Runtime} (admin : Admin)
    (csvProducts : list CSVProduct) (marginThreshold : float)
    (locationId : option string) : M LookupState LookupData :=
  if (length csvProducts =? 0)%nat then
    ret {| l_error := Some "No products to look up";
           l_products := []; l_notFound := [] |}
  else
    let* skuBatches := liftOption (chunkArray (map csv_sku csvProducts) 50) in
    forEach skuBatches (lookupBatch admin csvProducts marginThreshold locationId) ;;;
    let* st := get in
    let notFound :=
      map csv_sku
          (List.filter (fun p => negb (bool_decide (toLowerCase (csv_sku p) ∈ snd st)))
                       csvProducts) in
    ret {| l_error := None; l_products := fst st; l_notFound := notFound |}.

(** *** intent updateStock *)

Definition toChange (locationId : option string) (p : NormalizedProduct)
    : InventoryChange :=
  {| c_inventoryItemId := inventoryItemId p;
     c_locationId := locationId;
     c_delta := (quantityNew p - quantity p)%float |}.

Definition hasDelta (c : InventoryChange) : bool := num_ne (c_delta c) 0.

Definition productOfChange (products : list NormalizedProduct)
    (change : InventoryChange) : option NormalizedProduct :=
  find (fun p => String.eqb (inventoryItemId p) (c_inventoryItemId change)) products.

Definition adjustBatch (admin : Admin) (products : list NormalizedProduct)
    (batch : list InventoryChange) : M (list UpdateResponse) unit :=
  tryCatch
    (let* data := adjustQuantities admin batch in
     let userErrors := default [] data in
     forEach batch (fun change =>
       match productOfChange products change with
       | Some product =>
           let hasError := nonEmpty userErrors in
           if hasError then
             let* message := firstMessage userErrors in
             push {| r_sku := sku product; r_updated := negb hasError;
                     r_message := message; r_error := Some message |}
           else
             push {| r_sku := sku product; r_updated := negb hasError;
                     r_message := "Stock updated"; r_error := None |}
       | None => ret tt
       end))
    (fun err =>
       forEach batch (fun change =>
         match productOfChange products change with
         | Some product =>
             push {| r_sku := sku product; r_updated := false;
                     r_message := "API error"; r_error := Some (errMessage err) |}
         | None => ret tt
         end)).

Definition updateStock (admin : Admin) (products : list NormalizedProduct)
    (locationId : option string) : M (list UpdateResponse) ActionData :=
  if (length products =? 0)%nat then
    ret {| a_results := []; a_error := Some "No products to update" |}
  else
    let changes :=
      List.filter hasDelta (map (toChange locationId) (List.filter update products)) in
    if (length changes =? 0)%nat then
      ret {| a_results :=
               map (fun p => {| r_sku := sku p; r_updated := false;
                                r_message := "No quantity change needed";
                                r_error := None |}) products;
             a_error := None |}
    else
      let* changeBatches := liftOption (chunkArray changes 100) in
      forEach changeBatches (adjustBatch admin products) ;;;
      let* results := get in
      ret {| a_results := results; a_error := None |}.

(** *** intent updatePricing *)

Definition costPattern (s : string) : bool :=
  testCI "inventoryItem" s || testCI "cost" s || testCI "unitCost" s.

Definition hasCostError (userErrors : list UserError) : bool :=
  existsb (fun error =>
             let field := String.concat "." (default [] (ue_field error)) in
             costPattern (ue_message error) || costPattern field)
          userErrors.

(** The loop of standalone cost writes; [costErrors] is the [Map] from SKU to
    message, each iteration has its own [try]/[catch]. *)
Fixpoint costLoop {S} (admin : Admin) (variantBatch : list NormalizedProduct)
    (costErrors : gmap string string) : M S (gmap string string) :=
  match variantBatch with
  | [] => ret costErrors
  | variant :: rest =>
      let* costErrors' :=
        tryCatch
          (let* costData := itemUpdate admin (inventoryItemId variant) (costNew variant) in
           match costData with
           | None => ret (<[sku variant := "Cost update failed"]> costErrors)
           | Some [] => ret costErrors
           | Some (e :: _) => ret (<[sku variant := ue_message e]> costErrors)
           end)
          (fun err => ret (<[sku variant := errMessage err]> costErrors)) in
      costLoop admin rest costErrors'
  end.

Definition withCost `{Runtime} (v : NormalizedProduct) : VariantInput :=
  {| vi_id := variantId v; vi_price := toFixed2 (price v); vi_cost := Some (costNew v) |}.

Definition priceOnly `{Runtime} (v : NormalizedProduct) : VariantInput :=
  {| vi_id := variantId v; vi_price := toFixed2 (price v); vi_cost := None |}.

(** The outcome pushed for one variant after the fallback. *)
Definition fallbackOutcome (effectivePriceErrors : list UserError)
    (costErrors : gmap string string) (variant : NormalizedProduct)
    : M (list UpdateResponse) unit :=
  let hasPriceError := nonEmpty effectivePriceErrors in
  let costError := costErrors !! sku variant in
  let hasError := hasPriceError || optTruthy costError in
  let* message :=
    if hasError then
      match costError with
      | Some m => if truthy m then ret m else firstMessage effectivePriceErrors
      | None => firstMessage effectivePriceErrors
      end
    else ret "Pricing updated" in
  push {| r_sku := sku variant; r_updated := negb hasError; r_message := message;
          r_error := if hasError then Some message else None |}.

(** The body of the loop over the sub-batches of one parent product. *)
Definition pricingBatch `{Runtime} (admin : Admin) (productId : string)
    (variantBatch : list NormalizedProduct) : M (list UpdateResponse) unit :=
  let* data := bulkUpdate admin productId (map withCost variantBatch) in
  let userErrors := default [] data in
  if nonEmpty userErrors && hasCostError userErrors then
    let* priceData := bulkUpdate admin productId (map priceOnly variantBatch) in
    let priceErrors := default [] priceData in
    let effectivePriceErrors :=
      match priceData with
      | Some _ => priceErrors
      | None => [{| ue_field := None; ue_message := "Price update failed" |}]
      end in
    let* costErrors := costLoop admin variantBatch ∅ in
    forEach variantBatch (fallbackOutcome effectivePriceErrors costErrors)
  else
    forEach variantBatch (fun variant =>
      let hasError := nonEmpty userErrors in
      if hasError then
        let* message := firstMessage userErrors in
        push {| r_sku := sku variant; r_updated := negb hasError;
                r_message := message; r_error := Some message |}
      else
        push {| r_sku := sku variant; r_updated := negb hasError;
                r_message := "Pricing updated"; r_error := None |}).

Definition variantBatchSize : nat := 100.

Definition pricingGroup `{Runtime} (admin : Admin)
    (group : string * list NormalizedProduct) : M (list UpdateResponse) unit :=
  let productId := fst group in
  let variants := snd group in
  tryCatch
    (let* variantBatches := liftOption (chunkArray variants variantBatchSize) in
     forEach variantBatches (pricingBatch admin productId))
    (fun err =>
       forEach variants (fun variant =>
         push {| r_sku := sku variant; r_updated := false;
                 r_message := "API error"; r_error := Some (errMessage err) |})).

(** [results.find(...)] followed by assignments to the found object. *)
Fixpoint updateFirst {A} (p : A -> bool) (f : A -> A) (xs : list A) : list A :=
  match xs with
  | [] => []
  | x :: rest => if p x then f x :: rest else x :: updateFirst p f rest
  end.

Definition mergeStock (productsToUpdate : list NormalizedProduct)
    (userErrors : list UserError) (change : InventoryChange)
    : M (list UpdateResponse) unit :=
  let target := sku <$> productOfChange productsToUpdate change in
  let isTarget := fun r => bool_decide (Some (r_sku r) = target) in
  let* results := get in
  match find isTarget results with
  | Some _ =>
      let hasError := nonEmpty userErrors in
      if hasError then
        let* message := firstMessage userErrors in
        modify (updateFirst isTarget (fun r =>
          {| r_sku := r_sku r; r_updated := negb hasError;
             r_message := message; r_error := Some message |}))
      else
        modify (updateFirst isTarget (fun r =>
          {| r_sku := r_sku r; r_updated := negb hasError;
             r_message := "Stock updated"; r_error := None |}))
  | None => ret tt
  end.

Definition stockPass (admin : Admin) (productsToUpdate : list NormalizedProduct)
    (locationId : option string) : M (list UpdateResponse) unit :=
  let stockChanges :=
    List.filter hasDelta (map (toChange locationId) productsToUpdate) in
  if nonEmpty stockChanges then
    let* changeBatches := liftOption (chunkArray stockChanges 100) in
    forEach changeBatches (fun batch =>
      tryCatch
        (let* data := adjustQuantities admin batch in
         let userErrors := default [] data in
         forEach batch (mergeStock productsToUpdate userErrors))
        (fun _ => ret tt))
  else ret tt.

Definition updatePricing `{Runtime} (admin : Admin)
    (products : list NormalizedProduct) (updateStock : bool)
    (locationId : option string) : M (list UpdateResponse) ActionData :=
  if (length products =? 0)%nat then
    ret {| a_results := []; a_error := Some "No products to update" |}
  else
    let productsToUpdate := List.filter update products in
    let grouped := groupProductsByParent productsToUpdate in
    forEach grouped (pricingGroup admin) ;;;
    (if updateStock then stockPass admin productsToUpdate locationId else ret tt) ;;;
    let* results := get in
    ret {| a_results := results; a_error := None |}.

(** Running an action from the state its locals start in. *)
Definition start {S A} (m : M S A) (locals : S) (log : list Call)
    : Outcome A * list Call :=
  let r := m (log, locals) in (fst r, fst (snd r)).

(** *** The page: handleUpdatePricing, handleUpdateStock *)

Inductive Intent := IntentUpdatePricing | IntentUpdateStock.

Record Payload := {
  p_intent : Intent;
  p_products : list NormalizedProduct;
  p_locationId : string;
  p_updateStock : option bool;
}.

(** [fetcher.data] once the fetcher is idle again: [d_results] is present when
    ["results" in data && Array.isArray(data.results)]. *)
Record FetcherData := {
  d_results : option (list UpdateResponse);
  d_error : option string;
}.

(** What an observer of the page sees, in order. *)
Inductive Event :=
| Render (s : BatchState)
| Submit (payload : Payload)
| Settle (data : option FetcherData).

Record Page (Σ : Type) := {
  server : Σ;
  batchProcessor : BatchState;
  error : string;
  trace : list Event;
}.
Arguments server {Σ}.
Arguments batchProcessor {Σ}.
Arguments error {Σ}.
Arguments trace {Σ}.

Definition updateBatchSize : nat := 50.

Definition setBatch {Σ} (f : BatchState -> BatchState) (pg : Page Σ) : Page Σ :=
  {| server := server pg; batchProcessor := f (batchProcessor pg);
     error := error pg;
     trace := trace pg ++ [Render (f (batchProcessor pg))] |}.

Definition setError {Σ} (e : string) (pg : Page Σ) : Page Σ :=
  {| server := server pg; batchProcessor := batchProcessor pg;
     error := e; trace := trace pg |}.

(** [await submitBatch(payload)]: the request is answered by the server, and
    the loop resumes with the answer. *)
Definition awaitSubmit {Σ} (submitBatch : Σ -> Payload -> option FetcherData * Σ)
    (payload : Payload) (pg : Page Σ) : option FetcherData * Page Σ :=
  let r := submitBatch (server pg) payload in
  (fst r,
   {| server := snd r; batchProcessor := batchProcessor pg; error := error pg;
      trace := trace pg ++ [Submit payload; Settle (fst r)] |}).

(** The [for (index = 0; index < batches.length; index += 1)] loop. *)
Fixpoint batchLoop {Σ} (submitBatch : Σ -> Payload -> option FetcherData * Σ)
    (mkPayload : list NormalizedProduct -> Payload)
    (batches : list (list NormalizedProduct)) (index : nat) (pg : Page Σ)
    : Page Σ :=
  match batches with
  | [] => pg
  | batch :: rest =>
      let pg1 := setBatch (setCurrentBatch (index + 1)) pg in
      let r := awaitSubmit submitBatch (mkPayload batch) pg1 in
      let data := fst r in
      let pg2 := snd r in
      let pg3 :=
        match data with
        | Some d =>
            match d_results d with
            | Some rs => setBatch (addResults rs) pg2
            | None => pg2
            end
        | None => pg2
        end in
      match data with
      | Some {| d_error := Some e |} =>
          if truthy e then setError e pg3
          else batchLoop submitBatch mkPayload rest (index + 1) pg3
      | _ => batchLoop submitBatch mkPayload rest (index + 1) pg3
      end
  end.

Definition handleUpdate {Σ} (submitBatch : Σ -> Payload -> option FetcherData * Σ)
    (mkPayload : list NormalizedProduct -> Payload)
    (products : list NormalizedProduct) (pg : Page Σ) : option (Page Σ) :=
  let productsToUpdate := List.filter update products in
  if (length productsToUpdate =? 0)%nat then
    Some (setError "No products selected for update" pg)
  else
    let pg1 := setBatch (setIsProcessing true) (setBatch reset pg) in
    match chunkArray productsToUpdate updateBatchSize with
    | None => None
    | Some batches =>
        let pg2 := setBatch (setTotalBatches (length batches)) pg1 in
        let pg3 := batchLoop submitBatch mkPayload batches 0 pg2 in
        Some (setBatch (setIsProcessing false) pg3)
    end.

Definition handleUpdatePricing {Σ}
    (submitBatch : Σ -> Payload -> option FetcherData * Σ)
    (selectedLocationId : string) (hasStockField : bool)
    (products : list NormalizedProduct) (pg : Page Σ) : option (Page Σ) :=
  handleUpdate submitBatch
    (fun batch => {| p_intent := IntentUpdatePricing; p_products := batch;
                     p_locationId := selectedLocationId;
                     p_updateStock := Some hasStockField |})
    products pg.

Definition handleUpdateStock {Σ}
    (submitBatch : Σ -> Payload -> option FetcherData * Σ)
    (selectedLocationId : string)
    (products : list NormalizedProduct) (pg : Page Σ) : option (Page Σ) :=
  handleUpdate submitBatch
    (fun batch => {| p_intent := IntentUpdateStock; p_products := batch;
                     p_locationId := selectedLocationId;
                     p_updateStock := None |})
    products pg.

End Route.

(** ** components: ProductTable *)

Module Components.

(** [Array.prototype.slice(start, end)] for any integers: a negative index
    counts from the end, and both are clamped to the array. *)
Definition relativeIndex (len k : Z) : Z :=
  if (k <? 0)%Z then Z.max (len + k) 0 else Z.min k len.

Definition sliceRel {T} (arr : list T) (start final : Z) : list T :=
  let len := Z.of_nat (length arr) in
  let k := relativeIndex len start in
  let e := relativeIndex len final in
  take (Z.to_nat (Z.max (e - k) 0)) (drop (Z.to_nat k) arr).

Definition itemsPerPage : Z := 50.

(** [Math.ceil(products.length / itemsPerPage)]; the quotient of a length by
    50 is rounded to an integer only when it is one, so the ceiling is that
    of the exact quotient. *)
Definition totalPages {T} (products : list T) : Z :=
  ((Z.of_nat (length products) + itemsPerPage - 1) / itemsPerPage)%Z.

(** The effect on [currentPage, totalPages]: the page it sets, or the current
    one when it sets none. *)
Definition clampEffect (totalPages currentPage : Z) : Z :=
  if (totalPages =? 0)%Z && negb (currentPage =? 1)%Z then 1%Z
  else if (currentPage >? totalPages)%Z && (totalPages >? 0)%Z then totalPages
  else currentPage.

Definition onPreviousPage (prev : Z) : Z := Z.max (prev - 1) 1.

Definition onNextPage (totalPages prev : Z) : Z := Z.min (prev + 1) totalPages.

Definition paginatedProducts {T} (products : list T) (currentPage : Z) : list T :=
  let startIndex := ((currentPage - 1) * itemsPerPage)%Z in
  let endIndex := (startIndex + itemsPerPage)%Z in
  sliceRel products startIndex endIndex.

End Components.

(** ** routes/app.supplier-updates, the earlier version *)

Module RouteV1.
Import Js Lib Hooks Graphql Api Route.

(** The body of the loop over the parent products: the variants of a product
    are written together, whatever their number; the statements are those of
    the later sub-batch body, on all the variants. *)
Definition pricingGroup `{Runtime} (admin : Admin)
    (group : string * list NormalizedProduct) : M (list UpdateResponse) unit :=
  let productId := fst group in
  let variants := snd group in
  tryCatch
    (pricingBatch admin productId variants)
    (fun err =>
       forEach variants (fun variant =>
         push {| r_sku := sku variant; r_updated := false;
                 r_message := "API error"; r_error := Some (errMessage err) |})).

(** The stock pass sends the changes and does not look at the answers. *)
Definition stockPass (admin : Admin) (productsToUpdate : list NormalizedProduct)
    (locationId : option string) : M (list UpdateResponse) unit :=
  let stockChanges :=
    List.filter hasDelta (map (toChange locationId) productsToUpdate) in
  if nonEmpty stockChanges then
    let* changeBatches := liftOption (chunkArray stockChanges 100) in
    forEach changeBatches (fun batch =>
      tryCatch (adjustQuantities admin batch ;;; ret tt) (fun _ => ret tt))
  else ret tt.

Definition updatePricing `{Runtime} (admin : Admin)
    (products : list NormalizedProduct) (updateStock : bool)
    (locationId : option string) : M (list UpdateResponse) ActionData :=
  if (length products =? 0)%nat then
    ret {| a_results := []; a_error := Some "No products to update" |}
  else
    let productsToUpdate := List.filter update products in
    let grouped := groupProductsByParent productsToUpdate in
    forEach grouped (pricingGroup admin) ;;;
    (if updateStock then stockPass admin productsToUpdate locationId else ret tt) ;;;
    let* results := get in
    ret {| a_results := results; a_error := None |}.

End RouteV1.

(** ** routes/app.supplier-updates: loader *)

Module Loader.
Import Js.

Record Location := {
  loc_id : string;
  loc_name : string;
  loc_isActive : bool;
}.

Record LoaderData := {
  ld_locationId : option string;
  ld_locationName : string;
  ld_locations : list Location;
}.

(** [locations.find((l) => l.isActive) || locations[0]]. *)
Definition defaultLocation (locations : list Location) : option Location :=
  match find loc_isActive locations with
  | Some l => Some l
  | None => locations !! 0%nat
  end.

(** The loader, from the body of the answer to the locations query;
    [locationsData] is [data?.locations.nodes]. *)
Definition loader (locationsData : option (list Location)) : LoaderData :=
  let locations := default [] locationsData in
  let chosen := defaultLocation locations in
  {| ld_locationId :=
       match chosen with
       | Some l => if truthy (loc_id l) then Some (loc_id l) else None
       | None => None
       end;
     ld_locationName :=
       match chosen with
       | Some l => if truthy (loc_name l) then loc_name l else "Unknown"
       | None => "Unknown"
       end;
     ld_locations :=
       map (fun location => {| loc_id := loc_id location; loc_name := loc_name location;
                               loc_isActive := loc_isActive location |}) locations |}.

End Loader.

(** * Vocabulary of the properties *)

Import Js Lib Hooks Graphql Api Route.

(** What the loop appends when started at offset [i]: the chunks of the
    remaining suffix. *)
Fixpoint chunks_of {T} (fuel size : nat) (rest : list T) : list (list T) :=
  match fuel, rest with
  | S fuel', _ :: _ => take size rest :: chunks_of fuel' size (drop size rest)
  | _, _ => []
  end.

(** The nearest binary64 values of the decimal literals of the examples. *)
Definition lit_4_999 : float := 0x1.3fef9db22d0e5p+2.

Definition lit_m0_01 : float := Eval vm_compute in (- (1 / 100))%float.

Definition mappingOf (skuCol costCol : option nat) (sohCol : option SohValue)
    : CSVFieldMapping :=
  updateField (updateField (updateField initialFields KeySku (SohColumn <$> skuCol))
                           KeyCost (SohColumn <$> costCol))
              KeySoh sohCol.

Definition sampleItem (vid : string) (newCost : float) : NormalizedProduct :=
  {| id := "gid://shopify/Product/1"; variantId := vid;
     inventoryItemId := "gid://shopify/InventoryItem/1"; sku := "A1";
     name := "Widget"; image := "";
     cost := 8; price := 15; quantity := 3;
     costNew := newCost; quantityNew := 3;
     margin := calculateMargin 15 newCost;
     marginStatus := getMarginStatus (calculateMargin 15 newCost) 5;
     update := true |}.

(** One iteration of the loop over the lines. *)
Definition parseStep (line : string) (rows : list (list string)) : list (list string) :=
  if String.eqb (trim line) EmptyString then rows
  else rows ++ [scanLine line [] EmptyString false].


Definition dq : string := String dquote EmptyString.


(** The cell [He said "hi"]. *)
Definition heSaidHi : string := ("He said " ++ dq ++ "hi" ++ dq)%string.



(** The text read from a cell: the cell itself, or ["0"] when the row is too
    short to have it or the cell is empty. *)
Definition cellOrZero (cell : option string) : string :=
  match cell with
  | Some (String c rest) => String c rest
  | _ => "0"
  end.

(** The stock value of a record, by the words of the specification: present
    exactly when the stock column is a real index, and then the integer read
    from the stock cell, with [NaN] replaced by 0. *)
Definition stockOnHand `{Runtime} (soh : option SohValue) (row : list string) : option float :=
  match soh with
  | Some (SohColumn sohCol) =>
      let n := parseInt10 (cellOrZero (row !! sohCol)) in
      Some (if isNaN n then 0%float else n)
  | _ => None
  end.

(** [I] holds of the locals after [m] whenever it held before, however [m]
    ends. *)
Definition preserves {S A} (I : S -> Prop) (m : M S A) : Prop :=
  forall log s, I s -> I (snd (snd (m (log, s)))).

(** [m] runs to the end or throws: it does not run out of fuel. *)
Definition terminates {S A} (m : M S A) : Prop :=
  forall st, fst (m st) <> Diverged.

(** [m] runs to the end. *)
Definition resolves {S A} (m : M S A) : Prop :=
  forall st, exists a, fst (m st) = Resolved a.

(** The loop invariant of the lookup: every product found so far carries the
    SKU of some input record up to case, and [foundSkus] holds exactly the
    lowercased SKUs of the products found so far. *)
Definition lookupInv `{Runtime} (csvProducts : list CSVProduct) (st : LookupState) : Prop :=
  (forall item, item ∈ fst st ->
     exists p, p ∈ csvProducts /\ toLowerCase (sku item) = toLowerCase (csv_sku p))
  /\ (forall k : string,
        k ∈ snd st <-> exists item, item ∈ fst st /\ toLowerCase (sku item) = k).

Definition adjustCall (batch : list InventoryChange) : Call :=
  InventoryAdjustQuantities "correction" "available" batch.

(** The outcome recorded for a product of a batch, from the answer to the
    batch's single call. *)
Definition stockOutcome (reply : Reply (option (list UserError)))
    (product : NormalizedProduct) : UpdateResponse :=
  match reply with
  | Json data =>
      match default [] data with
      | [] => {| r_sku := sku product; r_updated := true;
                 r_message := "Stock updated"; r_error := None |}
      | e :: _ => {| r_sku := sku product; r_updated := false;
                     r_message := ue_message e; r_error := Some (ue_message e) |}
      end
  | Rejected err => {| r_sku := sku product; r_updated := false;
                       r_message := "API error"; r_error := Some (errMessage err) |}
  end.

Definition batchResults (products : list NormalizedProduct)
    (reply : Reply (option (list UserError))) (batch : list InventoryChange)
    : list UpdateResponse :=
  map (stockOutcome reply) (omap (productOfChange products) batch).

(** The batches one after the other: the outcomes and the calls they add. *)
Fixpoint adjustRun (admin : Admin) (products : list NormalizedProduct)
    (batches : list (list InventoryChange)) (log : list Call)
    : list UpdateResponse * list Call :=
  match batches with
  | [] => ([], [])
  | batch :: rest =>
      let reply := inventoryAdjustQuantities admin log batch in
      let r := adjustRun admin products rest (log ++ [adjustCall batch]) in
      (batchResults products reply batch ++ fst r, adjustCall batch :: snd r)
  end.

Definition noChange (p : NormalizedProduct) : UpdateResponse :=
  {| r_sku := sku p; r_updated := false;
     r_message := "No quantity change needed"; r_error := None |}.

Definition stockItem (name' : string) (current new : float) : NormalizedProduct :=
  {| id := "gid://shopify/Product/1";
     variantId := ("gid://shopify/ProductVariant/" ++ name')%string;
     inventoryItemId := ("gid://shopify/InventoryItem/" ++ name')%string;
     sku := name'; name := "Widget"; image := "";
     cost := 8; price := 15; quantity := current;
     costNew := 10; quantityNew := new;
     margin := 50; marginStatus := good; update := true |}.

(** A gateway that accepts every call. *)
Definition acceptingAdmin : Admin :=
  {| getProductsBySku := fun _ _ _ => Json (Some []);
     inventoryAdjustQuantities := fun _ _ => Json (Some []);
     productVariantsBulkUpdate := fun _ _ _ => Json (Some []);
     inventoryItemUpdate := fun _ _ _ => Json (Some []) |}.

Definition costCall (v : NormalizedProduct) : Call :=
  InventoryItemUpdate (inventoryItemId v) (costNew v).

(** The error a standalone cost write leaves behind, if it failed: the call
    threw, the answer carried no data, or it carried user errors. *)
Definition costFailure (reply : Reply (option (list UserError))) : option string :=
  match reply with
  | Json None => Some "Cost update failed"
  | Json (Some []) => None
  | Json (Some (e :: _)) => Some (ue_message e)
  | Rejected err => Some (errMessage err)
  end.

Definition recordFailure (v : NormalizedProduct) (failure : option string)
    (costErrors : gmap string string) : gmap string string :=
  match failure with
  | Some m => <[sku v := m]> costErrors
  | None => costErrors
  end.

(** The failure of the cost write of the variant at position [j], the cost
    writes starting at log [log]. *)
Definition costFailureAt (admin : Admin) (log : list Call)
    (batch : list NormalizedProduct) (j : nat) : option string :=
  match batch !! j with
  | Some w =>
      costFailure (inventoryItemUpdate admin (log ++ map costCall (take j batch))
                     (inventoryItemId w) (costNew w))
  | None => None
  end.

Fixpoint costFold (admin : Admin) (log : list Call) (batch : list NormalizedProduct)
    (costErrors : gmap string string) : gmap string string :=
  match batch with
  | [] => costErrors
  | v :: rest =>
      costFold admin (log ++ [costCall v]) rest
        (recordFailure v
           (costFailure (inventoryItemUpdate admin log (inventoryItemId v) (costNew v)))
           costErrors)
  end.

Definition effectivePriceErrors (priceData : option (list UserError)) : list UserError :=
  match priceData with
  | Some priceErrors => priceErrors
  | None => [{| ue_field := None; ue_message := "Price update failed" |}]
  end.

Definition fallbackResult (eff : list UserError) (costErrors : gmap string string)
    (v : NormalizedProduct) : UpdateResponse :=
  let hasError := nonEmpty eff || optTruthy (costErrors !! sku v) in
  let priceMessage := match eff with e :: _ => ue_message e | [] => EmptyString end in
  let message :=
    if hasError then
      match costErrors !! sku v with
      | Some m => if truthy m then m else priceMessage
      | None => priceMessage
      end
    else "Pricing updated" in
  {| r_sku := sku v; r_updated := negb hasError; r_message := message;
     r_error := if hasError then Some message else None |}.

Definition variantItem (variant sku' : string) : NormalizedProduct :=
  {| id := "gid://shopify/Product/1";
     variantId := ("gid://shopify/ProductVariant/" ++ variant)%string;
     inventoryItemId := ("gid://shopify/InventoryItem/" ++ variant)%string;
     sku := sku'; name := "Widget"; image := "";
     cost := 8; price := 15; quantity := 3;
     costNew := 10; quantityNew := 3;
     margin := 50; marginStatus := good; update := true |}.

Definition costRejection : UserError :=
  {| ue_field := Some ["variants"; "0"; "inventoryItem"; "cost"];
     ue_message := "Cost is invalid" |}.

(** A gateway that rejects every bulk write carrying a cost, accepts the
    price-only write, and refuses the standalone cost write of variant V1. *)
Definition costRejectingAdmin : Admin :=
  {| getProductsBySku := fun _ _ _ => Json (Some []);
     inventoryAdjustQuantities := fun _ _ => Json (Some []);
     productVariantsBulkUpdate := fun _ _ variants =>
       if existsb (fun v => bool_decide (is_Some (vi_cost v))) variants
       then Json (Some [costRejection]) else Json (Some []);
     inventoryItemUpdate := fun _ itemId _ =>
       if String.eqb itemId "gid://shopify/InventoryItem/V1"
       then Json (Some [{| ue_field := None; ue_message := "Cost rejected" |}])
       else Json (Some []) |}.

Definition productGid : string := "gid://shopify/Product/1".

(** C1 read with "that variant's standalone cost write": the outcome of a
    variant fails iff the price-only retry reported an error or its own cost
    write failed. *)
Definition ownCostWriteClaim : Prop :=
  forall (admin : Admin) (productId : string) (batch : list NormalizedProduct)
         (log : list Call) (rs : list UpdateResponse)
         (data1 priceData : option (list UserError)),
    let c1 := ProductVariantsBulkUpdate productId (map (@withCost refRuntime) batch) in
    let c2 := ProductVariantsBulkUpdate productId (map (@priceOnly refRuntime) batch) in
    productVariantsBulkUpdate admin log productId (map (@withCost refRuntime) batch)
    = Json data1 ->
    nonEmpty (default [] data1) && hasCostError (default [] data1) = true ->
    productVariantsBulkUpdate admin (log ++ [c1]) productId
      (map (@priceOnly refRuntime) batch) = Json priceData ->
    exists outcomes calls,
      @pricingBatch refRuntime admin productId batch (log, rs)
      = (Resolved tt, (calls, rs ++ outcomes))
      /\ forall i v, batch !! i = Some v ->
           exists r, outcomes !! i = Some r
             /\ (r_updated r = false
                 <-> effectivePriceErrors priceData <> []
                     \/ is_Some (costFailureAt admin (log ++ [c1; c2]) batch i)).

Definition restock (p : NormalizedProduct) (q : float) : NormalizedProduct :=
  {| id := id p; variantId := variantId p; inventoryItemId := inventoryItemId p;
     sku := sku p; name := name p; image := image p; cost := cost p; price := price p;
     quantity := quantity p; costNew := costNew p; quantityNew := q;
     margin := margin p; marginStatus := marginStatus p; update := update p |}.

Definition renders (evs : list Event) : list BatchState :=
  omap (fun e => match e with Render s => Some s | _ => None end) evs.

Definition submits (evs : list Event) : list Payload :=
  omap (fun e => match e with Submit p => Some p | _ => None end) evs.

Definition settles (evs : list Event) : list (option FetcherData) :=
  omap (fun e => match e with Settle d => Some d | _ => None end) evs.

(** Every request is settled before anything else happens. *)
Inductive Sequential : list Event -> Prop :=
| seq_nil : Sequential []
| seq_render s evs : Sequential evs -> Sequential (Render s :: evs)
| seq_call p d evs : Sequential evs -> Sequential (Submit p :: Settle d :: evs).

(** [R] relates every element of a list to the next one. *)
Fixpoint chain {A} (R : A -> A -> Prop) (xs : list A) : Prop :=
  match xs with
  | a :: rest => match rest with b :: _ => R a b | [] => True end /\ chain R rest
  | [] => True
  end.

(** One step of the batch-run state: the batch index stays or advances by
    one, and the outcomes only get longer. *)
Definition grows (s s' : BatchState) : Prop :=
  (currentBatch s <= currentBatch s' <= S (currentBatch s))%nat
  /\ results s `prefix_of` results s'.

(** The outcomes an answer adds, and whether it stops the run. *)
Definition resultsOf (data : option FetcherData) : list UpdateResponse :=
  match data with
  | Some d => default [] (d_results d)
  | None => []
  end.

Definition stopsRun (data : option FetcherData) : bool :=
  match data with
  | Some {| d_error := Some e |} => truthy e
  | _ => false
  end.

(** The message an answer stops the run with. *)
Definition stopMessage (data : option FetcherData) : string :=
  match data with
  | Some {| d_error := Some e |} => e
  | _ => EmptyString
  end.

(** The error on display after a run whose last answer is [lastAnswer]. *)
Definition errorAfter (before : string) (lastAnswer : option (option FetcherData))
    : string :=
  match lastAnswer with
  | Some d => if stopsRun d then stopMessage d else before
  | None => before
  end.

(** What the server answers to a sequence of requests, each one received in
    the state the previous one left, and the state it is left in. *)
Fixpoint answers {Σ} (submitBatch : Σ -> Payload -> option FetcherData * Σ)
    (σ : Σ) (payloads : list Payload) : list (option FetcherData) * Σ :=
  match payloads with
  | [] => ([], σ)
  | payload :: rest =>
      let r := submitBatch σ payload in
      let r' := answers submitBatch (snd r) rest in
      (fst r :: fst r', snd r')
  end.

(** The batch index on display at each submission. *)
Fixpoint indexAtSubmit (current : nat) (evs : list Event) : list nat :=
  match evs with
  | [] => []
  | Render s :: rest => indexAtSubmit (currentBatch s) rest
  | Submit _ :: rest => current :: indexAtSubmit current rest
  | Settle _ :: rest => indexAtSubmit current rest
  end.

Definition chunkSizes_step (rec : nat -> list nat) (size n : nat) : list nat :=
  if (n =? 0)%nat then [] else Nat.min size n :: rec (n - size)%nat.

Fixpoint chunkSizes (fuel size n : nat) : list nat :=
  match fuel with
  | O => []
  | S fuel' => chunkSizes_step (chunkSizes fuel' size) size n
  end.

(** What one iteration of the loop leaves on display. *)
Definition afterAnswer (data : option FetcherData) (s : BatchState) : BatchState :=
  match data with
  | Some {| d_results := Some rs |} => addResults rs s
  | _ => s
  end.

Definition catalogA1 : ShopifyProduct :=
  {| sp_id := "gid://shopify/Product/1"; sp_title := "Widget"; sp_image := None;
     sp_variants :=
       [ {| v_id := "gid://shopify/ProductVariant/11"; v_sku := Some "a1";
            v_price := "15.00";
            v_inventoryItem := {| ii_id := "gid://shopify/InventoryItem/21";
                                  ii_unitCost := Some "8.00";
                                  ii_inventoryLevel := None |};
            v_inventoryQuantity := 3 |} ] |}.

(** A catalog holding the single variant [a1]. *)
Definition catalogAdmin : Admin :=
  {| getProductsBySku := fun _ _ _ => Json (Some [catalogA1]);
     inventoryAdjustQuantities := fun _ _ => Json (Some []);
     productVariantsBulkUpdate := fun _ _ _ => Json (Some []);
     inventoryItemUpdate := fun _ _ _ => Json (Some []) |}.

Definition supplierRecords : list CSVProduct :=
  [ {| csv_sku := "A1"; csv_cost := 10; csv_soh := None |};
    {| csv_sku := "A2"; csv_cost := 20; csv_soh := None |} ].

(** A server that accepts every batch and reports each item as updated. *)
Definition acceptingServer (n : nat) (payload : Payload) : option FetcherData * nat :=
  (Some {| d_results :=
             Some (map (fun p => {| r_sku := sku p; r_updated := true;
                                    r_message := "Stock updated"; r_error := None |})
                       (p_products payload));
           d_error := None |},
   S n).

Definition stockPayload (batch : list NormalizedProduct) : Payload :=
  {| p_intent := IntentUpdateStock; p_products := batch;
     p_locationId := "loc"; p_updateStock := None |}.

Definition idlePage : Page nat :=
  {| server := 0%nat; batchProcessor := initialBatchState; error := EmptyString;
     trace := [] |}.

(** The status of an item agrees with its margin under threshold [t]. *)
Definition statusConsistent (t : float) (p : NormalizedProduct) : Prop :=
  marginStatus p = getMarginStatus (margin p) t.

(** The products of parent [k]. *)
Definition sameParent (k : string) (p : NormalizedProduct) : bool :=
  String.eqb (id p) k.

(** Reading an escaped value back: a backslash stands for the character
    after it. *)
Fixpoint unescapeQueryValue (s : string) : string :=
  match s with
  | EmptyString => EmptyString
  | String c rest =>
      if Ascii.eqb c backslash then
        match rest with
        | String c' rest' => String c' (unescapeQueryValue rest')
        | EmptyString => EmptyString
        end
      else String c (unescapeQueryValue rest)
  end.

(** No quote outside an escape: every quote directly follows a backslash
    that opens an escape. *)
Fixpoint quotesEscaped (s : string) : bool :=
  match s with
  | EmptyString => true
  | String c rest =>
      if Ascii.eqb c backslash then
        match rest with
        | String _ rest' => quotesEscaped rest'
        | EmptyString => false
        end
      else negb (Ascii.eqb c dquote) && quotesEscaped rest
  end.

Definition escapeChar (c : ascii) : string :=
  if Ascii.eqb c backslash then String backslash (String backslash EmptyString)
  else if Ascii.eqb c dquote then String backslash (String dquote EmptyString)
  else String c EmptyString.

(** Equality of strings up to the case of the letters A to Z. *)
Definition sameLetters (a b : string) : Prop :=
  mapString lowerAscii a = mapString lowerAscii b.

(** The usual way of writing a cell: every quote doubled, the whole between
    two quotes. *)
Fixpoint escapeCell (cell : string) : string :=
  match cell with
  | EmptyString => EmptyString
  | String c rest =>
      if Ascii.eqb c dquote then String dquote (String dquote (escapeCell rest))
      else String c (escapeCell rest)
  end.

Definition quoteCell (cell : string) : string :=
  String dquote (escapeCell cell ++ dq).

Definition writeRow (row : list string) : string :=
  String.concat (String comma EmptyString) (map quoteCell row).

Definition writeCSV (sep : string) (rows : list (list string)) : string :=
  String.concat sep (map writeRow rows).

Fixpoint noLineFeed (s : string) : bool :=
  match s with
  | EmptyString => true
  | String c rest => negb (Ascii.eqb c LF) && noLineFeed rest
  end.

(** A row that can be written and read back: it has a cell, and each cell is
    trimmed and holds no line feed. *)
Definition writable (row : list string) : bool :=
  nonEmpty row && forallb (fun cell => String.eqb (trim cell) cell && noLineFeed cell) row.

(** What follows a closing quote: the end of the line, or a character that is
    not a quote. *)
Definition afterQuote (rest : string) : Prop :=
  match rest with
  | EmptyString => True
  | String next _ => Ascii.eqb next dquote = false
  end.

(** A batch for which the lookup asks the gateway, and the call it makes. *)
Definition asked (skuBatch : list string) : bool := truthy (buildSkuQuery skuBatch).

Definition queryCall (locationId : option string) (skuBatch : list string) : Call :=
  GetProductsBySku (buildSkuQuery skuBatch) (orDefault locationId "").

(** The page numbers [1 .. n]. *)
Definition pageNumbers (n : Z) : list Z :=
  map (fun k => (Z.of_nat k + 1)%Z) (seq 0 (Z.to_nat n)).

Definition combinedCall `{Runtime} (productId : string) (batch : list NormalizedProduct)
    : Call :=
  ProductVariantsBulkUpdate productId (map withCost batch).

(** The outcome of a variant when the combined write is not retried. *)
Definition directResult (userErrors : list UserError) (v : NormalizedProduct)
    : UpdateResponse :=
  match userErrors with
  | [] => {| r_sku := sku v; r_updated := true;
             r_message := "Pricing updated"; r_error := None |}
  | e :: _ => {| r_sku := sku v; r_updated := false;
                 r_message := ue_message e; r_error := Some (ue_message e) |}
  end.

(** The outcome of a variant whose parent product met a rejected call. *)
Definition apiError (err : Thrown) (v : NormalizedProduct) : UpdateResponse :=
  {| r_sku := sku v; r_updated := false;
     r_message := "API error"; r_error := Some (errMessage err) |}.

(** A gateway that is out of reach: every call is rejected. *)
Definition unreachableAdmin : Admin :=
  {| getProductsBySku := fun _ _ _ => Rejected (ErrorObject "Network error");
     inventoryAdjustQuantities := fun _ _ => Rejected (ErrorObject "Network error");
     productVariantsBulkUpdate := fun _ _ _ => Rejected (ErrorObject "Network error");
     inventoryItemUpdate := fun _ _ _ => Rejected (ErrorObject "Network error") |}.

(** A gateway that accepts the first call it sees and rejects the others. *)
Definition droppingAdmin : Admin :=
  {| getProductsBySku := fun _ _ _ => Rejected (ErrorObject "Network error");
     inventoryAdjustQuantities := fun _ _ => Rejected (ErrorObject "Network error");
     productVariantsBulkUpdate := fun log _ _ =>
       match log with
       | [] => Json (Some [])
       | _ => Rejected (ErrorObject "Network error")
       end;
     inventoryItemUpdate := fun _ _ _ => Rejected (ErrorObject "Network error") |}.

(** A gateway that refuses every bulk write for a reason that is not about
    cost. *)
Definition priceRejectingAdmin : Admin :=
  {| getProductsBySku := fun _ _ _ => Json (Some []);
     inventoryAdjustQuantities := fun _ _ => Json (Some []);
     productVariantsBulkUpdate := fun _ _ _ =>
       Json (Some [{| ue_field := Some ["variants"; "0"; "price"];
                      ue_message := "Price is too high" |}]);
     inventoryItemUpdate := fun _ _ _ => Json (Some []) |}.

(** [n] variants of one parent product, with pairwise distinct SKUs. *)
Definition manyVariants (n : nat) : list NormalizedProduct :=
  map (fun k => variantItem (decimalOfZ (Z.of_nat k)) (decimalOfZ (Z.of_nat k)))
      (seq 0 n).

(** * Properties *)

Section Chunking.
Context {T : Type}.
Implicit Types (arr : list T) (chunks : list (list T)).

Lemma chunk_loop_spec fuel : forall arr size i chunks,
  (1 <= size)%nat -> (length arr - i <= fuel)%nat ->
  Lib.chunk_loop fuel arr size i chunks
  = Some (chunks ++ chunks_of fuel size (drop i arr)).
Proof.
  induction fuel as [|fuel IH]; intros arr size i chunks Hs Hf; simpl.
  - destruct (Nat.ltb_spec i (length arr)); [lia|].
    by rewrite app_nil_r.
  - destruct (Nat.ltb_spec i (length arr)) as [Hlt|Hge].
    + rewrite IH by lia.
      destruct (drop i arr) as [|x rest] eqn:Hd.
      { apply (f_equal length) in Hd. rewrite length_drop in Hd. simpl in Hd. lia. }
      rewrite <- Hd. unfold Js.slice.
      replace (i + size - i)%nat with size by lia.
      rewrite <- app_assoc. simpl. rewrite drop_drop.
      replace (take size (drop i arr) :: chunks_of fuel size (drop (i + size) arr))
        with ([take size (drop i arr)] ++ chunks_of fuel size (drop (i + size) arr))
        by reflexivity.
      reflexivity.
    + rewrite drop_ge by lia. destruct fuel; by rewrite app_nil_r.
Qed.

Lemma chunks_of_concat fuel : forall size (rest : list T),
  (1 <= size)%nat -> (length rest <= fuel)%nat ->
  concat (chunks_of fuel size rest) = rest.
Proof.
  induction fuel as [|fuel IH]; intros size rest Hs Hf.
  - destruct rest; [reflexivity | simpl in Hf; lia].
  - destruct rest as [|x rest]; [reflexivity|].
    change (take size (x :: rest) ++ concat (chunks_of fuel size (drop size (x :: rest)))
            = x :: rest).
    rewrite IH; [apply take_drop | lia |].
    rewrite length_drop. simpl in *. lia.
Qed.

Lemma chunks_of_bounds fuel : forall size (rest : list T),
  (1 <= size)%nat ->
  Forall (fun c => c <> [] /\ (length c <= size)%nat) (chunks_of fuel size rest).
Proof.
  induction fuel as [|fuel IH]; intros size rest Hs; [constructor|].
  destruct rest as [|x rest]; [constructor|].
  simpl chunks_of. constructor; [|by apply IH].
  split.
  - destruct size; [lia | discriminate].
  - rewrite length_take. lia.
Qed.

Lemma chunks_of_full fuel : forall size (rest : list T) k c,
  (1 <= size)%nat ->
  chunks_of fuel size rest !! k = Some c ->
  (S k < length (chunks_of fuel size rest))%nat ->
  length c = size.
Proof.
  induction fuel as [|fuel IH]; intros size rest k c Hs Hk Hlast.
  - destruct rest; discriminate.
  - destruct rest as [|x rest]; [discriminate|].
    simpl chunks_of in *. destruct k as [|k].
    + simpl in Hk. inversion Hk; subst c. clear Hk.
      simpl in Hlast.
      destruct (drop size (x :: rest)) as [|y tl] eqn:Hd.
      { destruct fuel; simpl in Hlast; lia. }
      apply (f_equal length) in Hd. rewrite length_drop in Hd.
      rewrite length_take. simpl in *. lia.
    + simpl in Hk, Hlast. eapply IH; eauto. lia.
Qed.

End Chunking.

Lemma chunkSkus_loop_eq fuel : forall skus size i acc,
  Graphql.chunkSkus_loop fuel skus size i acc = Lib.chunk_loop fuel skus size i acc.
Proof.
  induction fuel as [|fuel IH]; intros skus size i acc; simpl; [reflexivity|].
  destruct (i <? length skus)%nat; [apply IH | reflexivity].
Qed.

Lemma chunkArray_eq {T} (xs : list T) (size : nat) :
  (1 <= size)%nat ->
  Lib.chunkArray xs size = Some (chunks_of (length xs) size xs).
Proof.
  intros Hs. unfold Lib.chunkArray. rewrite chunk_loop_spec by lia.
  by rewrite drop_0.
Qed.

(** C10. For every list and every chunk size of at least one, [chunkArray]
    returns; concatenating its chunks in order gives back the list, every chunk
    is non-empty and at most [size] long, and every chunk but the last is
    exactly [size] long. [chunkSkusForQuery] is the same function on SKUs. *)
Theorem chunkArray_partition {T} (xs : list T) (size : nat) :
  (1 <= size)%nat ->
  exists chunks : list (list T),
    Lib.chunkArray xs size = Some chunks
    /\ concat chunks = xs
    /\ Forall (fun c => c <> [] /\ (length c <= size)%nat) chunks
    /\ (forall k c, chunks !! k = Some c -> (S k < length chunks)%nat ->
          length c = size)
    /\ (forall skus : list string,
          Graphql.chunkSkusForQuery skus size = Lib.chunkArray skus size).
Proof.
  intros Hs. exists (chunks_of (length xs) size xs).
  rewrite chunkArray_eq by lia. repeat split.
  - apply chunks_of_concat; lia.
  - by apply chunks_of_bounds.
  - intros k c Hk Hl. eapply chunks_of_full; eauto.
  - intros skus. unfold Graphql.chunkSkusForQuery, Lib.chunkArray.
    apply chunkSkus_loop_eq.
Qed.

Lemma chunkArray_partition_witness :
  exists chunks : list (list nat),
    Lib.chunkArray [1; 2; 3; 4; 5]%nat 2 = Some chunks
    /\ concat chunks = [1; 2; 3; 4; 5]%nat
    /\ Forall (fun c => c <> [] /\ (length c <= 2)%nat) chunks
    /\ (forall k c, chunks !! k = Some c -> (S k < length chunks)%nat ->
          length c = 2%nat)
    /\ (forall skus : list string,
          Graphql.chunkSkusForQuery skus 2 = Lib.chunkArray skus 2).
Proof. apply (chunkArray_partition [1; 2; 3; 4; 5]%nat 2). lia. Defined.

(** ** Margin engine *)

Section FloatOrder.
Local Open Scope float_scope.

Lemma SFcompare_antisym (x y : spec_float) :
  SFcompare y x = option_map CompOpp (SFcompare x y).
Proof.
  destruct x as [sx| sx| |sx mx ex], y as [sy| sy| |sy my ey]; simpl;
    try reflexivity;
    try (destruct sx; reflexivity);
    try (destruct sy; reflexivity);
    try (destruct sx, sy; reflexivity).
  destruct sx, sy; try reflexivity;
    rewrite (Z.compare_antisym ey ex);
    destruct (ey ?= ex)%Z eqn:He; simpl; try reflexivity;
    rewrite (Pos.compare_cont_antisym mx my Eq); simpl;
    try rewrite CompOpp_involutive; reflexivity.
Qed.

Lemma leb_not_ltb (t m : float) : (t <=? m) = true -> (m <? t) = false.
Proof.
  rewrite leb_spec, ltb_spec. unfold SFleb, SFltb.
  rewrite (SFcompare_antisym (Prim2SF t) (Prim2SF m)).
  destruct (SFcompare (Prim2SF t) (Prim2SF m)) as [[]|]; simpl; congruence.
Qed.

Lemma leb_zero_trans (t m : float) :
  (0 <=? t) = true -> (t <=? m) = true -> (0 <=? m) = true.
Proof.
  rewrite !leb_spec. unfold SFleb.
  change (Prim2SF 0) with (S754_zero false).
  destruct (Prim2SF t) as [st| st| |st mt et], (Prim2SF m) as [sm| sm| |sm mm em];
    simpl; try congruence;
    try (destruct st; simpl; congruence);
    try (destruct sm; simpl; congruence);
    try (destruct st, sm; simpl; congruence).
Qed.

End FloatOrder.

Section MarginEngine.
Import Lib.
Local Open Scope float_scope.

(** C8, as stated, fails in its last clause: a margin at or above a negative
    threshold can itself be negative, and the negative test comes first. *)
Lemma getMarginStatus_good_counterexample :
  ((-5) <=? (-1)) = true /\ getMarginStatus (-1) (-5) = negative
  /\ ~ (forall m t : float, (t <=? m) = true -> getMarginStatus m t = good).
Proof.
  split; [reflexivity|]. split; [reflexivity|].
  intros Hall. specialize (Hall (-1) (-5) eq_refl). discriminate Hall.
Qed.

(** C8 (amended). [calculateMargin] is 0 whenever [cost <= 0] and
    [(price / cost) * 100 - 100] otherwise; [getMarginStatus] is [negative] for
    every margin below 0 (whatever the threshold), [medium] for every margin
    with [0 <= m < t], and [good] for every [m >= t] provided the margin is not
    negative, which is the case whenever [t >= 0]. Both are functions of their
    arguments alone. *)
Theorem margin_status_laws :
  (forall price cost, (cost <=? 0) = true -> calculateMargin price cost = 0)
  /\ (forall price cost, (cost <=? 0) = false ->
        calculateMargin price cost = price / cost * 100 - 100)
  /\ (forall m t, (m <? 0) = true -> getMarginStatus m t = negative)
  /\ (forall m t, (0 <=? m) = true -> (m <? t) = true ->
        getMarginStatus m t = medium)
  /\ (forall m t, (0 <=? m) = true -> (t <=? m) = true ->
        getMarginStatus m t = good)
  /\ (forall m t, (0 <=? t) = true -> (t <=? m) = true ->
        getMarginStatus m t = good)
  /\ getMarginStatus 0 5 = medium
  /\ getMarginStatus lit_4_999 5 = medium
  /\ getMarginStatus 5 5 = good
  /\ (lit_m0_01 <? 0) = true.
Proof.
  assert (Hgood : forall m t, (0 <=? m) = true -> (t <=? m) = true ->
                              getMarginStatus m t = good).
  { intros m t H0 Ht. unfold getMarginStatus.
    by rewrite (leb_not_ltb 0 m H0), (leb_not_ltb t m Ht). }
  repeat split; try reflexivity.
  - intros price cost H. unfold calculateMargin. by rewrite H.
  - intros price cost H. unfold calculateMargin. by rewrite H.
  - intros m t H. unfold getMarginStatus. by rewrite H.
  - intros m t H0 Ht. unfold getMarginStatus.
    by rewrite (leb_not_ltb 0 m H0), Ht.
  - exact Hgood.
  - intros m t H0 Ht. apply Hgood; [|done]. by apply (leb_zero_trans t m).
Qed.

Lemma margin_status_laws_witness :
  calculateMargin 15 0 = 0
  /\ calculateMargin 15 10 = 50
  /\ getMarginStatus lit_m0_01 5 = negative
  /\ getMarginStatus 3 5 = medium
  /\ getMarginStatus 7 5 = good.
Proof.
  destruct margin_status_laws as (H1 & H2 & H3 & H4 & H5 & _).
  split; [exact (H1 15 0 eq_refl)|].
  split; [exact (H2 15 10 eq_refl)|].
  split; [exact (H3 lit_m0_01 5 eq_refl)|].
  split; [exact (H4 3 5 eq_refl eq_refl)|].
  exact (H5 7 5 eq_refl eq_refl).
Defined.

End MarginEngine.

(** ** Column mapping *)

Section ColumnMapper.
Import Lib Hooks.

(** C6, as stated, fails: with identifier and cost assigned and stock left
    unset the check returns false. *)
Lemma allFieldsSelected_counterexample :
  allFieldsSelected (mappingOf (Some 0) (Some 1) None) = false
  /\ ~ (forall fields, allFieldsSelected fields = true
          <-> value (f_sku fields) <> None /\ value (f_cost fields) <> None).
Proof.
  split; [reflexivity|].
  intros Hall.
  destruct (Hall (mappingOf (Some 0) (Some 1) None)) as [_ Hback].
  discriminate Hback. split; discriminate.
Qed.

(** C6 (amended). [allFieldsSelected] is true if and only if the identifier
    column, the cost column and the stock column are all set, where the stock
    column counts as set when it is a column index or the sentinel ["none"];
    with identifier and cost assigned and stock unset it is false. *)
Theorem allFieldsSelected_iff (fields : CSVFieldMapping) :
  (allFieldsSelected fields = true
   <-> value (f_sku fields) <> None
       /\ value (f_cost fields) <> None
       /\ value (f_soh fields) <> None)
  /\ (forall i c, allFieldsSelected (mappingOf (Some i) (Some c) None) = false)
  /\ (forall i c, allFieldsSelected (mappingOf (Some i) (Some c) (Some SohNone)) = true)
  /\ (forall i c k,
        allFieldsSelected (mappingOf (Some i) (Some c) (Some (SohColumn k))) = true).
Proof.
  split; [|repeat split; reflexivity].
  unfold allFieldsSelected.
  rewrite !andb_true_iff, !bool_decide_eq_true. tauto.
Qed.

End ColumnMapper.

(** ** Price edits *)

Section PriceEdit.
Import Lib Hooks.
Local Open Scope float_scope.

Lemma updateProductPrice_lookup (t : float) (vid : string) (newPrice : float)
    (items : list NormalizedProduct) (k : nat) :
  updateProductPrice t vid newPrice items !! k
  = (fun p =>
       if negb (String.eqb (variantId p) vid) then p
       else withPricing p newPrice (newPrice / costNew p * 100 - 100)
              (getMarginStatus (newPrice / costNew p * 100 - 100) t))
    <$> items !! k.
Proof.
  unfold updateProductPrice. rewrite list_lookup_fmap.
  destruct (items !! k); reflexivity.
Qed.

(** C3. What [updateProductPrice] does: an item with another variant id is
    returned as it is; the edited item keeps every other field, takes the new
    price, the margin [(newPrice / costNew) * 100 - 100] and the status
    [getMarginStatus] gives that margin under the current threshold. The
    division is not guarded: on an item whose new cost is 0 the margin is
    [infinity] and the status [good], where [calculateMargin] gives 0 and the
    status [medium]. *)
Theorem updateProductPrice_unguarded :
  (forall t vid newPrice items k p,
      items !! k = Some p -> variantId p <> vid ->
      updateProductPrice t vid newPrice items !! k = Some p)
  /\ (forall t vid newPrice items k p,
        items !! k = Some p -> variantId p = vid ->
        exists q,
          updateProductPrice t vid newPrice items !! k = Some q
          /\ price q = newPrice
          /\ margin q = newPrice / costNew p * 100 - 100
          /\ marginStatus q = getMarginStatus (margin q) t
          /\ (id q, variantId q, inventoryItemId q, sku q, name q, image q)
             = (id p, variantId p, inventoryItemId p, sku p, name p, image p)
          /\ (cost q, quantity q, costNew q, quantityNew q, update q)
             = (cost p, quantity p, costNew p, quantityNew p, update p))
  /\ (forall t vid newPrice items,
        length (updateProductPrice t vid newPrice items) = length items)
  /\ (margin <$> updateProductPrice 5 "v1" 10 [sampleItem "v1" 0] !! 0%nat)
     = Some infinity
  /\ (marginStatus <$> updateProductPrice 5 "v1" 10 [sampleItem "v1" 0] !! 0%nat)
     = Some good
  /\ calculateMargin 10 0 = 0
  /\ getMarginStatus (calculateMargin 10 0) 5 = medium.
Proof.
  split; [|split; [|split]].
  - intros t vid newPrice items k p Hk Hne.
    rewrite updateProductPrice_lookup, Hk. simpl.
    destruct (String.eqb_spec (variantId p) vid); [contradiction | reflexivity].
  - intros t vid newPrice items k p Hk Heq.
    rewrite updateProductPrice_lookup, Hk. simpl.
    destruct (String.eqb_spec (variantId p) vid); [|contradiction]. simpl.
    eexists. split; [reflexivity|]. simpl. repeat split.
  - intros. unfold updateProductPrice. by rewrite length_map.
  - repeat split; reflexivity.
Qed.

Lemma updateProductPrice_unguarded_witness :
  updateProductPrice 5 "v1" 10 [sampleItem "v1" 0; sampleItem "v2" 10] !! 1%nat
  = Some (sampleItem "v2" 10).
Proof.
  destruct updateProductPrice_unguarded as [Hother _].
  apply (Hother 5 "v1" 10 [sampleItem "v1" 0; sampleItem "v2" 10] 1%nat).
  - reflexivity.
  - discriminate.
Defined.

End PriceEdit.

(** ** Tabular parser *)

Section TabularParser.
Import Js Lib.

Lemma string_ind2 (P : string -> Prop) :
  P EmptyString ->
  (forall c, P (String c EmptyString)) ->
  (forall c1 c2 s, P s -> P (String c2 s) -> P (String c1 (String c2 s))) ->
  forall s, P s.
Proof.
  intros H0 H1 H2 s.
  assert (Hboth : P s /\ forall c, P (String c s)).
  { induction s as [|a s [IHs IHc]].
    - split; [exact H0 | exact H1].
    - split; [apply IHc|]. intros c. apply H2; [exact IHs | apply IHc]. }
  apply Hboth.
Qed.

Lemma trimEnd_snoc_ws (s : string) (w : ascii) :
  isWhiteSpace w = true -> trimEnd (snoc s w) = trimEnd s.
Proof.
  intros Hw. induction s as [|c s IH]; simpl.
  - by rewrite Hw.
  - unfold snoc in IH. by rewrite IH.
Qed.

Lemma trim_snoc_ws (s : string) (w : ascii) :
  isWhiteSpace w = true -> trim (snoc s w) = trim s.
Proof.
  intros Hw. unfold trim. induction s as [|c s IH]; simpl.
  - by rewrite Hw.
  - destruct (isWhiteSpace c); [exact IH|].
    apply (trimEnd_snoc_ws (String c s) w Hw).
Qed.

Lemma CR_isWhiteSpace : isWhiteSpace CR = true.
Proof. reflexivity. Qed.

Lemma scanLine_cons (char : ascii) (rest : string) row current inQuotes :
  scanLine (String char rest) row current inQuotes
  = if Ascii.eqb char dquote then
      match rest with
      | String next rest' =>
          if inQuotes && Ascii.eqb next dquote
          then scanLine rest' row (snoc current dquote) inQuotes
          else scanLine rest row current (negb inQuotes)
      | EmptyString => scanLine rest row current (negb inQuotes)
      end
    else if Ascii.eqb char comma && negb inQuotes
    then scanLine rest (row ++ [trim current]) EmptyString inQuotes
    else scanLine rest row (snoc current char) inQuotes.
Proof. reflexivity. Qed.

Lemma splitLines_cons (c : ascii) (rest current : string) :
  splitLines (String c rest) current
  = if Ascii.eqb c LF then current :: splitLines rest EmptyString
    else if Ascii.eqb c CR then
      match rest with
      | String c2 rest2 =>
          if Ascii.eqb c2 LF then current :: splitLines rest2 EmptyString
          else splitLines rest (snoc current c)
      | EmptyString => splitLines rest (snoc current c)
      end
    else splitLines rest (snoc current c).
Proof. reflexivity. Qed.

Lemma scanLine_trailing_CR (line : string) : forall row current inQuotes,
  scanLine (snoc line CR) row current inQuotes = scanLine line row current inQuotes.
Proof.
  induction line as [|c|c1 c2 s IHs IHc] using string_ind2; intros row current inQuotes.
  - simpl. by rewrite (trim_snoc_ws current CR CR_isWhiteSpace).
  - change (snoc (String c EmptyString) CR) with (String c (String CR EmptyString)).
    assert (Hbase : forall r cur q,
      scanLine (String CR EmptyString) r cur q = scanLine EmptyString r cur q).
    { intros r cur q. simpl. by rewrite (trim_snoc_ws cur CR CR_isWhiteSpace). }
    rewrite !(scanLine_cons _ (String _ _)), ?(scanLine_cons _ EmptyString).
    destruct (Ascii.eqb c dquote).
    + replace (inQuotes && Ascii.eqb CR dquote) with false
        by (destruct inQuotes; reflexivity).
      apply Hbase.
    + destruct (Ascii.eqb c comma && negb inQuotes); apply Hbase.
  - change (snoc (String c1 (String c2 s)) CR)
      with (String c1 (String c2 (snoc s CR))).
    rewrite !(scanLine_cons _ (String _ _)), ?(scanLine_cons _ EmptyString).
    destruct (Ascii.eqb c1 dquote).
    + destruct (inQuotes && Ascii.eqb c2 dquote); [apply IHs|].
      apply (IHc row current (negb inQuotes)).
    + destruct (Ascii.eqb c1 comma && negb inQuotes); apply IHc.
Qed.

Lemma parseLines_cons (line : string) (lines : list string) rows :
  parseLines (line :: lines) rows = parseLines lines (parseStep line rows).
Proof. unfold parseStep. simpl. by destruct (String.eqb (trim line) EmptyString). Qed.

Lemma parseStep_trailing_CR (line : string) rows :
  parseStep (snoc line CR) rows = parseStep line rows.
Proof.
  unfold parseStep.
  by rewrite (trim_snoc_ws line CR CR_isWhiteSpace), scanLine_trailing_CR.
Qed.

Lemma parseLines_acc (lines : list string) : forall rows,
  parseLines lines rows = rows ++ parseLines lines [].
Proof.
  induction lines as [|line lines IH]; intros rows.
  - simpl. by rewrite app_nil_r.
  - rewrite !parseLines_cons, (IH (parseStep line rows)), (IH (parseStep line [])).
    unfold parseStep. destruct (String.eqb (trim line) EmptyString).
    + reflexivity.
    + by rewrite app_assoc.
Qed.


(** A separator after [a]: the rows of [a], then the rows of what follows. *)
Lemma splitLines_separator (sep b : string) :
  sep = String LF EmptyString \/ sep = String CR (String LF EmptyString) ->
  forall a current rows,
    parseLines (splitLines (a ++ sep ++ b) current) rows
    = parseLines (splitLines b EmptyString) (parseLines (splitLines a current) rows).
Proof.
  intros Hsep a.
  assert (Hnil : forall cur rws,
    parseLines (splitLines (sep ++ b) cur) rws
    = parseLines (splitLines b EmptyString) (parseStep cur rws)).
  { intros cur rws. rewrite <- parseLines_cons. by destruct Hsep as [-> | ->]. }
  assert (Hone : forall cur rws, parseLines (splitLines EmptyString cur) rws = parseStep cur rws).
  { intros cur rws. simpl splitLines. by rewrite parseLines_cons. }
  induction a as [|c|c1 c2 s IHs IHc] using string_ind2; intros current rows.
  - rewrite Hone. apply Hnil.
  - change ((String c EmptyString ++ sep ++ b)%string) with (String c (sep ++ b)%string).
    rewrite (splitLines_cons c EmptyString), (splitLines_cons c (sep ++ b)).
    destruct (Ascii.eqb c LF) eqn:HLF; [|destruct (Ascii.eqb c CR) eqn:HCR].
    + rewrite !parseLines_cons, Hone. apply Hnil.
    + apply Ascii.eqb_eq in HCR. subst c. rewrite Hone.
      destruct Hsep as [-> | ->].
      * change ((String LF EmptyString ++ b)%string) with (String LF b).
        cbv beta iota. rewrite Ascii.eqb_refl, parseLines_cons.
        by rewrite parseStep_trailing_CR.
      * change ((String CR (String LF EmptyString) ++ b)%string)
          with (String CR (String LF b)).
        cbv beta iota. rewrite HLF, splitLines_cons, HLF, !Ascii.eqb_refl.
        by rewrite parseLines_cons.
    + rewrite Hone. apply Hnil.
  - change ((String c1 (String c2 s) ++ sep ++ b)%string)
      with (String c1 (String c2 s ++ sep ++ b)%string).
    rewrite (splitLines_cons c1 (String c2 s)),
            (splitLines_cons c1 (String c2 s ++ sep ++ b)).
    destruct (Ascii.eqb c1 LF) eqn:HLF; [|destruct (Ascii.eqb c1 CR) eqn:HCR].
    + rewrite !parseLines_cons. apply IHc.
    + change ((String c2 s ++ sep ++ b)%string)
        with (String c2 (s ++ sep ++ b)%string).
      cbv beta iota.
      destruct (Ascii.eqb c2 LF) eqn:HLF2.
      * rewrite !parseLines_cons. apply IHs.
      * apply (IHc (snoc current c1) rows).
    + apply IHc.
Qed.

Lemma trimStart_fixed (s : string) :
  trimStart (trimStart s) = trimStart s.
Proof.
  induction s as [|c s IH]; [reflexivity|]. simpl.
  destruct (isWhiteSpace c) eqn:Hc; [exact IH|]. simpl. by rewrite Hc.
Qed.

Lemma trimEnd_fixed (s : string) : trimEnd (trimEnd s) = trimEnd s.
Proof.
  induction s as [|c s IH]; [reflexivity|]. simpl.
  destruct (trimEnd s) as [|d r] eqn:Hr.
  - destruct (isWhiteSpace c) eqn:Hc; [reflexivity|]. simpl. by rewrite Hc.
  - simpl. simpl in IH.
    destruct (trimEnd r) as [|d' r'] eqn:Hr'.
    + destruct (isWhiteSpace d) eqn:Hd; [discriminate IH|]. by rewrite IH.
    + by rewrite IH.
Qed.

(** [trimEnd] of a string that starts with a visible character still starts
    with it, so trimming the start again changes nothing. *)
Lemma trimStart_trimEnd (s : string) :
  trimStart (trimEnd (trimStart s)) = trimEnd (trimStart s).
Proof.
  induction s as [|c s IH]; [reflexivity|]. simpl.
  destruct (isWhiteSpace c) eqn:Hc; [exact IH|]. simpl.
  destruct (trimEnd s); rewrite ?Hc; simpl; by rewrite Hc.
Qed.

Lemma trim_idempotent (s : string) : trim (trim s) = trim s.
Proof. unfold trim. by rewrite trimStart_trimEnd, trimEnd_fixed. Qed.




End TabularParser.

(** ** Record extraction *)

Section RecordExtractor.
Import Js Lib Hooks.
Context `{Runtime}.

Lemma extractRows_omap skuCol costCol soh (rows : list (list string)) :
  forall products,
    extractRows skuCol costCol soh rows products
    = products ++ omap (extractRow skuCol costCol soh) rows.
Proof.
  induction rows as [|row rows IH]; intros products; simpl.
  - by rewrite app_nil_r.
  - destruct (extractRow skuCol costCol soh row) as [product|].
    + rewrite IH. by rewrite <- app_assoc.
    + apply IH.
Qed.

Lemma orDefault_cell (cell : option string) (d : string) :
  orDefault cell d = match cell with Some (String c rest) => String c rest | _ => d end.
Proof. by destruct cell as [[|c rest]|]. Qed.

Lemma orDefault_cellOrZero (cell : option string) :
  orDefault cell "0" = cellOrZero cell.
Proof. apply orDefault_cell. Qed.

Lemma extractRow_soh skuCol costCol soh row product :
  extractRow skuCol costCol soh row = Some product ->
  csv_soh product = stockOnHand soh row.
Proof.
  unfold extractRow. destruct (length row =? 0)%nat; [discriminate|].
  destruct (trim <$> row !! skuCol) as [s|]; [|discriminate].
  destruct (negb (truthy s)); [discriminate|].
  intros [= <-]. simpl. unfold stockOnHand.
  destruct soh as [[sohCol|]|]; [|reflexivity..].
  by rewrite orDefault_cellOrZero.
Qed.

Lemma isNaN_zero : isNaN 0 = false.
Proof. reflexivity. Qed.

Lemma cleanCostValue_not_NaN (value : string) :
  isNaN (cleanCostValue value) = false.
Proof.
  unfold cleanCostValue.
  destruct (isNaN (parseFloat (keepChars isCostChar value))) eqn:Hnan;
    [apply isNaN_zero | exact Hnan].
Qed.

Lemma keepChars_spec (keep : ascii -> bool) (s : string) :
  list_ascii_of_string (keepChars keep s)
  = List.filter keep (list_ascii_of_string s).
Proof.
  induction s as [|c s IH]; [reflexivity|]. simpl.
  destruct (keep c); simpl; by rewrite IH.
Qed.

Lemma isCostChar_spec (c : ascii) :
  isCostChar c = true
  <-> (48 <= nat_of_ascii c <= 57)%nat \/ c = "."%char \/ c = "-"%char.
Proof.
  unfold isCostChar. rewrite !orb_true_iff, andb_true_iff.
  rewrite !Nat.leb_le, !Nat.eqb_eq.
  split.
  - intros [[Hd | Hdot] | Hminus]; [by left | right; left | right; right].
    + rewrite <- (ascii_nat_embedding c), Hdot. reflexivity.
    + rewrite <- (ascii_nat_embedding c), Hminus. reflexivity.
  - intros [Hd | [-> | ->]]; [by left; left | left; right | right]; reflexivity.
Qed.

(** C7. [extractProductsFromCSV] returns the empty list when the data has
    fewer than two rows or the identifier or the cost column is unset;
    otherwise it goes through the rows from index 1 in order and produces one
    record for each row it does not skip. A row whose identifier cell is
    missing or trims to the empty string is skipped; a kept row gives the
    trimmed identifier, the cost [cleanCostValue] of the text of the cost
    cell, and the stock value, which is present exactly when the stock column
    is a real index and is then the integer parsed from the text of the stock
    cell, with [NaN] replaced by 0. The text of a cell is the cell as it
    stands in the row, and ["0"] when the row is too short to have the cell
    or the cell is empty. [cleanCostValue] keeps exactly the digits, ['.']
    and ['-'] of its argument, parses what is left and replaces [NaN] by
    0. *)
Theorem extractProductsFromCSV_contract :
  (forall csvData fields,
     (length csvData < 2)%nat -> extractProductsFromCSV csvData fields = [])
  /\ (forall csvData fields,
        value (f_sku fields) = None \/ value (f_cost fields) = None ->
        extractProductsFromCSV csvData fields = [])
  /\ (forall csvData fields skuCol costCol,
        (2 <= length csvData)%nat ->
        value (f_sku fields) = Some skuCol -> value (f_cost fields) = Some costCol ->
        extractProductsFromCSV csvData fields
        = omap (extractRow skuCol costCol (value (f_soh fields))) (drop 1 csvData))
  /\ (forall skuCol costCol soh row,
        row !! skuCol = None -> extractRow skuCol costCol soh row = None)
  /\ (forall skuCol costCol soh row cell,
        row !! skuCol = Some cell -> trim cell = EmptyString ->
        extractRow skuCol costCol soh row = None)
  /\ (forall skuCol costCol soh row cell,
        row !! skuCol = Some cell -> trim cell <> EmptyString ->
        extractRow skuCol costCol soh row
        = Some {| csv_sku := trim cell;
                  csv_cost := cleanCostValue (cellOrZero (row !! costCol));
                  csv_soh := stockOnHand soh row |})
  /\ (forall (row : list string) (costCol : nat),
        row !! costCol = None -> orDefault (row !! costCol) "0" = "0")
  /\ (forall (row : list string) (i : nat) (cell : string),
        row !! i = Some cell -> cell <> EmptyString ->
        cellOrZero (row !! i) = cell /\ orDefault (row !! i) "0" = cell)
  /\ (forall (row : list string) (i : nat),
        row !! i = None \/ row !! i = Some EmptyString ->
        cellOrZero (row !! i) = "0" /\ orDefault (row !! i) "0" = "0")
  /\ (forall skuCol costCol sohCol row cell,
        row !! skuCol = Some cell -> trim cell <> EmptyString ->
        csv_soh <$> extractRow skuCol costCol (Some (SohColumn sohCol)) row
        = Some (Some (let n := parseInt10 (cellOrZero (row !! sohCol)) in
                      if isNaN n then 0%float else n)))
  /\ (forall value,
        cleanCostValue value
        = (let parsed := parseFloat (keepChars isCostChar value) in
           if isNaN parsed then 0%float else parsed)
        /\ isNaN (cleanCostValue value) = false
        /\ list_ascii_of_string (keepChars isCostChar value)
           = List.filter isCostChar (list_ascii_of_string value))
  /\ (forall c, isCostChar c = true
        <-> (48 <= nat_of_ascii c <= 57)%nat \/ c = "."%char \/ c = "-"%char)
  /\ (forall csvData fields,
        value (f_soh fields) = None \/ value (f_soh fields) = Some SohNone ->
        Forall (fun p => csv_soh p = None) (extractProductsFromCSV csvData fields))
  /\ (forall csvData fields sohCol,
        value (f_soh fields) = Some (SohColumn sohCol) ->
        Forall (fun p => exists n, csv_soh p = Some n /\ isNaN n = false)
               (extractProductsFromCSV csvData fields)).
Proof.
  assert (Hall : forall csvData fields (P : CSVProduct -> Prop),
    (forall skuCol costCol row p,
        extractRow skuCol costCol (value (f_soh fields)) row = Some p -> P p) ->
    Forall P (extractProductsFromCSV csvData fields)).
  { intros csvData fields P HP. unfold extractProductsFromCSV.
    destruct (length csvData <? 2)%nat; [constructor|].
    destruct (value (f_sku fields)) as [skuCol|]; [|constructor].
    destruct (value (f_cost fields)) as [costCol|]; [|constructor].
    rewrite extractRows_omap. simpl. apply Forall_forall. intros p Hp.
    apply list_elem_of_omap in Hp. destruct Hp as (row & _ & Hrow). eauto. }
  repeat apply conj.
  - intros csvData fields Hlen. unfold extractProductsFromCSV.
    by destruct (Nat.ltb_spec (length csvData) 2); [|lia].
  - intros csvData fields Hunset. unfold extractProductsFromCSV.
    destruct (length csvData <? 2)%nat; [reflexivity|].
    destruct Hunset as [-> | ->]; [reflexivity|].
    by destruct (value (f_sku fields)).
  - intros csvData fields skuCol costCol Hlen Hsku Hcost.
    unfold extractProductsFromCSV. rewrite Hsku, Hcost.
    destruct (Nat.ltb_spec (length csvData) 2); [lia|].
    by rewrite extractRows_omap.
  - intros skuCol costCol soh row Hnone. unfold extractRow. rewrite Hnone.
    by destruct (length row =? 0)%nat.
  - intros skuCol costCol soh row cell Hcell Hblank. unfold extractRow.
    rewrite Hcell. simpl. rewrite Hblank. by destruct (length row =? 0)%nat.
  - intros skuCol costCol soh row cell Hcell Hvisible. unfold extractRow.
    rewrite Hcell. simpl.
    destruct row as [|first row]; [by rewrite lookup_nil in Hcell|]. simpl.
    destruct (trim cell) as [|c rest]; [contradiction|]. simpl.
    rewrite orDefault_cellOrZero. unfold stockOnHand.
    destruct soh as [[sohCol|]|]; [|reflexivity..].
    by rewrite orDefault_cellOrZero.
  - intros row costCol ->. reflexivity.
  - intros row i cell -> Hcell. by destruct cell.
  - intros row i [-> | ->]; by split.
  - intros skuCol costCol sohCol row cell Hcell Hvisible. unfold extractRow.
    rewrite Hcell. simpl.
    destruct row as [|first row]; [by rewrite lookup_nil in Hcell|]. simpl.
    destruct (trim cell) as [|c rest]; [contradiction|]. simpl.
    by rewrite orDefault_cellOrZero.
  - intros value0. split; [reflexivity|]. split.
    + apply cleanCostValue_not_NaN.
    + apply keepChars_spec.
  - apply isCostChar_spec.
  - intros csvData fields Hsoh. apply Hall.
    intros skuCol costCol row p Hp. rewrite (extractRow_soh _ _ _ _ _ Hp).
    by destruct Hsoh as [-> | ->].
  - intros csvData fields sohCol Hsoh. apply Hall.
    intros skuCol costCol row p Hp. rewrite (extractRow_soh _ _ _ _ _ Hp), Hsoh.
    simpl. eexists. split; [reflexivity|].
    destruct (isNaN (parseInt10 (cellOrZero (row !! sohCol)))) eqn:Hnan;
      [apply isNaN_zero | exact Hnan].
Qed.

End RecordExtractor.

Lemma extractProductsFromCSV_contract_witness :
  let rows := [["sku"; "cost"; "soh"]; ["A1"; "$10.50"; "7"]; [" "; "1"; "1"];
               ["A2"]; ["A3"; ""; "x"]] in
  let fields := mappingOf (Some 0%nat) (Some 1%nat) (Some (Lib.SohColumn 2)) in
  let unmapped := mappingOf (Some 0%nat) (Some 1%nat) (Some Lib.SohNone) in
  @Lib.extractProductsFromCSV Js.refRuntime rows fields
  = [ {| Lib.csv_sku := "A1"; Lib.csv_cost := 10.5; Lib.csv_soh := Some 7%float |};
      {| Lib.csv_sku := "A2"; Lib.csv_cost := 0; Lib.csv_soh := Some 0%float |};
      {| Lib.csv_sku := "A3"; Lib.csv_cost := 0; Lib.csv_soh := Some 0%float |} ]
  /\ @Lib.extractRow Js.refRuntime 0 1 (Some (Lib.SohColumn 2)) ["A1"; "$10.50"; "7"]
     = Some {| Lib.csv_sku := "A1"; Lib.csv_cost := 10.5; Lib.csv_soh := Some 7%float |}
  /\ Forall (fun p => Lib.csv_soh p = None)
            (@Lib.extractProductsFromCSV Js.refRuntime rows unmapped)
  /\ @Lib.extractProductsFromCSV Js.refRuntime [["sku"; "cost"; "soh"]] fields = [].
Proof.
  intros rows fields unmapped.
  destruct (@extractProductsFromCSV_contract Js.refRuntime)
    as (Hshort & _ & Hrows & _ & _ & Hkept & _ & _ & _ & _ & _ & _ & Hnone & _).
  split; [|split; [|split]].
  - rewrite (Hrows rows fields 0%nat 1%nat); [|simpl; lia | reflexivity | reflexivity].
    vm_compute. reflexivity.
  - rewrite (Hkept 0%nat 1%nat (Some (Lib.SohColumn 2)) ["A1"; "$10.50"; "7"] "A1");
      [|reflexivity | discriminate].
    vm_compute. reflexivity.
  - apply (Hnone rows unmapped). right. reflexivity.
  - apply (Hshort [["sku"; "cost"; "soh"]] fields). simpl. lia.
Defined.

(** ** Computations against the Admin API *)

Section Computations.
Import Api.
Context {S : Type}.

Lemma bind_resolved {A B} (m : M S A) (k : A -> M S B) st b st2 :
  bind m k st = (Resolved b, st2) ->
  exists a st1, m st = (Resolved a, st1) /\ k a st1 = (Resolved b, st2).
Proof.
  unfold bind. destruct (m st) as [[a | e |] st1]; try discriminate. eauto.
Qed.

Lemma preserves_ret {A} (I : S -> Prop) (a : A) : preserves I (ret a).
Proof. intros log s Hs. exact Hs. Qed.

Lemma preserves_bind {A B} (I : S -> Prop) (m : M S A) (k : A -> M S B) :
  preserves I m -> (forall a, preserves I (k a)) -> preserves I (bind m k).
Proof.
  intros Hm Hk log s Hs. unfold bind. specialize (Hm log s Hs).
  destruct (m (log, s)) as [[a | e |] [log1 s1]]; simpl in *; try exact Hm.
  by apply Hk.
Qed.

Lemma preserves_perform {A} (I : S -> Prop) (c : Call) (answer : list Call -> Reply A) :
  preserves I (perform c answer).
Proof.
  intros log s Hs. unfold perform. simpl. by destruct (answer log).
Qed.

Lemma preserves_modify (I : S -> Prop) (f : S -> S) :
  (forall s, I s -> I (f s)) -> preserves I (modify f).
Proof. intros Hf log s Hs. simpl. by apply Hf. Qed.

Lemma preserves_liftOption {A} (I : S -> Prop) (o : option A) : preserves I (liftOption o).
Proof. intros log s Hs. unfold liftOption. by destruct o. Qed.

Lemma preserves_get (I : S -> Prop) : preserves I get.
Proof. intros log s Hs. exact Hs. Qed.

Lemma preserves_tryCatch {A} (I : S -> Prop) (m : M S A) (handler : Thrown -> M S A) :
  preserves I m -> (forall e, preserves I (handler e)) ->
  preserves I (tryCatch m handler).
Proof.
  intros Hm Hh log s Hs. unfold tryCatch. specialize (Hm log s Hs).
  destruct (m (log, s)) as [[a | e |] [log1 s1]]; simpl in *; try exact Hm.
  by apply Hh.
Qed.

Lemma preserves_forEach {T} (I : S -> Prop) (items : list T) (body : T -> M S unit) :
  (forall x, x ∈ items -> preserves I (body x)) -> preserves I (forEach items body).
Proof.
  induction items as [|x items IH]; intros Hbody; simpl.
  - apply preserves_ret.
  - apply preserves_bind.
    + apply Hbody. by left.
    + intros _. apply IH. intros y Hy. apply Hbody. by right.
Qed.

Lemma start_eq {A} (m : M S A) (locals : S) (log : list Call) o st :
  m (log, locals) = (o, st) -> Route.start m locals log = (o, fst st).
Proof. unfold Route.start. by intros ->. Qed.

Lemma resolves_bind {A B} (m : M S A) (k : A -> M S B) :
  resolves m -> (forall a, resolves (k a)) -> resolves (bind m k).
Proof.
  intros Hm Hk st. unfold bind. destruct (Hm st) as [a Ha].
  destruct (m st) as [[a' | e |] st1]; simpl in Ha; try discriminate.
  apply Hk.
Qed.

Lemma resolves_forEach {T} (items : list T) (body : T -> M S unit) :
  (forall x, resolves (body x)) -> resolves (forEach items body).
Proof.
  intros Hbody. induction items as [|x items IH]; simpl.
  - intros st. by exists tt.
  - apply resolves_bind; [apply Hbody | intros _; exact IH].
Qed.

End Computations.

(** ** Catalog matching *)

Section CatalogMatcher.
Import Js Lib Api Route.
Context `{Runtime}.

Lemma find_some {T} (p : T -> bool) (xs : list T) (x : T) :
  find p xs = Some x -> x ∈ xs /\ p x = true.
Proof.
  induction xs as [|y xs IH]; [discriminate|]. simpl.
  destruct (p y) eqn:Hy.
  - intros [= ->]. split; [by left | exact Hy].
  - intros Hx. destruct (IH Hx). split; [by right | done].
Qed.

Lemma normalize_sku shopifyProduct csvProduct threshold locationId item :
  normalizeShopifyProduct shopifyProduct csvProduct threshold locationId = Some item ->
  toLowerCase (sku item) = toLowerCase (csv_sku csvProduct).
Proof.
  unfold normalizeShopifyProduct.
  destruct (find _ (sp_variants shopifyProduct)) as [variant|] eqn:Hfind;
    [|discriminate].
  apply find_some in Hfind. destruct Hfind as [_ Hmatch].
  unfold skuMatches in Hmatch.
  destruct (v_sku variant) as [variantSku|]; [|discriminate].
  intros [= <-]. simpl. by apply String.eqb_eq.
Qed.

Lemma matchVariant_inv csvProducts threshold locationId shopifyProduct variant st :
  lookupInv csvProducts st ->
  lookupInv csvProducts
    (matchVariant csvProducts threshold locationId shopifyProduct variant st).
Proof.
  intros [Hitems Hset]. unfold matchVariant.
  destruct (find _ csvProducts) as [csvProduct|] eqn:Hfind; [|by split].
  apply find_some in Hfind. destruct Hfind as [Hin _].
  destruct (normalizeShopifyProduct _ _ _ _) as [normalized|] eqn:Hnorm; [|by split].
  apply normalize_sku in Hnorm.
  split; simpl.
  - intros item Hitem. apply elem_of_app in Hitem. destruct Hitem as [Hitem | Hitem].
    + by apply Hitems.
    + apply list_elem_of_singleton in Hitem. subst item. eauto.
  - intros k. rewrite elem_of_union, elem_of_singleton, Hset. split.
    + intros [-> | (item & Hitem & Hk)].
      * exists normalized. split; [|done]. apply elem_of_app. right. by left.
      * exists item. split; [|done]. apply elem_of_app. by left.
    + intros (item & Hitem & Hk). apply elem_of_app in Hitem.
      destruct Hitem as [Hitem | Hitem]; [right; eauto|].
      apply list_elem_of_singleton in Hitem. subst item. left. congruence.
Qed.

Lemma fold_left_inv {A B} (I : A -> Prop) (f : A -> B -> A) (xs : list B) :
  (forall a x, I a -> I (f a x)) -> forall a, I a -> I (fold_left f xs a).
Proof.
  intros Hf. induction xs as [|x xs IH]; intros a Ha; simpl; [done|].
  apply IH. by apply Hf.
Qed.

Lemma lookupBatch_inv admin csvProducts threshold locationId skuBatch :
  preserves (lookupInv csvProducts)
    (lookupBatch admin csvProducts threshold locationId skuBatch).
Proof.
  unfold lookupBatch. destruct (negb (truthy (Graphql.buildSkuQuery skuBatch))).
  - apply preserves_ret.
  - apply preserves_bind; [apply preserves_perform|].
    intros data. apply preserves_modify. intros st.
    apply fold_left_inv. intros st' shopifyProduct. unfold matchProduct.
    apply fold_left_inv. intros st'' variant. apply matchVariant_inv.
Qed.

Lemma lookupInv_initial csvProducts : lookupInv csvProducts ([], ∅).
Proof.
  split; simpl.
  - intros item Hitem. by apply elem_of_nil in Hitem.
  - intros k. split.
    + intros Hk. by apply elem_of_empty in Hk.
    + intros (item & Hitem & _). by apply elem_of_nil in Hitem.
Qed.

(** C2. Whenever the lookup returns, the matched products and the not-found
    list partition the input SKUs up to case: every input SKU is, up to case,
    the SKU of a matched product or is in [notFound]; [notFound] is made of
    input SKU strings as they were given, in input order, namely those that no
    matched product carries up to case; no entry of [notFound] is, up to case,
    the SKU of a matched product; and every matched product carries, up to
    case, an input SKU. The lookup returns whenever the gateway answers every
    query, and it never fails to terminate. *)
Theorem lookup_partition (admin : Admin) (csvProducts : list CSVProduct)
    (threshold : float) (locationId : option string) (log : list Call) :
  let run := start (lookupProducts admin csvProducts threshold locationId)
                   ([], ∅) log in
  (forall data log',
     run = (Resolved data, log') ->
     (forall p, p ∈ csvProducts ->
        (exists item, item ∈ l_products data
                      /\ toLowerCase (sku item) = toLowerCase (csv_sku p))
        \/ csv_sku p ∈ l_notFound data)
     /\ l_notFound data
        = map csv_sku
            (List.filter
               (fun p => negb (existsb (fun item =>
                                  String.eqb (toLowerCase (sku item))
                                             (toLowerCase (csv_sku p)))
                               (l_products data)))
               csvProducts)
     /\ (forall s item, s ∈ l_notFound data -> item ∈ l_products data ->
           toLowerCase (sku item) <> toLowerCase s)
     /\ (forall item, item ∈ l_products data ->
           exists p, p ∈ csvProducts
                     /\ toLowerCase (sku item) = toLowerCase (csv_sku p)))
  /\ fst run <> Diverged
  /\ ((forall log0 query loc, exists body,
         getProductsBySku admin log0 query loc = Json body) ->
      exists data, fst run = Resolved data).
Proof.
  intros run. subst run. unfold start. cbv zeta.
  destruct (length csvProducts =? 0)%nat eqn:Hlen.
  { apply Nat.eqb_eq in Hlen. apply length_zero_iff_nil in Hlen. subst csvProducts.
    simpl. split; [|split; [discriminate | eauto]].
    intros data log' [= <- _]. simpl. repeat split.
    - intros p Hp. by apply elem_of_nil in Hp.
    - intros s item Hs. by apply elem_of_nil in Hs.
    - intros item Hitem. by apply elem_of_nil in Hitem. }
  set (skuBatches := chunks_of (length (map csv_sku csvProducts)) 50
                               (map csv_sku csvProducts)).
  set (loop := forEach skuBatches (lookupBatch admin csvProducts threshold locationId)).
  assert (Hinv : lookupInv csvProducts (snd (snd (loop (log, ([], ∅)))))).
  { apply preserves_forEach; [|apply lookupInv_initial].
    intros skuBatch _. apply lookupBatch_inv. }
  match goal with |- context [(fst ?x, fst (snd ?x))] => set (r := x) end.
  assert (Hr : r = match loop (log, ([], ∅)) with
                   | (Resolved _, st) =>
                       (Resolved
                          {| l_error := None; l_products := fst (snd st);
                             l_notFound :=
                               map csv_sku
                                 (List.filter
                                    (fun p => negb (bool_decide
                                       (toLowerCase (csv_sku p) ∈ snd (snd st))))
                                    csvProducts) |}, st)
                   | (Threw e, st) => (Threw e, st)
                   | (Diverged, st) => (Diverged, st)
                   end).
  { subst r. unfold lookupProducts. rewrite Hlen.
    rewrite (chunkArray_eq (map csv_sku csvProducts) 50) by lia.
    fold skuBatches. unfold bind at 1. unfold liftOption. unfold bind at 1.
    unfold loop. by destruct (forEach skuBatches _ _) as [[[] | e |] st]. }
  clearbody r. subst r.
  destruct (loop (log, ([], ∅))) as [[[] | e |] [log1 [allProducts foundSkus]]] eqn:Hloop.
  2:{ simpl. split; [discriminate|]. split; [discriminate|].
      intros Hanswers. exfalso.
      assert (Hres : @resolves LookupState unit loop).
      { apply resolves_forEach. intros skuBatch st. unfold lookupBatch.
        destruct (negb (truthy (Graphql.buildSkuQuery skuBatch))); [by exists tt|].
        unfold bind, getProducts, perform. simpl.
        destruct (Hanswers (fst st) (Graphql.buildSkuQuery skuBatch)
                           (orDefault locationId "")) as [body ->].
        simpl. by exists tt. }
      destruct (Hres (log, ([], ∅))) as [a Ha]. rewrite Hloop in Ha. discriminate Ha. }
  2:{ exfalso.
      assert (Hterm : @terminates LookupState unit loop).
      { subst loop. generalize skuBatches. intros batches.
        induction batches as [|skuBatch batches IH]; intros st; simpl; [discriminate|].
        unfold bind at 1. unfold lookupBatch at 1.
        destruct (negb (truthy (Graphql.buildSkuQuery skuBatch))).
        - simpl. apply IH.
        - unfold bind at 1, getProducts, perform. simpl.
          destruct (getProductsBySku admin (fst st) _ _); simpl; [apply IH | discriminate]. }
      apply (Hterm (log, ([], ∅))). by rewrite Hloop. }
  simpl in Hinv. destruct Hinv as [Hitems Hset]. simpl.
  split; [|split; [discriminate | eauto]].
  intros data log' [= <- _]. simpl.
  assert (Hfound : forall p,
    bool_decide (toLowerCase (csv_sku p) ∈ foundSkus)
    = existsb (fun item => String.eqb (toLowerCase (sku item)) (toLowerCase (csv_sku p)))
              allProducts).
  { intros p. apply eq_true_iff_eq.
    rewrite bool_decide_eq_true, existsb_exists, Hset. split.
    - intros (item & Hitem & Hk). exists item.
      split; [by apply list_elem_of_In | by apply String.eqb_eq].
    - intros (item & Hitem & Hk). exists item.
      split; [by apply list_elem_of_In | by apply String.eqb_eq]. }
  assert (HnotFound :
    map csv_sku (List.filter
      (fun p => negb (bool_decide (toLowerCase (csv_sku p) ∈ foundSkus))) csvProducts)
    = map csv_sku (List.filter
      (fun p => negb (existsb (fun item =>
         String.eqb (toLowerCase (sku item)) (toLowerCase (csv_sku p))) allProducts))
      csvProducts)).
  { f_equal. apply filter_ext. intros p. by rewrite Hfound. }
  split; [|split; [exact HnotFound | split; [|exact Hitems]]].
  - intros p Hp.
    destruct (decide (toLowerCase (csv_sku p) ∈ foundSkus)) as [Hin | Hout].
    + left. by apply Hset.
    + right. apply list_elem_of_fmap. exists p. split; [done|].
      apply list_elem_of_In, filter_In. split; [by apply list_elem_of_In|].
      by rewrite bool_decide_eq_false_2.
  - intros s item Hs Hitem Heq.
    apply list_elem_of_fmap in Hs. destruct Hs as (p & -> & Hp).
    apply list_elem_of_In, filter_In in Hp. destruct Hp as [_ Hp].
    apply negb_true_iff, bool_decide_eq_false in Hp. apply Hp, Hset. eauto.
Qed.

End CatalogMatcher.

(** ** Stock-only commit *)

Section StockCommit.
Import Js Lib Api Route.

Lemma forEach_push {T} (items : list T) (pick : T -> option NormalizedProduct)
    (mk : NormalizedProduct -> UpdateResponse)
    (body : T -> M (list UpdateResponse) unit) :
  (forall x st, body x st
     = match pick x with
       | Some p => (Resolved tt, (fst st, snd st ++ [mk p]))
       | None => (Resolved tt, st)
       end) ->
  forall log rs,
    forEach items body (log, rs) = (Resolved tt, (log, rs ++ map mk (omap pick items))).
Proof.
  intros Hbody. induction items as [|x items IH]; intros log rs; simpl.
  - by rewrite app_nil_r.
  - unfold bind. rewrite Hbody. destruct (pick x) as [p|]; simpl.
    + rewrite IH. by rewrite <- app_assoc.
    + apply IH.
Qed.

Lemma adjustBatch_spec admin products batch log rs :
  adjustBatch admin products batch (log, rs)
  = (Resolved tt,
     (log ++ [adjustCall batch],
      rs ++ batchResults products (inventoryAdjustQuantities admin log batch) batch)).
Proof.
  unfold adjustBatch, tryCatch, bind at 1, adjustQuantities, perform, batchResults.
  simpl. fold (adjustCall batch). unfold stockOutcome.
  destruct (inventoryAdjustQuantities admin log batch) as [data | err]; simpl.
  - destruct (default [] data) as [|e userErrors] eqn:Herrors; simpl.
    + rewrite (forEach_push batch (productOfChange products)
                 (fun p => {| r_sku := sku p; r_updated := true;
                              r_message := "Stock updated"; r_error := None |})).
      * reflexivity.
      * intros change st. destruct st. by destruct (productOfChange products change).
    + rewrite (forEach_push batch (productOfChange products)
                 (fun p => {| r_sku := sku p; r_updated := false;
                              r_message := ue_message e;
                              r_error := Some (ue_message e) |})).
      * reflexivity.
      * intros change st. destruct st. by destruct (productOfChange products change).
  - rewrite (forEach_push batch (productOfChange products)
               (fun p => {| r_sku := sku p; r_updated := false;
                            r_message := "API error";
                            r_error := Some (errMessage err) |})).
    + reflexivity.
    + intros change st. destruct st. by destruct (productOfChange products change).
Qed.

Lemma adjustLoop_spec admin products batches : forall log rs,
  forEach batches (adjustBatch admin products) (log, rs)
  = (Resolved tt,
     (log ++ snd (adjustRun admin products batches log),
      rs ++ fst (adjustRun admin products batches log))).
Proof.
  induction batches as [|batch batches IH]; intros log rs; simpl.
  - by rewrite !app_nil_r.
  - unfold bind. rewrite adjustBatch_spec, IH. simpl.
    by rewrite <- !app_assoc.
Qed.

Lemma adjustRun_calls admin products batches : forall log,
  snd (adjustRun admin products batches log) = map adjustCall batches.
Proof.
  induction batches as [|batch batches IH]; intros log; simpl; [done|].
  by rewrite IH.
Qed.

Lemma adjustRun_results admin products batches : forall log r,
  r ∈ fst (adjustRun admin products batches log) ->
  exists batch change p reply,
    batch ∈ batches /\ change ∈ batch
    /\ productOfChange products change = Some p
    /\ r = stockOutcome reply p.
Proof.
  induction batches as [|batch batches IH]; intros log r Hr; simpl in Hr.
  - by apply elem_of_nil in Hr.
  - apply elem_of_app in Hr. destruct Hr as [Hr | Hr].
    + unfold batchResults in Hr. apply list_elem_of_fmap in Hr.
      destruct Hr as (p & -> & Hp). apply list_elem_of_omap in Hp.
      destruct Hp as (change & Hchange & Hfound).
      exists batch, change, p, (inventoryAdjustQuantities admin log batch).
      split; [by left | done].
    + destruct (IH _ _ Hr) as (b & change & p & reply & Hb & Hrest).
      exists b, change, p, reply. split; [by right | done].
Qed.

Lemma NoDup_map_eq {A B} (f : A -> B) (xs : list A) (x y : A) :
  NoDup (map f xs) -> x ∈ xs -> y ∈ xs -> f x = f y -> x = y.
Proof.
  induction xs as [|z xs IH]; intros Hnodup Hx Hy Hf.
  - by apply elem_of_nil in Hx.
  - simpl in Hnodup. apply NoDup_cons in Hnodup. destruct Hnodup as [Hz Hnodup].
    apply elem_of_cons in Hx. apply elem_of_cons in Hy.
    destruct Hx as [-> | Hx], Hy as [-> | Hy]; [reflexivity | | | by apply IH].
    + exfalso. apply Hz. rewrite Hf. apply list_elem_of_fmap. by exists y.
    + exfalso. apply Hz. rewrite <- Hf. apply list_elem_of_fmap. by exists x.
Qed.

Lemma stockOutcome_sku reply p : r_sku (stockOutcome reply p) = sku p.
Proof.
  unfold stockOutcome. destruct reply as [data | err]; [|reflexivity].
  by destruct (default [] data).
Qed.

(** The failing input of C4: with a zero-delta item [A] and an item [B] whose
    quantity changes in the same submission, only [B] gets an outcome; the
    outcome of [A] is lost, where the submission of [A] alone reports it with
    the message ["No quantity change needed"]. *)
Lemma updateStock_zero_delta_counterexample :
  let A := stockItem "A" 3 3 in
  let B := stockItem "B" 3 8 in
  hasDelta (toChange (Some "loc") A) = false
  /\ start (updateStock acceptingAdmin [A; B] (Some "loc")) [] []
     = (Resolved {| a_results := [ {| r_sku := "B"; r_updated := true;
                                      r_message := "Stock updated";
                                      r_error := None |} ];
                    a_error := None |},
        [adjustCall [toChange (Some "loc") B]])
  /\ start (updateStock acceptingAdmin [A] (Some "loc")) [] []
     = (Resolved {| a_results := [ {| r_sku := "A"; r_updated := false;
                                      r_message := "No quantity change needed";
                                      r_error := None |} ];
                    a_error := None |},
        []).
Proof. repeat split; vm_compute; reflexivity. Qed.

(** C4. What the stock-only commit does. The half of the claim about the
    gateway holds: the changes sent are exactly the non-zero deltas of the
    included items, in order, in batches, so an item whose delta is zero is
    never sent. The half about the report holds only on the early return:
    when no included item of the submission has a non-zero delta, no call is
    made and every submitted item is reported with [updated = false] and the
    message ["No quantity change needed"]. When some included item has a
    non-zero delta, outcomes are recorded only for the items found for the
    changes that were sent: on a submission with pairwise distinct SKUs and
    inventory item ids, an item whose delta is zero then gets no outcome at
    all, which is the defect. The action always returns. *)
Theorem updateStock_zero_delta (admin : Admin) (products : list NormalizedProduct)
    (locationId : option string) (log : list Call) :
  let changes :=
    List.filter hasDelta (map (toChange locationId) (List.filter update products)) in
  exists data batches,
    start (updateStock admin products locationId) [] log
    = (Resolved data, log ++ map adjustCall batches)
    /\ concat batches = changes
    /\ (forall c, c ∈ concat batches ->
          num_ne (c_delta c) 0 = true
          /\ exists p, p ∈ products /\ update p = true /\ c = toChange locationId p)
    /\ (products <> [] -> changes = [] ->
          batches = [] /\ a_results data = map noChange products
          /\ a_error data = None)
    /\ (changes <> [] ->
          forall r, r ∈ a_results data ->
            exists change p reply,
              change ∈ changes /\ productOfChange products change = Some p
              /\ r = stockOutcome reply p)
    /\ (changes <> [] ->
          NoDup (map sku products) -> NoDup (map inventoryItemId products) ->
          forall A, A ∈ products -> hasDelta (toChange locationId A) = false ->
            sku A ∉ map r_sku (a_results data)).
Proof.
  intros changes.
  assert (Hdef : changes
    = List.filter hasDelta (map (toChange locationId) (List.filter update products)))
    by reflexivity.
  clearbody changes.
  assert (Hsent : forall c, c ∈ changes ->
    num_ne (c_delta c) 0 = true
    /\ exists p, p ∈ products /\ update p = true /\ c = toChange locationId p).
  { intros c Hc. rewrite Hdef in Hc. apply list_elem_of_In, filter_In in Hc. destruct Hc as [Hc Hd].
    split; [exact Hd|]. apply in_map_iff in Hc. destruct Hc as (p & <- & Hp).
    apply filter_In in Hp. destruct Hp as [Hp Hu].
    exists p. split; [by apply list_elem_of_In | done]. }
  destruct products as [|p0 products'] eqn:Hproducts.
  { exists {| a_results := []; a_error := Some "No products to update" |}, [].
    simpl. rewrite app_nil_r.
    split; [reflexivity|]. split; [by rewrite Hdef|].
    split; [intros c' Hc; by apply elem_of_nil in Hc|].
    split; [done|]. split; intros Hne; by destruct Hne. }
  rewrite <- Hproducts in *.
  assert (Hlen : (length products =? 0)%nat = false) by (by rewrite Hproducts).
  destruct (decide (changes = [])) as [Hchanges | Hchanges].
  { exists {| a_results := map noChange products; a_error := None |}, [].
    rewrite app_nil_r.
    split; [|split; [by rewrite Hchanges|]].
    - apply (start_eq _ _ _ _ (log, [])). unfold updateStock.
      by rewrite <- Hdef, Hlen, Hchanges.
    - split; [intros c' Hc; by apply elem_of_nil in Hc|].
      split; [done|]. split; intros Hne; by destruct Hne. }
  assert (Hlen' : (length changes =? 0)%nat = false) by (by destruct changes).
  set (batches := chunks_of (length changes) 100 changes).
  assert (Hconcat : concat batches = changes) by (apply chunks_of_concat; lia).
  exists {| a_results := fst (adjustRun admin products batches log); a_error := None |},
         batches.
  split.
  { apply (start_eq _ _ _ _
             (log ++ map adjustCall batches, fst (adjustRun admin products batches log))).
    unfold updateStock. rewrite <- Hdef, Hlen, Hlen'.
    rewrite (chunkArray_eq changes 100) by lia. fold batches.
    unfold bind at 1. unfold liftOption. unfold bind at 1.
    rewrite adjustLoop_spec, adjustRun_calls. reflexivity. }
  simpl.
  split; [exact Hconcat|]. split; [by rewrite Hconcat|].
  split; [intros _ Hnil; contradiction|].
  assert (Hreported : forall r, r ∈ fst (adjustRun admin products batches log) ->
            exists change p reply,
              change ∈ changes /\ productOfChange products change = Some p
              /\ r = stockOutcome reply p).
  { intros r Hr. destruct (adjustRun_results _ _ _ _ _ Hr)
      as (batch & change & p & reply & Hbatch & Hchange & Hfound & ->).
    exists change, p, reply. split; [|done].
    rewrite <- Hconcat. apply list_elem_of_In, in_concat.
    exists batch. split; by apply list_elem_of_In. }
  split; [intros _; exact Hreported|].
  intros _ Hskus Hids A HA Hzero Hin.
  apply list_elem_of_fmap in Hin. destruct Hin as (r & Hsku & Hr).
  destruct (Hreported r Hr) as (change & p & reply & Hchange & Hfound & ->).
  rewrite stockOutcome_sku in Hsku.
  apply find_some in Hfound. destruct Hfound as [Hp Hid].
  apply String.eqb_eq in Hid.
  assert (p = A) as -> by (by apply (NoDup_map_eq sku products)).
  destruct (Hsent change Hchange) as (Hdelta & B & HB & _ & ->).
  assert (A = B) as <- by (by apply (NoDup_map_eq inventoryItemId products)).
  unfold hasDelta in Hzero. congruence.
Qed.

Lemma updateStock_zero_delta_witness :
  let A := stockItem "A" 3 3 in
  let B := stockItem "B" 3 8 in
  exists data calls,
    start (updateStock acceptingAdmin [A; B] (Some "loc")) [] [] = (Resolved data, calls)
    /\ update A = true
    /\ hasDelta (toChange (Some "loc") A) = false
    /\ "A" ∉ map r_sku (a_results data).
Proof.
  intros A B.
  destruct (updateStock_zero_delta acceptingAdmin [A; B] (Some "loc") [])
    as (data & batches & Hrun & _ & _ & _ & _ & Hdropped).
  exists data, ([] ++ map adjustCall batches). split; [exact Hrun|].
  split; [reflexivity|]. split; [reflexivity|].
  apply (Hdropped ltac:(discriminate)) with (A := A).
  - apply (bool_decide_unpack _). reflexivity.
  - apply (bool_decide_unpack _). reflexivity.
  - by left.
  - reflexivity.
Defined.

End StockCommit.

(** ** Pricing commit: the fallback after a cost-related rejection *)

Section PricingFallback.
Import Js Lib Api Route.
Context `{Runtime}.

Lemma costLoop_spec {S} admin (batch : list NormalizedProduct) :
  forall costErrors log (s : S),
    costLoop admin batch costErrors (log, s)
    = (Resolved (costFold admin log batch costErrors), (log ++ map costCall batch, s)).
Proof.
  induction batch as [|v batch IH]; intros costErrors log s; simpl.
  - by rewrite app_nil_r.
  - unfold bind, tryCatch, itemUpdate, perform. simpl. fold (costCall v).
    destruct (inventoryItemUpdate admin log (inventoryItemId v) (costNew v))
      as [[[|e errs]|] | err]; simpl; rewrite IH; by rewrite <- app_assoc.
Qed.

Lemma costFold_snoc admin (batch : list NormalizedProduct) v :
  forall log costErrors,
    costFold admin log (batch ++ [v]) costErrors
    = recordFailure v
        (costFailure (inventoryItemUpdate admin (log ++ map costCall batch)
                        (inventoryItemId v) (costNew v)))
        (costFold admin log batch costErrors).
Proof.
  induction batch as [|w batch IH]; intros log costErrors; simpl.
  - by rewrite app_nil_r.
  - rewrite IH. by rewrite <- app_assoc.
Qed.

Lemma costFailureAt_app admin log (batch : list NormalizedProduct) extra j :
  (j < length batch)%nat ->
  costFailureAt admin log (batch ++ extra) j = costFailureAt admin log batch j.
Proof.
  intros Hj. unfold costFailureAt.
  rewrite lookup_app_l by done. rewrite take_app_le by lia. reflexivity.
Qed.

Lemma costFailureAt_last admin log (batch : list NormalizedProduct) v :
  costFailureAt admin log (batch ++ [v]) (length batch)
  = costFailure (inventoryItemUpdate admin (log ++ map costCall batch)
                   (inventoryItemId v) (costNew v)).
Proof.
  unfold costFailureAt.
  rewrite lookup_app_r by lia. rewrite Nat.sub_diag. simpl.
  rewrite take_app_le by lia. by rewrite firstn_all.
Qed.

(** The entry of a SKU in [costErrors] is the message of the last failed cost
    write among the variants of the batch carrying that SKU. *)
Lemma costFold_lookup admin log (batch : list NormalizedProduct) (s m : string) :
  costFold admin log batch ∅ !! s = Some m
  <-> exists j w,
        batch !! j = Some w /\ sku w = s
        /\ costFailureAt admin log batch j = Some m
        /\ forall j' w', (j < j')%nat -> batch !! j' = Some w' -> sku w' = s ->
             costFailureAt admin log batch j' = None.
Proof.
  revert m. induction batch as [|v batch IH] using rev_ind; intros m.
  - simpl. rewrite lookup_empty. split; [discriminate|].
    intros (j & w & Hj & _). by rewrite lookup_nil in Hj.
  - rewrite costFold_snoc.
    pose proof (costFailureAt_last admin log batch v) as Hlast.
    destruct (costFailure _) as [mv|] eqn:Hfail; simpl.
    + destruct (decide (sku v = s)) as [Hs | Hs].
      * subst s. rewrite lookup_insert_eq. split.
        -- intros [= <-]. exists (length batch), v.
           split; [by rewrite lookup_app_r, Nat.sub_diag by lia|].
           split; [done|]. split; [done|].
           intros j' w' Hlt Hj'. apply lookup_lt_Some in Hj'.
           rewrite length_app in Hj'. simpl in Hj'. lia.
        -- intros (j & w & Hj & Hw & Hm & Hlater).
           destruct (decide (j = length batch)) as [-> | Hne]; [congruence|].
           assert (Hjlt : (j < length batch)%nat).
           { apply lookup_lt_Some in Hj. rewrite length_app in Hj. simpl in Hj. lia. }
           specialize (Hlater (length batch) v Hjlt).
           rewrite lookup_app_r, Nat.sub_diag in Hlater by lia.
           specialize (Hlater eq_refl eq_refl). congruence.
      * rewrite lookup_insert_ne by done. rewrite IH. split.
        -- intros (j & w & Hj & Hw & Hm & Hlater).
           assert (Hjlt : (j < length batch)%nat) by (by apply lookup_lt_Some in Hj).
           exists j, w. split; [by rewrite lookup_app_l|]. split; [done|].
           split; [by rewrite costFailureAt_app|].
           intros j' w' Hlt Hj' Hw'.
           destruct (decide (j' < length batch)%nat) as [Hj'lt | Hj'ge].
           ++ rewrite costFailureAt_app by done. rewrite lookup_app_l in Hj' by done.
              eauto.
           ++ rewrite lookup_app_r in Hj' by lia.
              destruct (j' - length batch)%nat; simpl in Hj'; [|by rewrite lookup_nil in Hj'].
              congruence.
        -- intros (j & w & Hj & Hw & Hm & Hlater).
           assert (Hjlt : (j < length batch)%nat).
           { destruct (decide (j < length batch)%nat) as [|Hge]; [done|].
             rewrite lookup_app_r in Hj by lia.
             destruct (j - length batch)%nat; simpl in Hj; [|by rewrite lookup_nil in Hj].
             congruence. }
           exists j, w. rewrite lookup_app_l in Hj by done.
           rewrite costFailureAt_app in Hm by done.
           split; [done|]. split; [done|]. split; [done|].
           intros j' w' Hlt Hj' Hw'.
           assert (Hj'lt : (j' < length batch)%nat) by (by apply lookup_lt_Some in Hj').
           rewrite <- (costFailureAt_app admin log batch [v] j') by done.
           apply (Hlater j' w'); [done | by rewrite lookup_app_l | done].
    + rewrite IH. split.
      * intros (j & w & Hj & Hw & Hm & Hlater).
        assert (Hjlt : (j < length batch)%nat) by (by apply lookup_lt_Some in Hj).
        exists j, w. split; [by rewrite lookup_app_l|]. split; [done|].
        split; [by rewrite costFailureAt_app|].
        intros j' w' Hlt Hj' Hw'.
        destruct (decide (j' < length batch)%nat) as [Hj'lt | Hj'ge].
        -- rewrite costFailureAt_app by done. rewrite lookup_app_l in Hj' by done.
           eauto.
        -- rewrite lookup_app_r in Hj' by lia.
           destruct (j' - length batch)%nat eqn:Hd; simpl in Hj';
             [|by rewrite lookup_nil in Hj'].
           replace j' with (length batch) by lia. by rewrite Hlast.
      * intros (j & w & Hj & Hw & Hm & Hlater).
        assert (Hjlt : (j < length batch)%nat).
        { destruct (decide (j < length batch)%nat) as [|Hge]; [done|].
          rewrite lookup_app_r in Hj by lia.
          destruct (j - length batch)%nat eqn:Hd; simpl in Hj;
            [|by rewrite lookup_nil in Hj].
          replace j with (length batch) in Hm by lia. congruence. }
        exists j, w. rewrite lookup_app_l in Hj by done.
        rewrite costFailureAt_app in Hm by done.
        split; [done|]. split; [done|]. split; [done|].
        intros j' w' Hlt Hj' Hw'.
        assert (Hj'lt : (j' < length batch)%nat) by (by apply lookup_lt_Some in Hj').
        rewrite <- (costFailureAt_app admin log batch [v] j') by done.
        apply (Hlater j' w'); [done | by rewrite lookup_app_l | done].
Qed.

Lemma costFold_is_Some admin log (batch : list NormalizedProduct) (s : string) :
  is_Some (costFold admin log batch ∅ !! s)
  <-> exists j w,
        batch !! j = Some w /\ sku w = s /\ is_Some (costFailureAt admin log batch j).
Proof.
  induction batch as [|v batch IH] using rev_ind.
  - simpl. rewrite lookup_empty. split.
    + intros [m Hm]. discriminate Hm.
    + intros (j & w & Hj & _). by rewrite lookup_nil in Hj.
  - rewrite costFold_snoc.
    pose proof (costFailureAt_last admin log batch v) as Hlast.
    assert (Hold : (exists j w, batch !! j = Some w /\ sku w = s
                       /\ is_Some (costFailureAt admin log batch j))
                   -> exists j w, (batch ++ [v]) !! j = Some w /\ sku w = s
                       /\ is_Some (costFailureAt admin log (batch ++ [v]) j)).
    { intros (j & w & Hj & Hw & Hm).
      assert (Hjlt : (j < length batch)%nat) by (by apply lookup_lt_Some in Hj).
      exists j, w. rewrite lookup_app_l by done.
      by rewrite costFailureAt_app. }
    assert (Hnew : forall j w, (batch ++ [v]) !! j = Some w ->
                     (j < length batch)%nat /\ batch !! j = Some w
                     \/ j = length batch /\ w = v).
    { intros j w Hj. destruct (decide (j < length batch)%nat) as [Hlt | Hge].
      - left. by rewrite lookup_app_l in Hj.
      - right. rewrite lookup_app_r in Hj by lia.
        destruct (j - length batch)%nat eqn:Hd; simpl in Hj;
          [|by rewrite lookup_nil in Hj].
        split; [lia | congruence]. }
    destruct (costFailure _) as [mv|] eqn:Hfail; simpl.
    + destruct (decide (sku v = s)) as [Hs | Hs].
      * subst s. rewrite lookup_insert_eq. split; [|by eexists].
        intros _. exists (length batch), v.
        split; [by rewrite lookup_app_r, Nat.sub_diag by lia|].
        split; [done|]. rewrite Hlast. by eexists.
      * rewrite lookup_insert_ne by done. rewrite IH. split; [exact Hold|].
        intros (j & w & Hj & Hw & Hm).
        destruct (Hnew j w Hj) as [[Hlt Hj'] | [-> ->]]; [|contradiction].
        exists j, w. by rewrite costFailureAt_app in Hm.
    + rewrite IH. split; [exact Hold|].
      intros (j & w & Hj & Hw & Hm).
      destruct (Hnew j w Hj) as [[Hlt Hj'] | [-> ->]].
      * exists j, w. by rewrite costFailureAt_app in Hm.
      * rewrite Hlast in Hm. destruct Hm as [m Hm]. discriminate Hm.
Qed.

Lemma fallbackOutcome_spec eff costErrors v log rs :
  fallbackOutcome eff costErrors v (log, rs)
  = (Resolved tt, (log, rs ++ [fallbackResult eff costErrors v])).
Proof.
  unfold fallbackOutcome, fallbackResult, push, bind, modify, firstMessage, ret.
  destruct eff as [|e eff]; destruct (costErrors !! sku v) as [[|c m]|]; reflexivity.
Qed.

Lemma fallbackLoop_spec eff costErrors (batch : list NormalizedProduct) :
  forall log rs,
    forEach batch (fallbackOutcome eff costErrors) (log, rs)
    = (Resolved tt, (log, rs ++ map (fallbackResult eff costErrors) batch)).
Proof.
  induction batch as [|v batch IH]; intros log rs; simpl.
  - by rewrite app_nil_r.
  - unfold bind. rewrite fallbackOutcome_spec, IH. by rewrite <- app_assoc.
Qed.

(** The run of one sub-batch whose combined write is rejected for a cost-related
    reason and whose price-only retry returns. *)
Lemma pricingBatch_fallback admin productId (batch : list NormalizedProduct)
    log rs data1 priceData :
  let c1 := ProductVariantsBulkUpdate productId (map withCost batch) in
  let c2 := ProductVariantsBulkUpdate productId (map priceOnly batch) in
  productVariantsBulkUpdate admin log productId (map withCost batch) = Json data1 ->
  nonEmpty (default [] data1) && hasCostError (default [] data1) = true ->
  productVariantsBulkUpdate admin (log ++ [c1]) productId (map priceOnly batch)
  = Json priceData ->
  pricingBatch admin productId batch (log, rs)
  = (Resolved tt,
     ((log ++ [c1; c2]) ++ map costCall batch,
      rs ++ map (fallbackResult (effectivePriceErrors priceData)
                   (costFold admin (log ++ [c1; c2]) batch ∅)) batch)).
Proof.
  intros c1 c2 Hcombined Hcost Hretry.
  unfold pricingBatch. unfold bind at 1. unfold bulkUpdate at 1, perform. simpl.
  rewrite Hcombined, Hcost. fold c1.
  unfold bind at 1. unfold bulkUpdate at 1, perform. simpl.
  rewrite Hretry. fold c2.
  unfold bind at 1. rewrite costLoop_spec.
  rewrite <- app_assoc. simpl.
  rewrite fallbackLoop_spec.
  by destruct priceData.
Qed.

Lemma truthy_iff (m : string) : truthy m = true <-> m <> EmptyString.
Proof. destruct m; simpl; split; done. Qed.

Lemma nonEmpty_iff {A} (xs : list A) : nonEmpty xs = true <-> xs <> [].
Proof. destruct xs; unfold nonEmpty; simpl; split; done. Qed.

(** C1 (amended). When the combined price+cost write of a sub-batch is
    rejected with at least one cost-pattern error and the price-only retry of
    the same sub-batch returns, the calls made are the combined write, the
    price-only write and one standalone cost write per variant, in order, and
    the pricing pass records one outcome per variant, in order. Cost errors
    are recorded by SKU: a variant's outcome has [updated = false] iff the
    price-only retry reported an error (or carried no data) or the cost write
    of a variant of the sub-batch with the same SKU failed, which for pairwise
    distinct SKUs is the variant's own cost write. A failed outcome carries
    the message of the last failed cost write for that SKU, else the first
    price-retry error; a successful one carries ["Pricing updated"]. Failed
    cost writes are here taken to carry a non-empty message. *)
Theorem pricing_fallback (admin : Admin) (productId : string)
    (batch : list NormalizedProduct) (log : list Call) (rs : list UpdateResponse)
    (data1 priceData : option (list UserError)) :
  let c1 := ProductVariantsBulkUpdate productId (map withCost batch) in
  let c2 := ProductVariantsBulkUpdate productId (map priceOnly batch) in
  let L := log ++ [c1; c2] in
  let eff := effectivePriceErrors priceData in
  productVariantsBulkUpdate admin log productId (map withCost batch) = Json data1 ->
  nonEmpty (default [] data1) && hasCostError (default [] data1) = true ->
  productVariantsBulkUpdate admin (log ++ [c1]) productId (map priceOnly batch)
  = Json priceData ->
  (forall j m, costFailureAt admin L batch j = Some m -> m <> EmptyString) ->
  exists outcomes,
    pricingBatch admin productId batch (log, rs)
    = (Resolved tt, (L ++ map costCall batch, rs ++ outcomes))
    /\ length outcomes = length batch
    /\ forall i v, batch !! i = Some v ->
         exists r,
           outcomes !! i = Some r /\ r_sku r = sku v
           /\ (r_updated r = false
               <-> eff <> []
                   \/ exists j w, batch !! j = Some w /\ sku w = sku v
                                  /\ is_Some (costFailureAt admin L batch j))
           /\ (NoDup (map sku batch) ->
               (r_updated r = false
                <-> eff <> [] \/ is_Some (costFailureAt admin L batch i)))
           /\ (r_updated r = true ->
               r_message r = "Pricing updated" /\ r_error r = None)
           /\ (r_updated r = false -> r_error r = Some (r_message r))
           /\ (forall j w m,
                 batch !! j = Some w -> sku w = sku v ->
                 costFailureAt admin L batch j = Some m ->
                 (forall j' w', (j < j')%nat -> batch !! j' = Some w' ->
                    sku w' = sku v -> costFailureAt admin L batch j' = None) ->
                 r_updated r = false /\ r_message r = m)
           /\ ((forall j w, batch !! j = Some w -> sku w = sku v ->
                  costFailureAt admin L batch j = None) ->
               eff <> [] ->
               r_updated r = false /\ Some (r_message r) = ue_message <$> head eff).
Proof.
  intros c1 c2 L eff Hcombined Hcost Hretry Hmsg.
  set (costErrors := costFold admin L batch ∅).
  exists (map (fallbackResult eff costErrors) batch).
  split; [by apply (pricingBatch_fallback admin productId batch log rs data1)|].
  split; [by rewrite length_map|].
  intros i v Hv. exists (fallbackResult eff costErrors v).
  split; [by rewrite list_lookup_fmap, Hv|]. split; [reflexivity|].
  assert (Hentry : forall m, costErrors !! sku v = Some m -> truthy m = true).
  { intros m Hm. apply costFold_lookup in Hm.
    destruct Hm as (j & w & _ & _ & Hfail & _). apply truthy_iff. by apply (Hmsg j). }
  assert (Hfailed : optTruthy (costErrors !! sku v) = true
                    <-> exists j w, batch !! j = Some w /\ sku w = sku v
                                    /\ is_Some (costFailureAt admin L batch j)).
  { rewrite <- costFold_is_Some. fold costErrors.
    destruct (costErrors !! sku v) as [m|] eqn:Hm; simpl.
    - rewrite (Hentry m eq_refl). split; [by eexists | done].
    - split; [discriminate | intros [m Hm']; discriminate Hm']. }
  assert (Hupdated : r_updated (fallbackResult eff costErrors v) = false
                     <-> eff <> []
                         \/ exists j w, batch !! j = Some w /\ sku w = sku v
                                        /\ is_Some (costFailureAt admin L batch j)).
  { simpl. rewrite negb_false_iff, orb_true_iff, nonEmpty_iff. by rewrite Hfailed. }
  split; [exact Hupdated|]. split; [|split; [|split; [|split]]].
  - intros Hnodup. rewrite Hupdated. split.
    + intros [Heff | (j & w & Hj & Hw & Hfail)]; [by left|]. right.
      assert (j = i) as ->; [|done].
      apply (NoDup_lookup (map sku batch) j i (sku v)); [done | |].
      * by rewrite list_lookup_fmap, Hj, <- Hw.
      * by rewrite list_lookup_fmap, Hv.
    + intros [Heff | Hfail]; [by left|]. right. by exists i, v.
  - simpl. rewrite negb_true_iff. by intros ->.
  - simpl. rewrite negb_false_iff. by intros ->.
  - intros j w m Hj Hw Hfail Hlast.
    assert (Hm : costErrors !! sku v = Some m).
    { apply costFold_lookup. exists j, w. done. }
    split.
    + apply Hupdated. right. exists j, w. by rewrite Hfail.
    + simpl. rewrite Hm. simpl. rewrite (Hentry m Hm).
      by rewrite orb_true_r.
  - intros Hnone Heff.
    assert (Hm : costErrors !! sku v = None).
    { destruct (costErrors !! sku v) as [m|] eqn:Hm; [|done].
      assert (Hsome : is_Some (costFold admin L batch ∅ !! sku v)) by (by eexists).
      apply costFold_is_Some in Hsome. destruct Hsome as (j & w & Hj & Hw & Hfail).
      rewrite (Hnone j w Hj Hw) in Hfail. destruct Hfail as [m' Hm']. discriminate Hm'. }
    split; [apply Hupdated; by left|].
    simpl. rewrite Hm. destruct eff as [|e eff']; [done|]. reflexivity.
Qed.

End PricingFallback.

Section PricingFallbackExamples.
Import Js Lib Api Route.

(** C1, as stated, fails: cost errors are kept by SKU, so when V1 and V2 carry
    the same SKU, the price-only retry succeeds, V1's cost write fails and
    V2's succeeds, V2 is reported as failed too; and the message of a
    successful outcome is ["Pricing updated"]. Moreover, in a run that also
    updates stock, the outcome the action returns for V1 (distinct SKUs, V1's
    cost write failed, V1's quantity changes) is [updated = true] with the
    message ["Stock updated"]. *)
Lemma pricing_fallback_counterexample :
  let V1 := variantItem "V1" "A" in
  let V2 := variantItem "V2" "A" in
  let V3 := variantItem "V3" "B" in
  fst (start (@updatePricing refRuntime costRejectingAdmin
                [restock (variantItem "V1" "A") 8; variantItem "V2" "B"]
                true (Some "loc")) [] [])
  = Resolved
      {| a_results :=
           [ {| r_sku := "A"; r_updated := true; r_message := "Stock updated";
                r_error := None |};
             {| r_sku := "B"; r_updated := true; r_message := "Pricing updated";
                r_error := None |} ];
         a_error := None |} /\
  let c1 := ProductVariantsBulkUpdate productGid (map (@withCost refRuntime) [V1; V2; V3]) in
  let c2 := ProductVariantsBulkUpdate productGid (map (@priceOnly refRuntime) [V1; V2; V3]) in
  @pricingBatch refRuntime costRejectingAdmin productGid [V1; V2; V3] ([], [])
  = (Resolved tt,
     ([c1; c2; costCall V1; costCall V2; costCall V3],
      [ {| r_sku := "A"; r_updated := false; r_message := "Cost rejected";
           r_error := Some "Cost rejected" |};
        {| r_sku := "A"; r_updated := false; r_message := "Cost rejected";
           r_error := Some "Cost rejected" |};
        {| r_sku := "B"; r_updated := true; r_message := "Pricing updated";
           r_error := None |} ]))
  /\ productVariantsBulkUpdate costRejectingAdmin [c1] productGid
       (map (@priceOnly refRuntime) [V1; V2; V3]) = Json (Some [])
  /\ costFailureAt costRejectingAdmin [c1; c2] [V1; V2; V3] 1 = None
  /\ ~ ownCostWriteClaim.
Proof.
  intros V1 V2 V3.
  split; [vm_compute; reflexivity|].
  intros c1 c2.
  split; [vm_compute; reflexivity|].
  split; [vm_compute; reflexivity|].
  split; [vm_compute; reflexivity|].
  intros Hclaim.
  destruct (Hclaim costRejectingAdmin productGid [V1; V2; V3] [] []
              (Some [costRejection]) (Some []))
    as (outcomes & calls & Hrun & Hall);
    [vm_compute; reflexivity | vm_compute; reflexivity | vm_compute; reflexivity |].
  assert (Houtcomes : outcomes
    = [ {| r_sku := "A"; r_updated := false; r_message := "Cost rejected";
           r_error := Some "Cost rejected" |};
        {| r_sku := "A"; r_updated := false; r_message := "Cost rejected";
           r_error := Some "Cost rejected" |};
        {| r_sku := "B"; r_updated := true; r_message := "Pricing updated";
           r_error := None |} ]).
  { vm_compute in Hrun. by injection Hrun as _ <-. }
  destruct (Hall 1%nat V2 eq_refl) as (r & Hr & Hiff).
  rewrite Houtcomes in Hr. injection Hr as <-.
  destruct Hiff as [Hfails _]. destruct (Hfails eq_refl) as [Heff | Hown].
  - by apply Heff.
  - vm_compute in Hown. destruct Hown as [m Hm]. discriminate Hm.
Qed.

(** The scenario of the specification: V1 and V2 with distinct SKUs, the
    price-only retry succeeds, V1's cost write fails and V2's succeeds. *)
Lemma pricing_fallback_witness :
  let V1 := variantItem "V1" "A" in
  let V2 := variantItem "V2" "B" in
  exists r1 r2 calls,
    @pricingBatch refRuntime costRejectingAdmin productGid [V1; V2] ([], [])
    = (Resolved tt, (calls, [r1; r2]))
    /\ (r_sku r1, r_updated r1) = ("A", false)
    /\ (r_sku r2, r_updated r2, r_message r2) = ("B", true, "Pricing updated").
Proof.
  intros V1 V2.
  destruct (@pricing_fallback refRuntime costRejectingAdmin productGid [V1; V2] [] []
              (Some [costRejection]) (Some []))
    as (outcomes & Hrun & Hlen & Hall).
  - vm_compute; reflexivity.
  - vm_compute; reflexivity.
  - vm_compute; reflexivity.
  - intros [|[|j]] m Hm; vm_compute in Hm; [by injection Hm as <- | discriminate..].
  - destruct outcomes as [|r1 [|r2 [|r3 rest]]]; try discriminate Hlen.
    exists r1, r2. eexists. split; [exact Hrun|].
    destruct (Hall 0%nat V1 eq_refl)
      as (r1' & [= <-] & Hsku1 & _ & Hown1 & _).
    destruct (Hall 1%nat V2 eq_refl)
      as (r2' & [= <-] & Hsku2 & _ & Hown2 & Hok2 & _).
    assert (Hnodup : NoDup (map sku [V1; V2])).
    { apply (bool_decide_unpack _). reflexivity. }
    assert (Hf1 : r_updated r1 = false).
    { apply (Hown1 Hnodup). right. vm_compute. by eexists. }
    assert (Ht2 : r_updated r2 = true).
    { apply not_false_iff_true. intros Hu.
      apply (Hown2 Hnodup) in Hu. destruct Hu as [Heff | Hfail].
      - by destruct Heff.
      - vm_compute in Hfail. destruct Hfail as [m Hm]. discriminate Hm. }
    destruct (Hok2 Ht2) as [Hmsg2 _].
    rewrite Hsku1, Hsku2, Hf1, Ht2, Hmsg2. split; reflexivity.
Defined.

End PricingFallbackExamples.

(** ** The batch run of the page *)

Section BatchRun.
Import Js Lib Hooks Route.
Context {Σ : Type}.
Variable submitBatch : Σ -> Payload -> option FetcherData * Σ.
Variable mkPayload : list NormalizedProduct -> Payload.

Lemma chunks_of_sizes {T} (fuel size : nat) : forall rest : list T,
  map length (chunks_of fuel size rest) = chunkSizes fuel size (length rest).
Proof.
  induction fuel as [|fuel IH]; intros rest; [by destruct rest|].
  destruct rest as [|x rest]; [reflexivity|].
  simpl chunks_of. simpl chunkSizes. unfold chunkSizes_step.
  simpl length at 3. simpl Nat.eqb. cbv iota.
  rewrite map_cons, IH, length_take, length_drop. reflexivity.
Qed.

Lemma Sequential_app evs evs' :
  Sequential evs -> Sequential evs' -> Sequential (evs ++ evs').
Proof. induction 1; intros Hevs'; simpl; [done | constructor; auto..]. Qed.

Lemma chain_app_mid {A} (R : A -> A -> Prop) (xs : list A) (z : A) (ys : list A) :
  chain R (xs ++ [z]) -> chain R (z :: ys) -> chain R (xs ++ z :: ys).
Proof.
  induction xs as [|a xs IH]; intros Hxs Hys; [exact Hys|].
  destruct Hxs as [Hhead Hrest]. split; [|by apply IH].
  by destruct xs.
Qed.

Lemma grows_refl_results s n :
  (currentBatch s <= n <= S (currentBatch s))%nat -> grows s (setCurrentBatch n s).
Proof. intros Hn. split; [exact Hn | reflexivity]. Qed.

Lemma grows_addResults s rs : grows s (addResults rs s).
Proof. split; [simpl; lia | by apply prefix_app_r]. Qed.

Lemma afterAnswer_fields data s :
  currentBatch (afterAnswer data s) = currentBatch s
  /\ totalBatches (afterAnswer data s) = totalBatches s
  /\ isProcessing (afterAnswer data s) = isProcessing s
  /\ results (afterAnswer data s) = results s ++ resultsOf data.
Proof.
  destruct data as [[[rs|] e]|]; simpl; rewrite ?app_nil_r; done.
Qed.

Lemma batchLoop_run (batches : list (list NormalizedProduct)) : forall index pg,
  currentBatch (batchProcessor pg) = index ->
  exists evs k pre,
    let pg' := batchLoop submitBatch mkPayload batches index pg in
    trace pg' = trace pg ++ evs
    /\ Sequential evs
    /\ batchProcessor pg :: renders evs = pre ++ [batchProcessor pg']
    /\ chain grows (batchProcessor pg :: renders evs)
    /\ (k <= length batches)%nat
    /\ submits evs = map mkPayload (take k batches)
    /\ length (settles evs) = k
    /\ indexAtSubmit index evs = seq (S index) k
    /\ results (batchProcessor pg')
       = results (batchProcessor pg) ++ concat (map resultsOf (settles evs))
    /\ currentBatch (batchProcessor pg') = (index + k)%nat
    /\ totalBatches (batchProcessor pg') = totalBatches (batchProcessor pg)
    /\ isProcessing (batchProcessor pg') = isProcessing (batchProcessor pg)
    /\ (Forall (fun d => stopsRun d = false) (settles evs) -> k = length batches)
    /\ (settles evs, server pg') = answers submitBatch (server pg) (submits evs)
    /\ Forall (fun d => stopsRun d = false) (take (k - 1) (settles evs))
    /\ ((k < length batches)%nat ->
        exists d, last (settles evs) = Some d /\ stopsRun d = true)
    /\ error pg' = errorAfter (error pg) (last (settles evs)).
Proof.
  induction batches as [|batch batches IH]; intros index pg Hindex.
  { exists [], 0%nat, []. simpl. rewrite !app_nil_r, Nat.add_0_r.
    repeat split; try done; try constructor. lia. }
  set (s0 := batchProcessor pg).
  set (s1 := setCurrentBatch (index + 1) s0).
  set (data := fst (submitBatch (server pg) (mkPayload batch))).
  set (s2 := afterAnswer data s1).
  set (shown := match data with
                | Some {| d_results := Some _ |} => [Render s2]
                | _ => []
                end).
  set (head := Render s1 :: Submit (mkPayload batch) :: Settle data :: shown).
  set (pg3 := {| server := snd (submitBatch (server pg) (mkPayload batch));
                 batchProcessor := s2; error := error pg;
                 trace := trace pg ++ head |}).
  destruct (afterAnswer_fields data s1) as (Hcur & Htot & Hproc & Hres).
  fold s2 in Hcur, Htot, Hproc, Hres.
  assert (Hshown : renders shown = [] /\ s2 = s1
                   \/ renders shown = [s2] /\ grows s1 s2).
  { subst shown s2. destruct data as [[[rs|] e]|]; simpl; [right | left..]; try done.
    split; [done | apply grows_addResults]. }
  assert (Hs01 : grows s0 s1).
  { subst s1. apply grows_refl_results. subst s0. lia. }
  assert (Hhead : renders head = s1 :: renders shown
                  /\ submits head = [mkPayload batch]
                  /\ settles head = [data]
                  /\ Sequential head).
  { subst head shown. destruct data as [[[rs|] e]|]; simpl;
      repeat split; repeat constructor. }
  destruct Hhead as (Hrenders & Hsubmits & Hsettles & Hseq).
  assert (Hindex3 : forall c rest, indexAtSubmit c (head ++ rest)
                                   = S index :: indexAtSubmit (S index) rest).
  { intros c rest. subst head shown. simpl.
    replace (index + 1)%nat with (S index) by lia.
    destruct data as [[[rs|] e]|]; simpl; try done.
    by replace (index + 1)%nat with (S index) by lia. }
  assert (Hstep : batchLoop submitBatch mkPayload (batch :: batches) index pg
                  = if stopsRun data
                    then setError (match data with
                                   | Some {| d_error := Some e |} => e
                                   | _ => EmptyString
                                   end) pg3
                    else batchLoop submitBatch mkPayload batches (index + 1) pg3).
  { simpl. fold s0 s1. fold data.
    match goal with
    | |- context [batchLoop submitBatch mkPayload batches (index + 1) ?x] =>
        assert (Hpg3 : x = pg3)
    end.
    { subst pg3 head shown s2. unfold setBatch. simpl.
      destruct data as [[[rs|] e]|]; simpl; rewrite <- ?app_assoc; reflexivity. }
    rewrite Hpg3.
    by destruct data as [[rs [e|]]|]. }
  rewrite Hstep. clear Hstep.
  assert (Hpre : s0 :: renders head = (s0 :: match renders shown with
                                            | [] => []
                                            | _ => [s1]
                                            end) ++ [s2]
                 /\ chain grows (s0 :: renders head)).
  { rewrite Hrenders. destruct Hshown as [[-> ->] | [-> Hs12]]; simpl; done. }
  destruct Hpre as [Hpre Hchain].
  assert (Hfields : currentBatch s1 = (index + 1)%nat
                    /\ totalBatches s1 = totalBatches s0
                    /\ isProcessing s1 = isProcessing s0
                    /\ results s1 = results s0) by done.
  destruct Hfields as (Hcur1 & Htot1 & Hproc1 & Hres1).
  rewrite Hcur1 in Hcur. rewrite Htot1 in Htot. rewrite Hproc1 in Hproc.
  rewrite Hres1 in Hres.
  assert (Hidx1 : indexAtSubmit index head = [S index]).
  { rewrite <- (app_nil_r head), Hindex3. reflexivity. }
  assert (Hdata : data = fst (submitBatch (server pg) (mkPayload batch)))
    by reflexivity.
  clearbody head shown s2 s1 data.
  destruct (stopsRun data) eqn:Hstop.
  - exists head, 1%nat, (s0 :: match renders shown with [] => [] | _ => [s1] end).
    cbv zeta. unfold setError. simpl batchProcessor. simpl trace.
    rewrite Hsubmits, Hsettles, Hidx1.
    split; [done|]. split; [done|]. split; [exact Hpre|]. split; [exact Hchain|].
    split; [simpl; lia|]. split; [done|]. split; [done|]. split; [done|].
    split; [simpl; by rewrite app_nil_r|]. split; [done|].
    split; [done|]. split; [done|].
    split.
    { intros Hall. apply Forall_cons in Hall. destruct Hall as [Hno _]. congruence. }
    split; [simpl; by rewrite Hdata|].
    split; [constructor|].
    split; [intros _; by exists data|].
    change (last [data]) with (Some data). unfold errorAfter.
    rewrite Hstop. reflexivity.
  - destruct (IH (index + 1)%nat pg3) as (evs & k & pre & IHrun); [exact Hcur|].
    cbv zeta in IHrun.
    destruct IHrun as (Htrace & Hseq' & Hlast & Hchain' & Hk & Hsub & Hset & Hidx
                       & Hres' & Hcur' & Htot' & Hproc' & Hall'
                       & Hans & Hnostop & Hlaststop & Herr).
    simpl batchProcessor in Hlast, Hchain', Hres', Htot', Hproc'.
    simpl server in Hans. simpl error in Herr.
    simpl trace in Htrace.
    exists (head ++ evs), (S k),
           ((s0 :: match renders shown with [] => [] | _ => [s1] end) ++ pre).
    cbv zeta.
    assert (Hr : renders (head ++ evs) = renders head ++ renders evs)
      by apply omap_app.
    assert (Hsu : submits (head ++ evs) = mkPayload batch :: submits evs).
    { unfold submits. rewrite omap_app. fold (submits head). by rewrite Hsubmits. }
    assert (Hse : settles (head ++ evs) = data :: settles evs).
    { unfold settles. rewrite omap_app. fold (settles head). by rewrite Hsettles. }
    rewrite Hr, Hsu, Hse.
    split; [by rewrite Htrace, <- app_assoc|].
    split; [by apply Sequential_app|].
    split.
    { change (s0 :: renders head ++ renders evs)
        with ((s0 :: renders head) ++ renders evs).
      rewrite Hpre, <- !app_assoc. f_equal.
      change ([s2] ++ renders evs) with (s2 :: renders evs). by rewrite Hlast. }
    split.
    { change (s0 :: renders head ++ renders evs)
        with ((s0 :: renders head) ++ renders evs).
      rewrite Hpre, <- app_assoc.
      change ([s2] ++ renders evs) with (s2 :: renders evs).
      apply chain_app_mid; [by rewrite <- Hpre | exact Hchain']. }
    split; [simpl; lia|].
    split; [simpl; by rewrite Hsub|].
    split; [simpl; by rewrite Hset|].
    split.
    { rewrite Hindex3. simpl. f_equal.
      by replace (S index) with (index + 1)%nat by lia. }
    split.
    { rewrite Hres', Hres. simpl. by rewrite <- app_assoc. }
    split; [rewrite Hcur'; lia|].
    split; [by rewrite Htot', Htot|].
    split; [by rewrite Hproc', Hproc|].
    split.
    { intros Hall. apply Forall_cons in Hall. destruct Hall as [_ Hall].
      by rewrite (Hall' Hall). }
    split.
    { simpl answers. rewrite <- Hans. simpl. by rewrite Hdata. }
    split.
    { replace (S k - 1)%nat with k by lia. destruct k as [|k]; [constructor|].
      simpl take. constructor; [exact Hstop|].
      by replace (S k - 1)%nat with k in Hnostop by lia. }
    split.
    { intros Hlt. destruct Hlaststop as (d & Hd & Hstopd); [simpl in Hlt; lia|].
      exists d. split; [|exact Hstopd].
      destruct (settles evs); [discriminate Hd | exact Hd]. }
    rewrite Herr. unfold errorAfter.
    destruct (settles evs) as [|d ds]; [|reflexivity].
    simpl. by rewrite Hstop.
Qed.

(** C5. A commit run with something selected partitions the selected items,
    in input order, into progress batches of 50 (120 items give batches of
    50, 50 and 20). The run first resets the batch-run state; from there on
    every displayed state has a batch index equal to or one above the previous
    one and outcomes that extend the previous ones. Each batch is submitted
    only after the previous one was answered, the k-th submission showing
    batch index k; the answers the run goes on with are those [submitBatch]
    gave to these submissions, one after the other, and the outcomes at the
    end are the results of these answers, in the order of the answers. The
    run stops after the first answer that carries an error, whose message is
    then on display, and not before: when no answer stops the run, all
    batches are submitted and the index ends at [totalBatches].
    [handleUpdatePricing] and [handleUpdateStock] are this run with their own
    payloads. *)
Theorem batch_run (products : list NormalizedProduct) (pg : Page Σ) :
  List.filter update products <> [] ->
  exists batches evs k pg',
    handleUpdate submitBatch mkPayload products pg = Some pg'
    /\ chunkArray (List.filter update products) updateBatchSize = Some batches
    /\ concat batches = List.filter update products
    /\ Forall (fun b => b <> [] /\ (length b <= 50)%nat) batches
    /\ (forall i b, batches !! i = Some b -> (S i < length batches)%nat ->
          length b = 50%nat)
    /\ (length (List.filter update products) = 120%nat ->
          map length batches = [50; 50; 20]%nat)
    /\ trace pg' = trace pg ++ Render initialBatchState :: evs
    /\ reset (batchProcessor pg) = initialBatchState
    /\ Sequential evs
    /\ chain grows (initialBatchState :: renders evs)
    /\ (k <= length batches)%nat
    /\ submits evs = map mkPayload (take k batches)
    /\ length (settles evs) = k
    /\ indexAtSubmit 0 evs = seq 1 k
    /\ results (batchProcessor pg') = concat (map resultsOf (settles evs))
    /\ currentBatch (batchProcessor pg') = k
    /\ totalBatches (batchProcessor pg') = length batches
    /\ isProcessing (batchProcessor pg') = false
    /\ (Forall (fun d => stopsRun d = false) (settles evs) -> k = length batches)
    /\ (settles evs, server pg') = answers submitBatch (server pg) (submits evs)
    /\ Forall (fun d => stopsRun d = false) (take (k - 1) (settles evs))
    /\ ((k < length batches)%nat ->
        exists d, last (settles evs) = Some d /\ stopsRun d = true)
    /\ error pg' = errorAfter (error pg) (last (settles evs))
    /\ (forall location stock,
          handleUpdatePricing submitBatch location stock
          = handleUpdate submitBatch
              (fun batch => {| p_intent := IntentUpdatePricing; p_products := batch;
                               p_locationId := location;
                               p_updateStock := Some stock |}))
    /\ (forall location,
          handleUpdateStock submitBatch location
          = handleUpdate submitBatch
              (fun batch => {| p_intent := IntentUpdateStock; p_products := batch;
                               p_locationId := location; p_updateStock := None |})).
Proof.
  intros Hselected. unfold handleUpdate.
  remember (List.filter update products) as selected eqn:Hsel.
  assert (Hlen0 : (length selected =? 0)%nat = false) by (by destruct selected).
  rewrite Hlen0. clear Hsel.
  set (batches := chunks_of (length selected) 50 selected).
  assert (Hchunks : chunkArray selected updateBatchSize = Some batches).
  { unfold updateBatchSize. apply chunkArray_eq. lia. }
  set (s1 := setIsProcessing true initialBatchState).
  set (s2 := setTotalBatches (length batches) s1).
  set (pg2 := setBatch (setTotalBatches (length batches))
                (setBatch (setIsProcessing true) (setBatch reset pg))).
  destruct (batchLoop_run batches 0%nat pg2 eq_refl) as (evs & k & pre & Hrun).
  cbv zeta in Hrun.
  set (pg3 := batchLoop submitBatch mkPayload batches 0 pg2) in *.
  destruct Hrun as (Htrace & Hseq & Hlast & Hchain & Hk & Hsub & Hset & Hidx
                    & Hres & Hcur & Htot & Hproc & Hall
                    & Hans & Hnostop & Hlaststop & Herr).
  exists batches, (Render s1 :: Render s2 :: evs
                   ++ [Render (setIsProcessing false (batchProcessor pg3))]),
         k, (setBatch (setIsProcessing false) pg3).
  assert (Hr : renders (Render s1 :: Render s2 :: evs
                 ++ [Render (setIsProcessing false (batchProcessor pg3))])
               = s1 :: s2 :: renders evs
                 ++ [setIsProcessing false (batchProcessor pg3)]).
  { unfold renders. simpl. by rewrite omap_app. }
  assert (Hsu : submits (Render s1 :: Render s2 :: evs
                 ++ [Render (setIsProcessing false (batchProcessor pg3))])
                = submits evs).
  { unfold submits. simpl. rewrite omap_app. simpl. by rewrite app_nil_r. }
  assert (Hse : settles (Render s1 :: Render s2 :: evs
                 ++ [Render (setIsProcessing false (batchProcessor pg3))])
                = settles evs).
  { unfold settles. simpl. rewrite omap_app. simpl. by rewrite app_nil_r. }
  assert (Hix : forall c tail, indexAtSubmit c (evs ++ [Render tail])
                               = indexAtSubmit c evs).
  { clear. intros c tail. revert c.
    induction evs as [|[s | p | d] evs IH]; intros c; simpl; [done | | |];
      by rewrite IH. }
  rewrite Hr, Hsu, Hse.
  split; [by rewrite Hchunks|].
  split; [exact Hchunks|].
  split; [apply chunks_of_concat; lia|].
  split; [apply chunks_of_bounds; lia|].
  split; [intros i b Hb Hi; eapply chunks_of_full; eauto; lia|].
  split.
  { intros Hlen. unfold batches. rewrite chunks_of_sizes, Hlen. reflexivity. }
  split.
  { unfold setBatch at 1. simpl trace. rewrite Htrace. unfold pg2, setBatch.
    simpl. rewrite <- !app_assoc. reflexivity. }
  split; [reflexivity|].
  split.
  { do 2 constructor. apply Sequential_app; [done | repeat constructor]. }
  split.
  { change (batchProcessor pg2) with s2 in Hlast, Hchain.
    split; [split; [simpl; lia | reflexivity]|].
    split; [split; [simpl; lia | reflexivity]|].
    change (s2 :: renders evs ++ [setIsProcessing false (batchProcessor pg3)])
      with ((s2 :: renders evs) ++ [setIsProcessing false (batchProcessor pg3)]).
    rewrite Hlast. rewrite <- app_assoc. simpl.
    apply chain_app_mid; [by rewrite <- Hlast|].
    split; [|done]. split; [simpl; lia | reflexivity]. }
  split; [exact Hk|]. split; [exact Hsub|]. split; [exact Hset|].
  split.
  { simpl. rewrite Hix. exact Hidx. }
  split; [simpl; by rewrite Hres|].
  split; [simpl; by rewrite Hcur|].
  split; [simpl; by rewrite Htot|].
  split; [reflexivity|].
  split; [exact Hall|].
  split; [exact Hans|].
  split; [exact Hnostop|].
  split; [exact Hlaststop|].
  split; [exact Herr|].
  split; reflexivity.
Qed.

End BatchRun.

(** ** The scenarios of the specification, run on the model *)

Section Scenarios.
Import Js Lib Hooks Api Route.

(** The end-to-end scenario: records A1 and A2 against a catalog that holds
    [a1] at price 15: one item with margin 50 and status good, A2 not found. *)
Lemma lookup_partition_witness :
  exists item log',
    start (@lookupProducts refRuntime catalogAdmin supplierRecords 5 (Some "loc"))
          ([], ∅) []
    = (Resolved {| l_error := None; l_products := [item]; l_notFound := ["A2"] |}, log')
    /\ (sku item, margin item, marginStatus item) = ("a1", 50%float, good)
    /\ (forall p, p ∈ supplierRecords ->
          (exists it, it ∈ [item]
                      /\ @toLowerCase refRuntime (sku it)
                         = @toLowerCase refRuntime (csv_sku p))
          \/ csv_sku p ∈ ["A2"]).
Proof.
  destruct (@lookup_partition refRuntime catalogAdmin supplierRecords 5
              (Some "loc") []) as (Hpartition & _).
  eexists _, _. split; [vm_compute; reflexivity|]. split; [reflexivity|].
  exact (proj1 (Hpartition _ _ eq_refl)).
Defined.

Lemma batch_run_witness :
  let items := replicate 120 (stockItem "A" 3 8) in
  exists batches evs pg',
    handleUpdate acceptingServer stockPayload items idlePage = Some pg'
    /\ map length batches = [50; 50; 20]%nat
    /\ concat batches = items
    /\ trace pg' = Render initialBatchState :: evs
    /\ Sequential evs
    /\ (settles evs, server pg') = answers acceptingServer 0%nat (submits evs)
    /\ results (batchProcessor pg') = concat (map resultsOf (settles evs))
    /\ server pg' = 3%nat
    /\ results (batchProcessor pg')
       = map (fun p => {| r_sku := sku p; r_updated := true;
                          r_message := "Stock updated"; r_error := None |}) items
    /\ currentBatch (batchProcessor pg') = 3%nat.
Proof.
  intros items.
  destruct (batch_run acceptingServer stockPayload items idlePage)
    as (batches & evs & k & pg' & Hrun & _ & Hconcat & _ & _ & Hsizes & Htrace
        & _ & Hseq & _ & _ & _ & _ & _ & Hres & _ & _ & _ & _ & Hans & _).
  - vm_compute. discriminate.
  - exists batches, evs, pg'. split; [exact Hrun|].
    split; [apply Hsizes; vm_compute; reflexivity|].
    split; [exact Hconcat|]. split; [exact Htrace|]. split; [exact Hseq|].
    split; [exact Hans|]. split; [exact Hres|].
    vm_compute in Hrun. injection Hrun as <-.
    split; [reflexivity|]. split; vm_compute; reflexivity.
Defined.

End Scenarios.

(** * Further properties of the code *)

(** ** The reconciliation store *)

Section ReconciliationStore.

Lemma withStatus_same (p : NormalizedProduct) : withStatus p (marginStatus p) = p.
Proof. by destruct p. Qed.

Lemma withUpdate_same (p : NormalizedProduct) : withUpdate p (update p) = p.
Proof. by destruct p. Qed.

Lemma isStatus_true (status : MarginStatus) (p : NormalizedProduct) :
  isStatus status p = true <-> marginStatus p = status.
Proof. unfold isStatus. destruct (marginStatus p), status; split; done. Qed.

(** Returning the previous array when nothing changed does not change the
    value: the result is the plain [map]. *)
Lemma keepIfUnchanged_map {A} (step : A -> option A) (prev : list A) :
  keepIfUnchanged step prev = map (fun p => default p (step p)) prev.
Proof.
  unfold keepIfUnchanged.
  assert (Hnext : snd (mapChanged step prev) = map (fun p => default p (step p)) prev).
  { induction prev as [|p prev IH]; [reflexivity|]. simpl.
    destruct (step p); simpl; by rewrite IH. }
  assert (Hsame : fst (mapChanged step prev) = false ->
                  map (fun p => default p (step p)) prev = prev).
  { clear Hnext. induction prev as [|p prev IH]; [reflexivity|]. simpl.
    destruct (step p); simpl; [discriminate|]. intros Hrest. by rewrite IH. }
  destruct (fst (mapChanged step prev)) eqn:Hflag; [exact Hnext|].
  symmetry. by apply Hsame.
Qed.

Lemma thresholdEffect_map (t : float) (prev : list NormalizedProduct) :
  thresholdEffect t prev
  = map (fun p => withStatus p (getMarginStatus (margin p) t)) prev.
Proof.
  unfold thresholdEffect. rewrite keepIfUnchanged_map. apply map_ext.
  intros p. destruct (isStatus (getMarginStatus (margin p) t) p) eqn:Hp; simpl.
  - apply isStatus_true in Hp. rewrite <- Hp. symmetry. apply withStatus_same.
  - reflexivity.
Qed.

Lemma setUpdatesForVariants_map (variantIds : list string)
    (prev : list NormalizedProduct) :
  setUpdatesForVariants variantIds prev
  = map (fun p => withUpdate p (bool_decide (variantId p ∈ variantIds))) prev.
Proof.
  unfold setUpdatesForVariants. rewrite keepIfUnchanged_map. apply map_ext.
  intros p.
  assert (Hmem : bool_decide (variantId p ∈ (list_to_set variantIds : gset string))
                 = bool_decide (variantId p ∈ variantIds)).
  { apply bool_decide_ext. apply elem_of_list_to_set. }
  rewrite Hmem.
  destruct (Bool.eqb (update p) (bool_decide (variantId p ∈ variantIds))) eqn:Heq; simpl.
  - apply Bool.eqb_prop in Heq. rewrite <- Heq. symmetry. apply withUpdate_same.
  - reflexivity.
Qed.

(** X1. A change of threshold re-classifies every item from its stored margin
    and touches nothing else: each item keeps its position and all its fields
    except the status, which becomes the status of its margin under the new
    threshold. Afterwards every item is consistent with the threshold, and
    running the effect again with the same threshold changes nothing. *)
Theorem thresholdEffect_reclassifies (t : float) (prev : list NormalizedProduct) :
  (forall k p, prev !! k = Some p ->
     thresholdEffect t prev !! k = Some (withStatus p (getMarginStatus (margin p) t)))
  /\ length (thresholdEffect t prev) = length prev
  /\ map margin (thresholdEffect t prev) = map margin prev
  /\ map update (thresholdEffect t prev) = map update prev
  /\ Forall (statusConsistent t) (thresholdEffect t prev)
  /\ thresholdEffect t (thresholdEffect t prev) = thresholdEffect t prev
  /\ (Forall (statusConsistent t) prev -> thresholdEffect t prev = prev).
Proof.
  rewrite !thresholdEffect_map. repeat split.
  - intros k p Hk. by rewrite list_lookup_fmap, Hk.
  - by rewrite length_map.
  - rewrite map_map. by apply map_ext.
  - rewrite map_map. by apply map_ext.
  - apply Forall_forall. intros q Hq. apply list_elem_of_fmap in Hq.
    destruct Hq as (p & -> & _). reflexivity.
  - rewrite map_map. by apply map_ext.
  - intros Hall. induction Hall as [|p ps Hp Hps IH]; [reflexivity|]. simpl.
    rewrite IH. f_equal. unfold statusConsistent in Hp. rewrite <- Hp.
    apply withStatus_same.
Qed.

Lemma normalize_fields `{Runtime} shopifyProduct csvProduct threshold locationId item :
  normalizeShopifyProduct shopifyProduct csvProduct threshold locationId = Some item ->
  statusConsistent threshold item
  /\ margin item = calculateMargin (price item) (costNew item)
  /\ costNew item = csv_cost csvProduct
  /\ update item = true
  /\ id item = sp_id shopifyProduct
  /\ (forall soh, csv_soh csvProduct = Some soh -> quantityNew item = soh)
  /\ (csv_soh csvProduct = None -> quantityNew item = quantity item).
Proof.
  unfold normalizeShopifyProduct.
  destruct (find _ (sp_variants shopifyProduct)) as [variant|]; [|discriminate].
  destruct (v_sku variant) as [variantSku|]; [|discriminate].
  intros [= <-]. unfold statusConsistent. simpl. repeat split.
  - by intros soh ->.
  - by intros ->.
Qed.

(** X2. The status of an item always agrees with its margin and the
    threshold in force: reconciliation produces consistent items (with the
    margin of [calculateMargin], included by default), and a price edit, the
    toggling of an item and the bulk selection keep a consistent list
    consistent. *)
Theorem status_invariant `{Runtime} (t : float) :
  (forall shopifyProduct csvProduct locationId item,
     normalizeShopifyProduct shopifyProduct csvProduct t locationId = Some item ->
     statusConsistent t item
     /\ margin item = calculateMargin (price item) (costNew item)
     /\ update item = true)
  /\ (forall variantId' newPrice prev,
        Forall (statusConsistent t) prev ->
        Forall (statusConsistent t) (updateProductPrice t variantId' newPrice prev))
  /\ (forall variantId' prev,
        Forall (statusConsistent t) prev ->
        Forall (statusConsistent t) (toggleProductUpdate variantId' prev))
  /\ (forall variantIds prev,
        Forall (statusConsistent t) prev ->
        Forall (statusConsistent t) (setUpdatesForVariants variantIds prev)).
Proof.
  split; [|split; [|split]].
  - intros shopifyProduct csvProduct locationId item Hitem.
    destruct (normalize_fields _ _ _ _ _ Hitem) as (H1 & H2 & _ & H3 & _). done.
  - intros variantId' newPrice prev Hall. unfold updateProductPrice.
    apply Forall_forall. intros q Hq. apply list_elem_of_fmap in Hq.
    destruct Hq as (p & -> & Hp).
    destruct (negb (String.eqb (variantId p) variantId')); [|reflexivity].
    by apply (proj1 (Forall_forall _ _) Hall).
  - intros variantId' prev Hall. unfold toggleProductUpdate.
    apply Forall_forall. intros q Hq. apply list_elem_of_fmap in Hq.
    destruct Hq as (p & -> & Hp).
    pose proof (proj1 (Forall_forall _ _) Hall p Hp) as Hcons.
    by destruct (String.eqb (variantId p) variantId').
  - intros variantIds prev Hall. rewrite setUpdatesForVariants_map.
    apply Forall_forall. intros q Hq. apply list_elem_of_fmap in Hq.
    destruct Hq as (p & -> & Hp).
    exact (proj1 (Forall_forall _ _) Hall p Hp).
Qed.

Lemma filter_filter {A} (f g : A -> bool) (l : list A) :
  List.filter f (List.filter g l) = List.filter (fun x => g x && f x) l.
Proof.
  induction l as [|x l IH]; [reflexivity|]. simpl.
  destruct (g x); simpl; [destruct (f x)|]; by rewrite IH.
Qed.

Lemma status_counts (products : list NormalizedProduct) :
  (length (List.filter (isStatus good) products)
   + length (List.filter (isStatus medium) products)
   + length (List.filter (isStatus negative) products))%nat
  = length products.
Proof.
  induction products as [|p ps IH]; [reflexivity|]. simpl.
  assert (Hp : forall status, isStatus status p
                 = match marginStatus p, status with
                   | good, good | medium, medium | negative, negative => true
                   | _, _ => false
                   end) by reflexivity.
  rewrite !Hp. destruct (marginStatus p); simpl; lia.
Qed.

Lemma filter_complement_length {A} (f : A -> bool) (l : list A) :
  (length (List.filter f l) + length (List.filter (fun x => negb (f x)) l))%nat
  = length l.
Proof.
  induction l as [|x l IH]; [reflexivity|]. simpl.
  destruct (f x); simpl; lia.
Qed.

(** X3. The counters of the store partition the items: the good, medium and
    negative counts add up to the total, the count to update is the number of
    selectable items and at most the total, the medium and negative views
    have the sizes the counters show and hold only items of that status, in
    list order; and the updated and not-updated counts of a run add up to the
    number of outcomes. *)
Theorem stats_partition (products : list NormalizedProduct) (run : BatchState) :
  (s_good (stats products) + s_medium (stats products)
   + s_negative (stats products))%nat = s_total (stats products)
  /\ s_toUpdate (stats products) = length (selectableProducts products)
  /\ (s_toUpdate (stats products) <= s_total (stats products))%nat
  /\ filteredProducts FilterAll products = products
  /\ length (filteredProducts FilterMed products) = s_medium (stats products)
  /\ length (filteredProducts FilterNeg products) = s_negative (stats products)
  /\ Forall (fun p => marginStatus p = medium) (filteredProducts FilterMed products)
  /\ Forall (fun p => marginStatus p = negative) (filteredProducts FilterNeg products)
  /\ (forall filter, sublist (filteredProducts filter products) products)
  /\ (updatedCount run + notUpdatedCount run)%nat = length (results run).
Proof.
  split; [apply status_counts|]. split; [reflexivity|].
  split; [apply filter_length_le|]. split; [reflexivity|].
  split; [reflexivity|]. split; [reflexivity|].
  assert (Hfilter : forall status,
    Forall (fun p => marginStatus p = status) (List.filter (isStatus status) products)).
  { intros status. apply Forall_forall. intros p Hp.
    apply list_elem_of_In, filter_In in Hp. destruct Hp as [_ Hp].
    by apply isStatus_true. }
  split; [apply Hfilter|]. split; [apply Hfilter|].
  split; [|apply filter_complement_length].
  assert (Hsub : forall (f : NormalizedProduct -> bool),
            sublist (List.filter f products) products).
  { intros f. clear Hfilter. induction products as [|p ps IH]; [constructor|]. simpl.
    destruct (f p); [by apply sublist_skip | by apply sublist_cons]. }
  intros [| |]; [reflexivity | apply Hsub..].
Qed.

(** X4. Toggling an item twice restores the list. The bulk selection sets the
    inclusion flag of every item to whether its variant id is among the given
    ids and changes nothing else, so the selectable items afterwards are
    exactly the items with a given id; selecting again with the same ids
    changes nothing. *)
Theorem selection_operations (variantIds : list string) (variantId' : string)
    (prev : list NormalizedProduct) :
  toggleProductUpdate variantId' (toggleProductUpdate variantId' prev) = prev
  /\ (forall k p, prev !! k = Some p ->
        toggleProductUpdate variantId' prev !! k
        = Some (if String.eqb (variantId p) variantId'
                then withUpdate p (negb (update p)) else p))
  /\ (forall k p, prev !! k = Some p ->
        setUpdatesForVariants variantIds prev !! k
        = Some (withUpdate p (bool_decide (variantId p ∈ variantIds))))
  /\ map variantId (selectableProducts (setUpdatesForVariants variantIds prev))
     = List.filter (fun v => bool_decide (v ∈ variantIds)) (map variantId prev)
  /\ setUpdatesForVariants variantIds (setUpdatesForVariants variantIds prev)
     = setUpdatesForVariants variantIds prev
  /\ setUpdatesForVariants [] prev = map (fun p => withUpdate p false) prev.
Proof.
  split; [|split; [|split; [|split; [|split]]]].
  - unfold toggleProductUpdate. rewrite map_map.
    rewrite <- (map_id prev) at 2. apply map_ext. intros p.
    destruct (String.eqb (variantId p) variantId') eqn:Hv; simpl; rewrite Hv.
    + destruct p. unfold withUpdate. simpl. by rewrite negb_involutive.
    + reflexivity.
  - intros k p Hk. unfold toggleProductUpdate. by rewrite list_lookup_fmap, Hk.
  - intros k p Hk. rewrite setUpdatesForVariants_map. by rewrite list_lookup_fmap, Hk.
  - rewrite setUpdatesForVariants_map. unfold selectableProducts.
    induction prev as [|p ps IH]; [reflexivity|]. simpl.
    destruct (bool_decide (variantId p ∈ variantIds)); simpl; by rewrite IH.
  - rewrite !setUpdatesForVariants_map, map_map. by apply map_ext.
  - rewrite setUpdatesForVariants_map. apply map_ext. intros p.
    by rewrite (bool_decide_eq_false_2 _ (not_elem_of_nil (variantId p))).
Qed.

Section FloatSign.
Local Open Scope float_scope.

(** A number that compares below something is below, equal to or above 0. *)
Lemma positive_iff (m t : float) :
  (m <? t) = true ->
  (0 <? m) = ((negb (m <? 0)) && negb (m =? 0))%bool.
Proof.
  rewrite !ltb_spec, FloatAxioms.eqb_spec. unfold SFltb, SFeqb.
  rewrite (SFcompare_antisym (Prim2SF m) (Prim2SF 0)).
  change (Prim2SF 0) with (S754_zero false).
  destruct (Prim2SF m) as [sm| sm| |sm mm em], (Prim2SF t) as [st| st| |st mt et];
    simpl; try discriminate; try reflexivity;
    try (destruct sm; reflexivity).
Qed.

End FloatSign.

(** X5. On a list whose statuses agree with the threshold, the filter of the
    earlier hook, which reads the margins, shows the same negative items as
    the current one, and as medium items those of the current one whose
    margin is not 0: an item with margin exactly 0 has status medium but is
    left out by the earlier medium filter. *)
Theorem filter_by_margin_vs_status (t : float) (products : list NormalizedProduct) :
  Forall (statusConsistent t) products ->
  filteredProductsByMargin t FilterAll products = filteredProducts FilterAll products
  /\ filteredProductsByMargin t FilterNeg products = filteredProducts FilterNeg products
  /\ filteredProductsByMargin t FilterMed products
     = List.filter (fun p => negb (margin p =? 0)%float)
                   (filteredProducts FilterMed products).
Proof.
  intros Hall. split; [reflexivity|]. split.
  - simpl. apply filter_ext_in. intros p Hp.
    pose proof (proj1 (Forall_forall _ _) Hall p (proj2 (list_elem_of_In _ _) Hp)) as Hc.
    unfold statusConsistent, getMarginStatus in Hc. unfold isStatus. rewrite Hc.
    destruct (margin p <? 0)%float; [reflexivity|].
    by destruct (margin p <? t)%float.
  - simpl. rewrite filter_filter. apply filter_ext_in. intros p Hp.
    pose proof (proj1 (Forall_forall _ _) Hall p (proj2 (list_elem_of_In _ _) Hp)) as Hc.
    unfold statusConsistent, getMarginStatus in Hc. unfold isStatus. rewrite Hc.
    destruct (margin p <? t)%float eqn:Ht.
    + rewrite (positive_iff _ _ Ht).
      destruct (margin p <? 0)%float; simpl; [reflexivity|].
      by rewrite andb_true_r.
    + rewrite andb_false_r. by destruct (margin p <? 0)%float.
Qed.

End ReconciliationStore.

Lemma filter_by_margin_vs_status_witness :
  let products := [sampleItem "v1" 10; sampleItem "v2" 15; sampleItem "v3" 20] in
  Forall (statusConsistent 5) products
  /\ filteredProductsByMargin 5 FilterMed products = []
  /\ map variantId (filteredProducts FilterMed products) = ["v2"].
Proof.
  intros products.
  assert (Hall : Forall (statusConsistent 5) products).
  { repeat constructor. }
  split; [exact Hall|].
  destruct (filter_by_margin_vs_status 5 products Hall) as (_ & _ & Hmed).
  split; [|reflexivity]. rewrite Hmed. reflexivity.
Defined.

(** ** Grouping by parent product *)

Section Grouping.

Lemma mapGet_mapSet {V} (groups : list (string * V)) (key key' : string) (v : V) :
  mapGet (mapSet groups key v) key'
  = if String.eqb key key' then Some v else mapGet groups key'.
Proof.
  induction groups as [|[k w] groups IH]; simpl.
  - reflexivity.
  - destruct (String.eqb_spec k key) as [-> | Hk]; simpl.
    + by destruct (String.eqb key key').
    + rewrite IH. destruct (String.eqb_spec key key') as [<- | Hk'].
      * by rewrite (proj2 (String.eqb_neq k key) Hk).
      * reflexivity.
Qed.

Lemma mapSet_keys {V} (groups : list (string * V)) (key : string) (v : V) :
  map fst (mapSet groups key v)
  = if bool_decide (key ∈ map fst groups) then map fst groups
    else map fst groups ++ [key].
Proof.
  induction groups as [|[k w] groups IH]; simpl; [reflexivity|].
  destruct (String.eqb_spec k key) as [-> | Hk]; simpl.
  - rewrite bool_decide_eq_true_2; [reflexivity | by left].
  - rewrite IH. destruct (decide (key ∈ map fst groups)) as [Hin | Hout].
    + rewrite !bool_decide_eq_true_2; [reflexivity | by right | done].
    + rewrite !bool_decide_eq_false_2; [reflexivity | | done].
      intros Hin. apply elem_of_cons in Hin. destruct Hin; congruence.
Qed.

Lemma mapGet_None {V} (groups : list (string * V)) (key : string) :
  mapGet groups key = None <-> key ∉ map fst groups.
Proof.
  induction groups as [|[k w] groups IH]; simpl.
  - split; [intros _; apply not_elem_of_nil | done].
  - destruct (String.eqb_spec k key) as [-> | Hk].
    + split; [discriminate|]. intros Hout. exfalso. apply Hout. by left.
    + rewrite IH. rewrite not_elem_of_cons. split; [by split | by intros [_ ?]].
Qed.

Lemma mapGet_elem {V} (groups : list (string * V)) (key : string) (v : V) :
  NoDup (map fst groups) ->
  (key, v) ∈ groups <-> mapGet groups key = Some v.
Proof.
  induction groups as [|[k w] groups IH]; simpl; intros Hnodup.
  - split; [intros Hin; by apply elem_of_nil in Hin | discriminate].
  - apply NoDup_cons in Hnodup. destruct Hnodup as [Hk Hnodup].
    rewrite elem_of_cons. destruct (String.eqb_spec k key) as [-> | Hne].
    + split.
      * intros [[= ->] | Hin]; [reflexivity|]. exfalso. apply Hk.
        apply list_elem_of_fmap. by exists (key, v).
      * intros [= ->]. by left.
    + rewrite <- (IH Hnodup). split.
      * intros [[= -> _] | Hin]; [done | exact Hin].
      * intros Hin. by right.
Qed.

Lemma mapSet_concat {V} (groups : list (string * list V)) (key : string) (x : V) :
  concat (map snd (mapSet groups key (default [] (mapGet groups key) ++ [x])))
  ≡ₚ concat (map snd groups) ++ [x].
Proof.
  induction groups as [|[k w] groups IH]; simpl; [reflexivity|].
  destruct (String.eqb_spec k key) as [-> | Hk]; simpl.
  - rewrite <- !app_assoc. apply Permutation_app_head. apply Permutation_app_comm.
  - rewrite <- app_assoc. apply Permutation_app_head. exact IH.
Qed.

Lemma groupLoop_get (products : list NormalizedProduct) : forall groups key,
  mapGet (groupLoop products groups) key
  = match mapGet groups key, List.filter (sameParent key) products with
    | Some g, members => Some (g ++ members)
    | None, [] => None
    | None, members => Some members
    end.
Proof.
  induction products as [|p ps IH]; intros groups key; simpl.
  - destruct (mapGet groups key); [by rewrite app_nil_r | reflexivity].
  - rewrite IH, mapGet_mapSet.
    change (sameParent key p) with (String.eqb (id p) key).
    destruct (String.eqb (id p) key) eqn:Hid.
    + apply String.eqb_eq in Hid. subst key.
      destruct (mapGet groups (id p)); simpl; [by rewrite <- app_assoc | reflexivity].
    + reflexivity.
Qed.

Lemma groupLoop_keys (products : list NormalizedProduct) : forall groups,
  NoDup (map fst groups) -> NoDup (map fst (groupLoop products groups)).
Proof.
  induction products as [|p ps IH]; intros groups Hnodup; simpl; [done|].
  apply IH. rewrite mapSet_keys.
  destruct (decide (id p ∈ map fst groups)) as [Hin | Hout].
  - by rewrite bool_decide_eq_true_2.
  - rewrite bool_decide_eq_false_2 by done.
    apply NoDup_app. split; [done|]. split; [|apply NoDup_singleton].
    intros k Hk Hk'. apply list_elem_of_singleton in Hk'. by subst k.
Qed.

Lemma groupLoop_concat (products : list NormalizedProduct) : forall groups,
  concat (map snd (groupLoop products groups)) ≡ₚ concat (map snd groups) ++ products.
Proof.
  induction products as [|p ps IH]; intros groups; simpl.
  - by rewrite app_nil_r.
  - rewrite IH, mapSet_concat. by rewrite <- app_assoc.
Qed.

(** X6. [groupProductsByParent] partitions the products by parent id: the
    keys are pairwise distinct; the group of a key holds exactly the products
    with that parent id, in input order, and is never empty; a parent id that
    no product has is not a key; and the groups together hold each product
    exactly once. *)
Theorem groupProductsByParent_partition (products : list NormalizedProduct) :
  let groups := groupProductsByParent products in
  NoDup (map fst groups)
  /\ (forall key members,
        (key, members) ∈ groups
        <-> members = List.filter (sameParent key) products /\ members <> [])
  /\ (forall key, key ∈ map fst groups <-> exists p, p ∈ products /\ id p = key)
  /\ concat (map snd groups) ≡ₚ products.
Proof.
  intros groups. subst groups. unfold groupProductsByParent.
  assert (Hnodup : NoDup (map fst (groupLoop products []))).
  { apply groupLoop_keys. constructor. }
  assert (Hget : forall key,
            mapGet (groupLoop products []) key
            = match List.filter (sameParent key) products with
              | [] => None
              | members => Some members
              end).
  { intros key. by rewrite groupLoop_get. }
  split; [exact Hnodup|]. split; [|split].
  - intros key members. rewrite (mapGet_elem _ _ _ Hnodup), Hget.
    destruct (List.filter (sameParent key) products) as [|m ms]; split.
    + discriminate.
    + intros [-> Hne]. by destruct Hne.
    + intros [= <-]. done.
    + intros [-> _]. reflexivity.
  - intros key. split.
    + intros Hkey. destruct (mapGet (groupLoop products []) key) as [g|] eqn:Hg.
      * rewrite Hget in Hg.
        destruct (List.filter (sameParent key) products) as [|m ms] eqn:Hf;
          [discriminate|].
        assert (Hm : In m (List.filter (sameParent key) products))
          by (rewrite Hf; by left).
        apply filter_In in Hm. destruct Hm as [Hm Hid].
        exists m. split; [by apply list_elem_of_In | by apply String.eqb_eq].
      * by apply mapGet_None in Hg.
    + intros (p & Hp & Hid).
      destruct (decide (key ∈ map fst (groupLoop products []))) as [|Hout]; [done|].
      apply mapGet_None in Hout. rewrite Hget in Hout.
      assert (Hm : In p (List.filter (sameParent key) products)).
      { apply filter_In. split; [by apply list_elem_of_In | by apply String.eqb_eq]. }
      destruct (List.filter (sameParent key) products); [done | discriminate].
  - rewrite groupLoop_concat. reflexivity.
Qed.

End Grouping.

(** ** The SKU query *)

Section SkuQuery.

Lemma escapeQueryValue_cons (c : ascii) (s : string) :
  escapeQueryValue (String c s) = (escapeChar c ++ escapeQueryValue s)%string.
Proof.
  unfold escapeQueryValue, escapeChar. cbn [replaceChar].
  destruct (Ascii.eqb c backslash) eqn:Hb.
  - change ((String backslash (String backslash EmptyString)
             ++ replaceChar backslash
                  (String backslash (String backslash EmptyString)) s)%string)
      with (String backslash (String backslash
              (replaceChar backslash
                 (String backslash (String backslash EmptyString)) s))).
    cbn [replaceChar]. change (Ascii.eqb backslash dquote) with false. reflexivity.
  - cbn [replaceChar]. destruct (Ascii.eqb c dquote); reflexivity.
Qed.

Lemma concat_empty (sep : string) (parts : list string) :
  Forall (fun part => part <> EmptyString) parts ->
  String.concat sep parts = EmptyString -> parts = [].
Proof.
  intros Hparts. destruct Hparts as [|x xs Hx Hxs]; [done|].
  simpl. destruct xs as [|y ys]; [by intros ->|].
  intros Hcat. destruct x; [done | discriminate Hcat].
Qed.

Lemma buildSkuQuery_blank (skus : list string) :
  truthy (buildSkuQuery skus) = false
  <-> Forall (fun sku => trim sku = EmptyString) skus.
Proof.
  unfold buildSkuQuery.
  set (kept := List.filter truthy (map trim skus)).
  assert (Hkept : kept = [] <-> Forall (fun sku => trim sku = EmptyString) skus).
  { subst kept. induction skus as [|sku skus IH]; simpl.
    - split; [constructor | done].
    - destruct (trim sku) eqn:Ht; simpl.
      + rewrite IH. split; [by constructor|]. intros Hall.
        by apply Forall_cons in Hall as [_ ?].
      + split; [discriminate|]. intros Hall.
        apply Forall_cons in Hall as [Hblank _]. congruence. }
  rewrite <- Hkept. split.
  + intros Hempty.
    assert (Hparts : map (fun sku => ("sku:" ++ String dquote (escapeQueryValue sku)
                             ++ String dquote EmptyString)%string) kept = []).
    { apply (concat_empty " OR ").
      - apply Forall_forall. intros part Hpart. apply list_elem_of_fmap in Hpart.
        destruct Hpart as (sku & -> & _). discriminate.
      - by destruct (String.concat _ _). }
    by destruct kept.
  + by intros ->.
Qed.

(** X7. [escapeQueryValue] loses nothing and leaves no quote unescaped: the
    value can be read back from its escaped form, so distinct values have
    distinct escaped forms, and in the escaped form every quote follows an
    escaping backslash. [buildSkuQuery] is the empty string exactly when every
    SKU of the batch trims to the empty string, which is when the lookup makes
    no call for the batch. *)
Theorem skuQuery_escaping :
  (forall raw, unescapeQueryValue (escapeQueryValue raw) = raw)
  /\ (forall v w, escapeQueryValue v = escapeQueryValue w -> v = w)
  /\ (forall raw, quotesEscaped (escapeQueryValue raw) = true)
  /\ (forall skus,
        truthy (buildSkuQuery skus) = false
        <-> Forall (fun sku => trim sku = EmptyString) skus).
Proof.
  assert (Hround : forall raw, unescapeQueryValue (escapeQueryValue raw) = raw).
  { induction raw as [|c s IH]; [reflexivity|].
    rewrite escapeQueryValue_cons. unfold escapeChar.
    destruct (Ascii.eqb c backslash) eqn:Hb.
    - apply Ascii.eqb_eq in Hb. subst c.
      change ((String backslash (String backslash EmptyString)
               ++ escapeQueryValue s)%string)
        with (String backslash (String backslash (escapeQueryValue s))).
      cbn [unescapeQueryValue]. rewrite Ascii.eqb_refl. by rewrite IH.
    - destruct (Ascii.eqb c dquote) eqn:Hq.
      + apply Ascii.eqb_eq in Hq. subst c.
        change ((String backslash (String dquote EmptyString)
                 ++ escapeQueryValue s)%string)
          with (String backslash (String dquote (escapeQueryValue s))).
        cbn [unescapeQueryValue]. rewrite Ascii.eqb_refl. by rewrite IH.
      + change ((String c EmptyString ++ escapeQueryValue s)%string)
          with (String c (escapeQueryValue s)).
        cbn [unescapeQueryValue]. by rewrite Hb, IH. }
  split; [exact Hround|]. split; [|split].
  - intros v w Heq. rewrite <- (Hround v), <- (Hround w). by rewrite Heq.
  - induction raw as [|c s IH]; [reflexivity|].
    rewrite escapeQueryValue_cons. unfold escapeChar.
    destruct (Ascii.eqb c backslash) eqn:Hb.
    + change ((String backslash (String backslash EmptyString)
               ++ escapeQueryValue s)%string)
        with (String backslash (String backslash (escapeQueryValue s))).
      cbn [quotesEscaped]. by rewrite Ascii.eqb_refl.
    + destruct (Ascii.eqb c dquote) eqn:Hq.
      * change ((String backslash (String dquote EmptyString)
                 ++ escapeQueryValue s)%string)
          with (String backslash (String dquote (escapeQueryValue s))).
        cbn [quotesEscaped]. by rewrite Ascii.eqb_refl.
      * change ((String c EmptyString ++ escapeQueryValue s)%string)
          with (String c (escapeQueryValue s)).
        cbn [quotesEscaped]. by rewrite Hb, Hq.
  - exact buildSkuQuery_blank.
Qed.

End SkuQuery.

(** ** The cost pattern *)

Section CostPattern.

Lemma prefixCI_spec (pat : string) : forall s,
  prefixCI pat s = true
  <-> exists mid post, s = (mid ++ post)%string /\ sameLetters mid pat.
Proof.
  induction pat as [|p pat IH]; intros s.
  - split; [|done]. intros _. by exists EmptyString, s.
  - destruct s as [|c s]; simpl.
    + split; [discriminate|]. intros (mid & post & Hs & Hmid).
      destruct mid; [discriminate Hmid | discriminate Hs].
    + rewrite andb_true_iff, IH, Ascii.eqb_eq. split.
      * intros (Hc & mid & post & -> & Hmid).
        exists (String c mid), post. split; [reflexivity|].
        unfold sameLetters in *. simpl. by rewrite Hc, Hmid.
      * intros (mid & post & Hs & Hmid).
        destruct mid as [|m mid]; [discriminate Hmid|].
        injection Hs as -> ->. injection Hmid as Hc Hmid.
        split; [done|]. by exists mid, post.
Qed.

Lemma testCI_spec (pat s : string) :
  testCI pat s = true
  <-> exists pre mid post, s = (pre ++ mid ++ post)%string /\ sameLetters mid pat.
Proof.
  induction s as [|c s IH].
  - simpl. rewrite orb_false_r, prefixCI_spec. split.
    + intros (mid & post & Hs & Hmid). by exists EmptyString, mid, post.
    + intros (pre & mid & post & Hs & Hmid).
      destruct pre; [by exists mid, post | discriminate Hs].
  - cbn [testCI]. rewrite orb_true_iff, prefixCI_spec, IH. split.
    + intros [(mid & post & Hs & Hmid) | (pre & mid & post & -> & Hmid)].
      * by exists EmptyString, mid, post.
      * by exists (String c pre), mid, post.
    + intros (pre & mid & post & Hs & Hmid). destruct pre as [|x pre].
      * left. by exists mid, post.
      * right. injection Hs as -> ->. by exists pre, mid, post.
Qed.

Lemma append_assoc (a b c : string) :
  ((a ++ b) ++ c)%string = (a ++ b ++ c)%string.
Proof.
  induction a as [|x a IH]; [reflexivity|].
  change (String x ((a ++ b) ++ c)%string = String x (a ++ b ++ c)%string).
  by rewrite IH.
Qed.

Lemma unitCost_is_cost (s : string) :
  testCI "unitCost" s = true -> testCI "cost" s = true.
Proof.
  rewrite !testCI_spec. intros (pre & mid & post & -> & Hmid).
  destruct mid as [|m1 [|m2 [|m3 [|m4 [|m5 [|m6 [|m7 [|m8 [|m9 mid]]]]]]]]];
    try discriminate Hmid.
  injection Hmid as _ _ _ _ H5 H6 H7 H8.
  exists (pre ++ String m1 (String m2 (String m3 (String m4 EmptyString))))%string,
         (String m5 (String m6 (String m7 (String m8 EmptyString)))), post.
  split.
  - by rewrite append_assoc.
  - unfold sameLetters. simpl. by rewrite H5, H6, H7, H8.
Qed.

(** X8. The case-insensitive pattern test is a substring test up to the case
    of letters: it succeeds exactly when the text holds the pattern somewhere,
    letters compared without case. The alternative [unitCost] of the cost
    pattern never decides: a text matches the cost pattern iff it holds
    [inventoryItem] or [cost] up to case; and [hasCostError] holds iff some
    error matches in its message or in its field path joined by dots. *)
Theorem costPattern_spec :
  (forall pat s,
     testCI pat s = true
     <-> exists pre mid post, s = (pre ++ mid ++ post)%string /\ sameLetters mid pat)
  /\ (forall s, costPattern s = testCI "inventoryItem" s || testCI "cost" s)
  /\ (forall userErrors,
        hasCostError userErrors = true
        <-> exists e, e ∈ userErrors
              /\ (costPattern (ue_message e) = true
                  \/ costPattern (String.concat "." (default [] (ue_field e))) = true))
  /\ hasCostError [] = false.
Proof.
  split; [exact testCI_spec|]. split; [|split; [|reflexivity]].
  - intros s. unfold costPattern.
    destruct (testCI "unitCost" s) eqn:Hunit; [|by rewrite orb_false_r].
    rewrite (unitCost_is_cost s Hunit). by rewrite !orb_true_r.
  - intros userErrors. unfold hasCostError. rewrite existsb_exists. split.
    + intros (e & He & Hp). exists e. split; [by apply list_elem_of_In|].
      by apply orb_true_iff.
    + intros (e & He & Hp). exists e. split; [by apply list_elem_of_In|].
      by apply orb_true_iff.
Qed.

End CostPattern.

(** ** Every included variant is reported *)

Section PricingReport.
Context `{Runtime}.

Lemma forEach_push_all {T} (items : list T) (mk : T -> UpdateResponse)
    (body : T -> M (list UpdateResponse) unit) :
  (forall x st, body x st = (Resolved tt, (fst st, snd st ++ [mk x]))) ->
  forall log rs,
    forEach items body (log, rs) = (Resolved tt, (log, rs ++ map mk items)).
Proof.
  intros Hbody. induction items as [|x items IH]; intros log rs; simpl.
  - by rewrite app_nil_r.
  - unfold bind. rewrite Hbody. simpl. rewrite IH. by rewrite <- app_assoc.
Qed.

Lemma pricingBatch_pushes admin productId (batch : list NormalizedProduct) log rs :
  exists o log' rs',
    pricingBatch admin productId batch (log, rs) = (o, (log', rs ++ rs'))
    /\ ((o = Resolved tt /\ map r_sku rs' = map sku batch)
        \/ ((exists e, o = Threw e) /\ rs' = [])).
Proof.
  unfold pricingBatch. unfold bind at 1. unfold bulkUpdate at 1, perform. simpl.
  destruct (productVariantsBulkUpdate admin log productId (map withCost batch))
    as [data | err].
  - destruct (nonEmpty (default [] data) && hasCostError (default [] data)) eqn:Hcost.
    + unfold bind at 1. unfold bulkUpdate at 1, perform. simpl.
      destruct (productVariantsBulkUpdate admin _ productId (map priceOnly batch))
        as [priceData | err].
      * unfold bind at 1. rewrite costLoop_spec. simpl.
        rewrite fallbackLoop_spec. eexists _, _, _. split; [reflexivity|].
        left. split; [reflexivity|]. rewrite map_map. reflexivity.
      * exists (Threw err). eexists _, []. rewrite app_nil_r.
        split; [reflexivity|]. right. split; [by exists err | reflexivity].
    + destruct (default [] data) as [|e errs]; simpl.
      * rewrite (forEach_push_all batch
                   (fun v => {| r_sku := sku v; r_updated := true;
                                r_message := "Pricing updated"; r_error := None |}));
          [|by intros v []].
        eexists _, _, _. split; [reflexivity|]. left. split; [reflexivity|].
        by rewrite map_map.
      * rewrite (forEach_push_all batch
                   (fun v => {| r_sku := sku v; r_updated := false;
                                r_message := ue_message e;
                                r_error := Some (ue_message e) |}));
          [|by intros v []].
        eexists _, _, _. split; [reflexivity|]. left. split; [reflexivity|].
        by rewrite map_map.
  - exists (Threw err). eexists _, []. rewrite app_nil_r.
    split; [reflexivity|]. right. split; [by exists err | reflexivity].
Qed.

Lemma pricingLoop_pushes admin productId (batches : list (list NormalizedProduct)) :
  forall log rs, exists o log' rs',
    forEach batches (pricingBatch admin productId) (log, rs) = (o, (log', rs ++ rs'))
    /\ ((o = Resolved tt /\ map r_sku rs' = map sku (concat batches))
        \/ ((exists e, o = Threw e)
            /\ exists k, (k < length batches)%nat
                 /\ map r_sku rs' = map sku (concat (take k batches)))).
Proof.
  induction batches as [|b batches IH]; intros log rs.
  - exists (Resolved tt), log, []. rewrite app_nil_r. split; [reflexivity|]. by left.
  - simpl forEach. unfold bind.
    destruct (pricingBatch_pushes admin productId b log rs)
      as (o & log1 & rs1 & Heq & [[-> Hs] | [[e ->] ->]]); rewrite Heq.
    + destruct (IH log1 (rs ++ rs1)) as (o2 & log2 & rs2 & Heq2 & Hcase).
      rewrite Heq2. exists o2, log2, (rs1 ++ rs2). rewrite app_assoc.
      split; [reflexivity|].
      destruct Hcase as [[-> Hs2] | [He (k & Hk & Hs2)]].
      * left. split; [reflexivity|]. simpl. by rewrite !map_app, Hs, Hs2.
      * right. split; [exact He|]. exists (S k). split; [simpl; lia|].
        simpl. by rewrite !map_app, Hs, Hs2.
    + exists (Threw e), log1, []. split; [reflexivity|]. right.
      split; [by exists e|]. exists 0%nat. split; [simpl; lia | reflexivity].
Qed.

Lemma chunks_of_single {T} (fuel size : nat) (rest : list T) :
  (length rest <= size)%nat -> (length (chunks_of fuel size rest) <= 1)%nat.
Proof.
  intros Hlen. destruct fuel as [|fuel]; [simpl; lia|].
  destruct rest as [|x rest]; [simpl; lia|].
  simpl chunks_of. rewrite drop_ge by exact Hlen.
  destruct fuel; simpl; lia.
Qed.

Lemma concat_take_elem {T} (k : nat) (xss : list (list T)) (x : T) :
  x ∈ concat (take k xss) -> x ∈ concat xss.
Proof.
  rewrite <- (take_drop k xss) at 2. rewrite concat_app, elem_of_app. by left.
Qed.

Lemma pricingGroup_pushes admin (group : string * list NormalizedProduct) log rs :
  exists log' rs' pre,
    pricingGroup admin group (log, rs) = (Resolved tt, (log', rs ++ rs'))
    /\ map r_sku rs' = pre ++ map sku (snd group)
    /\ (forall s, s ∈ pre -> s ∈ map sku (snd group))
    /\ ((length (snd group) <= 100)%nat -> pre = []).
Proof.
  destruct group as [productId variants]. unfold pricingGroup, tryCatch. simpl.
  unfold bind at 1. unfold variantBatchSize.
  rewrite chunkArray_eq by lia. simpl.
  destruct (pricingLoop_pushes admin productId (chunks_of (length variants) 100 variants)
              log rs)
    as (o & log1 & rs1 & Heq & [[-> Hs] | [[e ->] (k & Hk & Hs)]]); rewrite Heq.
  - exists log1, rs1, []. split; [reflexivity|].
    rewrite chunks_of_concat in Hs by lia. split; [exact Hs|].
    split; [|done]. intros s Hin. by apply elem_of_nil in Hin.
  - rewrite (forEach_push_all variants
               (fun v => {| r_sku := sku v; r_updated := false;
                            r_message := "API error";
                            r_error := Some (errMessage e) |}));
      [|by intros v []].
    exists log1, (rs1 ++ map (fun v => {| r_sku := sku v; r_updated := false;
                                         r_message := "API error";
                                         r_error := Some (errMessage e) |}) variants),
           (map sku (concat (take k (chunks_of (length variants) 100 variants)))).
    rewrite app_assoc. split; [reflexivity|]. split; [|split].
    + by rewrite map_app, Hs, map_map.
    + intros s Hin. apply list_elem_of_fmap in Hin. destruct Hin as (v & -> & Hv).
      apply list_elem_of_fmap. exists v. split; [reflexivity|].
      apply concat_take_elem in Hv. by rewrite chunks_of_concat in Hv by lia.
    + intros Hlen.
      pose proof (chunks_of_single (length variants) 100 variants Hlen) as Hone.
      assert (k = 0)%nat as -> by lia. reflexivity.
Qed.

Lemma pricingGroups_pushes admin (groups : list (string * list NormalizedProduct)) :
  forall log rs, exists log' rs',
    forEach groups (pricingGroup admin) (log, rs) = (Resolved tt, (log', rs ++ rs'))
    /\ (forall s, s ∈ map r_sku rs' <-> s ∈ map sku (concat (map snd groups)))
    /\ (length (concat (map snd groups)) <= length rs')%nat
    /\ (Forall (fun g => (length (snd g) <= 100)%nat) groups ->
        map r_sku rs' = map sku (concat (map snd groups))).
Proof.
  induction groups as [|g groups IH]; intros log rs.
  - exists log, []. rewrite app_nil_r. split; [reflexivity|]. simpl.
    split; [done|]. split; [lia | done].
  - simpl forEach. unfold bind.
    destruct (pricingGroup_pushes admin g log rs)
      as (log1 & rs1 & pre & Heq & Hs & Hpre & Hexact).
    rewrite Heq.
    destruct (IH log1 (rs ++ rs1)) as (log2 & rs2 & Heq2 & Hmem & Hlen & Hall).
    rewrite Heq2. exists log2, (rs1 ++ rs2). rewrite app_assoc.
    split; [reflexivity|]. simpl. split; [|split].
    + intros s. rewrite !map_app, !elem_of_app, Hs, elem_of_app, Hmem.
      split; [|tauto]. intros [[Hin | Hin] | Hin]; auto.
    + rewrite !length_app, <- (length_map r_sku rs1), Hs, length_app, length_map. lia.
    + intros Hsmall. apply Forall_cons in Hsmall. destruct Hsmall as [Hg Hsmall].
      rewrite !map_app, Hs, (Hexact Hg), (Hall Hsmall). reflexivity.
Qed.

Lemma updateFirst_skus (p : UpdateResponse -> bool) (f : UpdateResponse -> UpdateResponse)
    (rs : list UpdateResponse) :
  (forall r, r_sku (f r) = r_sku r) ->
  map r_sku (updateFirst p f rs) = map r_sku rs.
Proof.
  intros Hf. induction rs as [|r rs IH]; simpl; [reflexivity|].
  destruct (p r); simpl; [by rewrite Hf | by rewrite IH].
Qed.

Lemma mergeStock_keeps productsToUpdate userErrors change log rs :
  exists rs',
    mergeStock productsToUpdate userErrors change (log, rs) = (Resolved tt, (log, rs'))
    /\ map r_sku rs' = map r_sku rs.
Proof.
  unfold mergeStock, bind, get. simpl.
  destruct (find _ rs); [|by exists rs].
  destruct userErrors as [|e errs]; simpl; eexists; (split; [reflexivity|]);
    by apply updateFirst_skus.
Qed.

Lemma forEach_keeps {T} (items : list T) (calls : T -> list Call)
    (body : T -> M (list UpdateResponse) unit) :
  (forall x log rs, exists rs',
     body x (log, rs) = (Resolved tt, (log ++ calls x, rs'))
     /\ map r_sku rs' = map r_sku rs) ->
  forall log rs, exists rs',
    forEach items body (log, rs)
    = (Resolved tt, (log ++ concat (map calls items), rs'))
    /\ map r_sku rs' = map r_sku rs.
Proof.
  intros Hbody. induction items as [|x items IH]; intros log rs; simpl.
  - exists rs. by rewrite app_nil_r.
  - unfold bind. destruct (Hbody x log rs) as (rs1 & -> & Hs1).
    destruct (IH (log ++ calls x) rs1) as (rs2 & -> & Hs2). exists rs2.
    rewrite app_assoc. split; [reflexivity | by rewrite Hs2].
Qed.

Lemma stockBatch_keeps admin productsToUpdate (batch : list InventoryChange) log rs :
  exists rs',
    tryCatch
      (let* data := adjustQuantities admin batch in
       forEach batch (mergeStock productsToUpdate (default [] data)))
      (fun _ => ret tt) (log, rs)
    = (Resolved tt, (log ++ [adjustCall batch], rs'))
    /\ map r_sku rs' = map r_sku rs.
Proof.
  unfold tryCatch, bind at 1, adjustQuantities, perform. simpl.
  fold (adjustCall batch).
  destruct (inventoryAdjustQuantities admin log batch) as [data | err]; simpl.
  - destruct (forEach_keeps batch (fun _ => [])
                (mergeStock productsToUpdate (default [] data)))
      with (log := (log ++ [adjustCall batch])) (rs := rs)
      as (rs1 & Heq & Hs1).
    + intros change log0 rs0.
      destruct (mergeStock_keeps productsToUpdate (default [] data) change log0 rs0)
        as (rs' & Heq & Hs).
      exists rs'. by rewrite app_nil_r.
    + rewrite Heq. exists rs1. split; [|exact Hs1].
      replace (concat (map (fun _ : InventoryChange => @nil Call) batch)) with (@nil Call).
      * by rewrite app_nil_r.
      * clear. by induction batch.
  - by exists rs.
Qed.

Lemma concat_singletons {A B} (f : A -> B) (xs : list A) :
  concat (map (fun x => [f x]) xs) = map f xs.
Proof. induction xs as [|x xs IH]; simpl; [reflexivity | by rewrite IH]. Qed.

Lemma stockPass_keeps admin productsToUpdate locationId log rs :
  let stockChanges :=
    List.filter hasDelta (map (toChange locationId) productsToUpdate) in
  exists rs',
    stockPass admin productsToUpdate locationId (log, rs)
    = (Resolved tt,
       (log ++ map adjustCall (chunks_of (length stockChanges) 100 stockChanges), rs'))
    /\ map r_sku rs' = map r_sku rs.
Proof.
  intros stockChanges. unfold stockPass. fold stockChanges. clearbody stockChanges.
  destruct (nonEmpty stockChanges) eqn:Hchanges.
  2:{ destruct stockChanges; [|discriminate Hchanges].
      exists rs. simpl. by rewrite app_nil_r. }
  unfold bind at 1. rewrite chunkArray_eq by lia. unfold liftOption.
  rewrite <- (concat_singletons adjustCall).
  apply forEach_keeps. intros batch log0 rs0. apply stockBatch_keeps.
Qed.

(** X9. The pricing action always returns, whatever the gateway answers or
    rejects, with or without the stock pass. It reports the SKUs of the
    variants marked for update and no other SKU, with at least one outcome
    per marked variant; the error is set only for an empty submission. When
    no parent product has more than 100 marked variants, there is exactly one
    outcome per marked variant, in the order of the groups. *)
Theorem updatePricing_reports admin (products : list NormalizedProduct)
    (withStock : bool) (locationId : option string) (log : list Call) :
  let selected := List.filter update products in
  let grouped := groupProductsByParent selected in
  exists results log',
    start (updatePricing admin products withStock locationId) [] log
    = (Resolved {| a_results := results;
                   a_error := if (length products =? 0)%nat
                              then Some "No products to update" else None |}, log')
    /\ (forall s, s ∈ map r_sku results <-> s ∈ map sku selected)
    /\ (length selected <= length results)%nat
    /\ (Forall (fun g => (length (snd g) <= 100)%nat) grouped ->
        map r_sku results = map sku (concat (map snd grouped))
        /\ map r_sku results ≡ₚ map sku selected).
Proof.
  intros selected grouped.
  assert (Hperm : concat (map snd grouped) ≡ₚ selected).
  { unfold grouped, groupProductsByParent. by rewrite groupLoop_concat. }
  unfold updatePricing. destruct (length products =? 0)%nat eqn:Hempty.
  - apply Nat.eqb_eq in Hempty. destruct products; [|discriminate Hempty].
    exists [], log. split; [reflexivity|]. simpl. split; [done|]. split; [lia|].
    intros _. split; reflexivity.
  - fold selected. fold grouped.
    destruct (pricingGroups_pushes admin grouped log [])
      as (log1 & rs1 & Heq & Hmem & Hlen & Hall).
    simpl in Heq.
    assert (Hstock : exists log2 rs2,
              (if withStock then stockPass admin selected locationId else ret tt)
                (log1, rs1) = (Resolved tt, (log2, rs2))
              /\ map r_sku rs2 = map r_sku rs1).
    { destruct withStock; [|by exists log1, rs1].
      destruct (stockPass_keeps admin selected locationId log1 rs1) as (rs2 & Heq2 & Hs2).
      by eexists _, rs2. }
    destruct Hstock as (log2 & rs2 & Heq2 & Hkeep).
    exists rs2, log2. split.
    + apply (start_eq _ _ _ _ (log2, rs2)). unfold bind at 1. rewrite Heq.
      unfold bind at 1. rewrite Heq2. reflexivity.
    + rewrite Hkeep. split; [|split].
      * intros s. rewrite Hmem. by rewrite Hperm.
      * rewrite <- (length_map r_sku rs2), Hkeep, length_map.
        by rewrite <- Hperm.
      * intros Hsmall. split; [by apply Hall|]. rewrite (Hall Hsmall).
        by rewrite Hperm.
Qed.

End PricingReport.

(** ** Reading back a quoted table *)

Section QuotedTable.

Lemma append_nil_r (s : string) : (s ++ EmptyString)%string = s.
Proof.
  induction s as [|c s IH]; [reflexivity|].
  change (String c (s ++ EmptyString)%string = String c s). by rewrite IH.
Qed.

Lemma append_cons (c : ascii) (a b : string) :
  (String c a ++ b)%string = String c (a ++ b)%string.
Proof. reflexivity. Qed.

Lemma noLineFeed_app (a b : string) :
  noLineFeed (a ++ b) = noLineFeed a && noLineFeed b.
Proof.
  induction a as [|c a IH]; [reflexivity|].
  rewrite append_cons. simpl. rewrite IH. by rewrite andb_assoc.
Qed.

Lemma noLineFeed_escapeCell (cell : string) :
  noLineFeed (escapeCell cell) = noLineFeed cell.
Proof.
  induction cell as [|c cell IH]; [reflexivity|]. simpl.
  destruct (Ascii.eqb_spec c dquote) as [-> | Hc]; simpl; by rewrite IH.
Qed.

Lemma noLineFeed_writeRow (row : list string) :
  forallb noLineFeed row = true -> noLineFeed (writeRow row) = true.
Proof.
  unfold writeRow. induction row as [|cell row IH]; [reflexivity|].
  intros Hrow. simpl in Hrow. apply andb_true_iff in Hrow. destruct Hrow as [Hcell Hrow].
  assert (Hq : noLineFeed (quoteCell cell) = true).
  { unfold quoteCell. simpl. by rewrite noLineFeed_app, noLineFeed_escapeCell, Hcell. }
  destruct row as [|cell2 row]; [exact Hq|].
  change (noLineFeed (quoteCell cell ++ String comma EmptyString
                        ++ String.concat (String comma EmptyString)
                             (map quoteCell (cell2 :: row))) = true).
  rewrite !noLineFeed_app, Hq, (IH Hrow). reflexivity.
Qed.

Lemma splitLines_noLineFeed (s : string) : forall current,
  noLineFeed s = true -> splitLines s current = [(current ++ s)%string].
Proof.
  induction s as [|c s IH]; intros current Hs.
  - simpl. by rewrite append_nil_r.
  - simpl in Hs. apply andb_true_iff in Hs. destruct Hs as [Hc Hs].
    apply negb_true_iff in Hc. rewrite splitLines_cons, Hc.
    assert (Hnext : splitLines s (snoc current c) = [(current ++ String c s)%string]).
    { rewrite (IH _ Hs). unfold snoc. by rewrite append_assoc. }
    destruct (Ascii.eqb c CR); [|exact Hnext].
    destruct s as [|c2 s]; [exact Hnext|].
    simpl in Hs. apply andb_true_iff in Hs. destruct Hs as [Hc2 _].
    apply negb_true_iff in Hc2. by rewrite Hc2.
Qed.

Lemma scanLine_escaped (cell : string) : forall rest row current,
  afterQuote rest ->
  scanLine (escapeCell cell ++ String dquote rest) row current true
  = scanLine rest row (current ++ cell) false.
Proof.
  induction cell as [|c cell IH]; intros rest row current Hrest.
  - change (escapeCell EmptyString ++ String dquote rest)%string
      with (String dquote rest).
    rewrite scanLine_cons, Ascii.eqb_refl, append_nil_r.
    destruct rest as [|next rest]; [reflexivity|].
    simpl in Hrest. by rewrite Hrest.
  - simpl escapeCell. destruct (Ascii.eqb c dquote) eqn:Hc.
    + apply Ascii.eqb_eq in Hc. subst c.
      rewrite !append_cons, scanLine_cons, Ascii.eqb_refl. simpl andb. cbv iota.
      rewrite (IH rest row (snoc current dquote) Hrest).
      unfold snoc. by rewrite append_assoc.
    + rewrite append_cons, scanLine_cons, Hc. simpl negb. rewrite andb_false_r.
      rewrite (IH rest row (snoc current c) Hrest).
      unfold snoc. by rewrite append_assoc.
Qed.

Lemma scanLine_quoted (cell rest : string) row :
  afterQuote rest ->
  scanLine (quoteCell cell ++ rest) row EmptyString false
  = scanLine rest row cell false.
Proof.
  intros Hrest. unfold quoteCell, dq.
  rewrite append_cons, append_assoc, append_cons.
  change (EmptyString ++ rest)%string with rest.
  rewrite scanLine_cons, Ascii.eqb_refl. simpl andb. simpl negb.
  pose proof (scanLine_escaped cell rest row EmptyString Hrest) as Hscan.
  change (EmptyString ++ cell)%string with cell in Hscan. rewrite <- Hscan.
  by destruct (escapeCell cell ++ String dquote rest)%string.
Qed.

Lemma scanLine_writeRow (cells : list string) : forall row,
  cells <> [] ->
  scanLine (writeRow cells) row EmptyString false = row ++ map trim cells.
Proof.
  unfold writeRow. induction cells as [|cell cells IH]; intros row Hne; [done|].
  destruct cells as [|cell2 cells].
  - change (scanLine (quoteCell cell) row EmptyString false = row ++ [trim cell]).
    rewrite <- (append_nil_r (quoteCell cell)).
    by rewrite scanLine_quoted.
  - change (scanLine (quoteCell cell ++ String comma
                        (String.concat (String comma EmptyString)
                           (map quoteCell (cell2 :: cells))))
              row EmptyString false
            = row ++ trim cell :: map trim (cell2 :: cells)).
    rewrite scanLine_quoted by reflexivity.
    rewrite scanLine_cons.
    change (Ascii.eqb comma dquote) with false. rewrite Ascii.eqb_refl.
    simpl andb. cbv iota. rewrite IH by done. by rewrite <- app_assoc.
Qed.

Lemma trimEnd_nonBlank (c : ascii) (rest : string) :
  isWhiteSpace c = false -> trimEnd (String c rest) <> EmptyString.
Proof.
  intros Hc. simpl. rewrite Hc. by destruct (trimEnd rest).
Qed.

Lemma writeRow_nonBlank (cells : list string) :
  cells <> [] -> String.eqb (trim (writeRow cells)) EmptyString = false.
Proof.
  intros Hne. apply String.eqb_neq.
  assert (Hshape : exists rest, writeRow cells = String dquote rest).
  { unfold writeRow. destruct cells as [|cell [|cell2 cells]]; [done| |]; by eexists. }
  destruct Hshape as [rest ->]. unfold trim.
  change (trimStart (String dquote rest)) with (String dquote rest).
  by apply trimEnd_nonBlank.
Qed.

Lemma parseCSV_writeRow (cells : list string) :
  writable cells = true -> parseCSV (writeRow cells) = [cells].
Proof.
  unfold writable. intros Hrow. apply andb_true_iff in Hrow. destruct Hrow as [Hne Hcells].
  assert (Hne' : cells <> []) by (by destruct cells).
  assert (Hlf : forallb noLineFeed cells = true).
  { apply forallb_forall. intros cell Hin.
    apply (proj1 (forallb_forall _ _) Hcells) in Hin.
    by apply andb_true_iff in Hin as [_ Hin]. }
  assert (Htrim : map trim cells = cells).
  { rewrite <- (map_id cells) at 2. apply map_ext_in. intros cell Hin.
    apply (proj1 (forallb_forall _ _) Hcells) in Hin.
    apply andb_true_iff in Hin as [Hin _]. by apply String.eqb_eq in Hin. }
  unfold parseCSV.
  rewrite (splitLines_noLineFeed _ EmptyString (noLineFeed_writeRow _ Hlf)).
  change (EmptyString ++ writeRow cells)%string with (writeRow cells).
  simpl parseLines. rewrite (writeRow_nonBlank _ Hne').
  by rewrite (scanLine_writeRow cells [] Hne'), Htrim.
Qed.

(** X10. [parseCSV] reads back a table written the usual way: with every cell
    between quotes, the quotes inside a cell doubled, commas between the
    cells and a line feed, alone or after a carriage return, between the
    rows, the rows returned are the rows written, provided every row has a
    cell and every cell is trimmed and holds no line feed. Commas, quotes and
    carriage returns inside the cells come back unchanged. *)
Theorem parseCSV_reads_quoted (rows : list (list string)) :
  forallb writable rows = true ->
  parseCSV (writeCSV (String LF EmptyString) rows) = rows
  /\ parseCSV (writeCSV (String CR (String LF EmptyString)) rows) = rows.
Proof.
  assert (Hsep : forall sep,
    sep = String LF EmptyString \/ sep = String CR (String LF EmptyString) ->
    forallb writable rows = true -> parseCSV (writeCSV sep rows) = rows).
  { intros sep Hsep. unfold writeCSV.
    induction rows as [|row rows IH]; intros Hrows; [reflexivity|].
    simpl in Hrows. apply andb_true_iff in Hrows. destruct Hrows as [Hrow Hrows].
    destruct rows as [|row2 rows].
    - by apply parseCSV_writeRow.
    - change (parseCSV (writeRow row ++ sep
                          ++ String.concat sep (map writeRow (row2 :: rows)))
              = row :: row2 :: rows).
      unfold parseCSV.
      rewrite (splitLines_separator sep _ Hsep (writeRow row) EmptyString []).
      rewrite parseLines_acc. fold (parseCSV (writeRow row)).
      rewrite (parseCSV_writeRow _ Hrow).
      fold (parseCSV (String.concat sep (map writeRow (row2 :: rows)))).
      by rewrite (IH Hrows). }
  intros Hrows. split; apply Hsep; auto.
Qed.

Lemma parseCSV_reads_quoted_witness :
  forallb writable [["sku"; "cost, landed"]; [heSaidHi; ""]] = true
  /\ parseCSV (writeCSV (String LF EmptyString) [["sku"; "cost, landed"]; [heSaidHi; ""]])
     = [["sku"; "cost, landed"]; [heSaidHi; ""]].
Proof.
  split; [reflexivity|].
  apply (parseCSV_reads_quoted [["sku"; "cost, landed"]; [heSaidHi; ""]]).
  reflexivity.
Defined.

End QuotedTable.

(** ** The queries of the lookup *)

Section LookupCalls.
Context `{Runtime}.

Lemma lookupBatch_calls admin csvProducts threshold locationId skuBatch log st :
  exists o st',
    lookupBatch admin csvProducts threshold locationId skuBatch (log, st)
    = (o, (log ++ map (queryCall locationId) (List.filter asked [skuBatch]), st'))
    /\ (o = Resolved tt \/ ((exists e, o = Threw e) /\ asked skuBatch = true)).
Proof.
  unfold lookupBatch. simpl List.filter. unfold asked.
  destruct (truthy (buildSkuQuery skuBatch)) eqn:Hq; simpl.
  - unfold bind, getProducts, perform. simpl. fold (queryCall locationId skuBatch).
    destruct (getProductsBySku admin log (buildSkuQuery skuBatch) (orDefault locationId ""))
      as [data | err]; simpl.
    + eexists _, _. split; [reflexivity | by left].
    + eexists _, _. split; [reflexivity|]. right. split; [by exists err | reflexivity].
  - exists (Resolved tt), st. rewrite app_nil_r. split; [reflexivity | by left].
Qed.

Lemma lookupLoop_calls admin csvProducts threshold locationId
    (batches : list (list string)) :
  forall log st, exists o st' sent,
    forEach batches (lookupBatch admin csvProducts threshold locationId) (log, st)
    = (o, (log ++ map (queryCall locationId) sent, st'))
    /\ sent `prefix_of` List.filter asked batches
    /\ (o = Resolved tt -> sent = List.filter asked batches).
Proof.
  induction batches as [|b batches IH]; intros log st.
  - exists (Resolved tt), st, []. rewrite app_nil_r. by split.
  - simpl forEach. unfold bind.
    destruct (lookupBatch_calls admin csvProducts threshold locationId b log st)
      as (o & st1 & Heq & Hcase).
    rewrite Heq. change (b :: batches) with ([b] ++ batches).
    rewrite (List.filter_app asked [b] batches).
    destruct Hcase as [-> | [[e ->] Hb]].
    + destruct (IH (log ++ map (queryCall locationId) (List.filter asked [b])) st1)
        as (o2 & st2 & sent & Heq2 & Hprefix & Hall).
      rewrite Heq2. exists o2, st2, (List.filter asked [b] ++ sent).
      rewrite map_app, app_assoc. split; [reflexivity|]. split.
      * by apply prefix_app.
      * intros Ho. by rewrite (Hall Ho).
    + exists (Threw e), st1, (List.filter asked [b]). split; [reflexivity|].
      split; [by apply prefix_app_r | discriminate].
Qed.

Lemma filter_all {T} (p : T -> bool) (xs : list T) :
  (forall x, x ∈ xs -> p x = true) -> List.filter p xs = xs.
Proof.
  induction xs as [|x xs IH]; intros Hall; simpl; [reflexivity|].
  rewrite (Hall x) by (by left). rewrite IH; [reflexivity|].
  intros y Hy. apply Hall. by right.
Qed.

Lemma extractRow_sku skuCol costCol soh row product :
  extractRow skuCol costCol soh row = Some product ->
  trim (csv_sku product) <> EmptyString.
Proof.
  unfold extractRow. destruct (length row =? 0)%nat; [discriminate|].
  destruct (row !! skuCol) as [cell|]; simpl; [|discriminate].
  destruct (trim cell) eqn:Hcell; simpl; [discriminate|].
  intros [= <-]. simpl. rewrite <- Hcell, trim_idempotent. by rewrite Hcell.
Qed.

(** X11. The lookup only reads: the calls it adds to the log are product
    queries, one for each batch of 50 SKUs whose query is not empty, in batch
    order, each with the query built from its batch; when a query is rejected
    the calls made are those up to that query. When no SKU is blank every
    batch is asked for, and the records produced by [extractProductsFromCSV]
    never have a blank SKU. *)
Theorem lookup_calls (admin : Admin) (csvProducts : list CSVProduct)
    (threshold : float) (locationId : option string) (log : list Call) :
  let batches := chunks_of (length csvProducts) 50 (map csv_sku csvProducts) in
  let run := start (lookupProducts admin csvProducts threshold locationId)
                   ([], ∅) log in
  (exists sent,
     sent `prefix_of` List.filter asked batches
     /\ snd run = log ++ map (queryCall locationId) sent)
  /\ (forall data,
        fst run = Resolved data ->
        snd run = log ++ map (queryCall locationId) (List.filter asked batches))
  /\ (Forall (fun p => trim (csv_sku p) <> EmptyString) csvProducts ->
      List.filter asked batches = batches)
  /\ (forall csvData fields,
        Forall (fun p => trim (csv_sku p) <> EmptyString)
               (extractProductsFromCSV csvData fields)).
Proof.
  intros batches run.
  assert (Hrun : exists o st sent,
            lookupProducts admin csvProducts threshold locationId (log, ([], ∅))
            = (o, (log ++ map (queryCall locationId) sent, st))
            /\ sent `prefix_of` List.filter asked batches
            /\ ((exists data, o = Resolved data) -> sent = List.filter asked batches)).
  { unfold lookupProducts. destruct (length csvProducts =? 0)%nat eqn:Hlen.
    - apply Nat.eqb_eq in Hlen. apply length_zero_iff_nil in Hlen.
      subst batches. subst csvProducts.
      eexists _, _, []. rewrite app_nil_r. split; [reflexivity|]. by split.
    - unfold bind at 1. rewrite chunkArray_eq by lia. simpl liftOption. cbv beta iota.
      rewrite length_map. fold batches. unfold bind at 1.
      destruct (lookupLoop_calls admin csvProducts threshold locationId batches log ([], ∅))
        as (o & st1 & sent & Heq & Hprefix & Hall).
      match goal with
      | |- context [forEach batches ?body ?st0] =>
          change (forEach batches body st0
                  = (o, (log ++ map (queryCall locationId) sent, st1))) in Heq
      end.
      rewrite Heq. destruct o as [[] | e |].
      + eexists _, _, sent. split; [reflexivity|]. split; [exact Hprefix|].
        intros _. by apply Hall.
      + eexists _, _, sent. split; [reflexivity|]. split; [exact Hprefix|].
        intros [data Hdata]. discriminate Hdata.
      + eexists _, _, sent. split; [reflexivity|]. split; [exact Hprefix|].
        intros [data Hdata]. discriminate Hdata. }
  destruct Hrun as (o & st & sent & Heq & Hprefix & Hall).
  assert (Hstart : run = (o, log ++ map (queryCall locationId) sent)).
  { subst run. by rewrite (start_eq _ _ _ _ _ Heq). }
  rewrite Hstart. simpl. split; [by exists sent|]. split; [|split].
  - intros data ->. rewrite Hall; [reflexivity | by exists data].
  - intros Hskus. apply filter_all. intros b Hb.
    destruct (asked b) eqn:Hasked; [reflexivity|]. exfalso.
    apply buildSkuQuery_blank in Hasked.
    pose proof (chunks_of_bounds (length csvProducts) 50 (map csv_sku csvProducts)
                  ltac:(lia)) as Hbounds.
    rewrite Forall_forall in Hbounds. destruct (Hbounds b Hb) as [Hne _].
    destruct b as [|s b]; [done|].
    apply Forall_cons in Hasked. destruct Hasked as [Hs _].
    assert (Hin : s ∈ concat batches).
    { apply list_elem_of_In, in_concat. exists (s :: b).
      split; [by apply list_elem_of_In | by left]. }
    subst batches. rewrite chunks_of_concat in Hin by (rewrite ?length_map; lia).
    apply list_elem_of_fmap in Hin. destruct Hin as (p & -> & Hp).
    rewrite Forall_forall in Hskus. by apply (Hskus p Hp).
  - intros csvData fields. unfold extractProductsFromCSV.
    destruct (length csvData <? 2)%nat; [constructor|].
    destruct (value (f_sku fields)) as [skuCol|]; [|constructor].
    destruct (value (f_cost fields)) as [costCol|]; [|constructor].
    rewrite extractRows_omap. simpl. apply Forall_forall. intros p Hp.
    apply list_elem_of_omap in Hp. destruct Hp as (row & _ & Hrow).
    by apply extractRow_sku in Hrow.
Qed.

End LookupCalls.

(** ** The pages of the product table *)

Section Pagination.
Import Components.
Context {T : Type}.

Lemma take_min_length (n : nat) (l : list T) :
  take (Nat.min n (length l)) l = take n l.
Proof.
  destruct (Nat.le_ge_cases n (length l)) as [Hle | Hge].
  - by rewrite Nat.min_l.
  - rewrite Nat.min_r by exact Hge. by rewrite !take_ge.
Qed.

Lemma paginatedProducts_nat (products : list T) (k : nat) :
  paginatedProducts products (Z.of_nat k + 1) = take 50 (drop (50 * k) products).
Proof.
  unfold paginatedProducts, sliceRel, relativeIndex, itemsPerPage.
  set (len := length products).
  replace ((Z.of_nat k + 1 - 1) * 50)%Z with (Z.of_nat (50 * k)) by lia.
  destruct (Z.ltb_spec (Z.of_nat (50 * k)) 0) as [Hneg | _]; [lia|].
  destruct (Z.ltb_spec (Z.of_nat (50 * k) + 50) 0) as [Hneg | _]; [lia|].
  destruct (Nat.le_gt_cases len (50 * k)) as [Hout | Hin].
  - rewrite !drop_ge; [by rewrite !take_nil | fold len; lia | fold len; lia].
  - replace (Z.to_nat (Z.min (Z.of_nat (50 * k)) (Z.of_nat len))) with (50 * k)%nat by lia.
    replace (Z.to_nat (Z.max (Z.min (Z.of_nat (50 * k) + 50) (Z.of_nat len)
                              - Z.min (Z.of_nat (50 * k)) (Z.of_nat len)) 0))
      with (Nat.min 50 (length (drop (50 * k) products))).
    + apply take_min_length.
    + rewrite length_drop. fold len. lia.
Qed.

Lemma concat_pages (products : list T) (m : nat) :
  concat (map (fun k => take 50 (drop (50 * k) products)) (seq 0 m))
  = take (50 * m) products.
Proof.
  induction m as [|m IH]; [by rewrite Nat.mul_0_r|].
  rewrite seq_S, map_app, concat_app, IH. simpl concat. rewrite app_nil_r.
  rewrite take_take_drop. f_equal. lia.
Qed.

Lemma totalPages_bounds (products : list T) :
  (0 <= totalPages products)%Z
  /\ (Z.of_nat (length products) <= 50 * totalPages products)%Z
  /\ (50 * totalPages products < Z.of_nat (length products) + 50)%Z.
Proof.
  unfold totalPages, itemsPerPage.
  pose proof (Z.div_mod (Z.of_nat (length products) + 50 - 1) 50 ltac:(lia)) as Hdiv.
  pose proof (Z.mod_pos_bound (Z.of_nat (length products) + 50 - 1) 50 ltac:(lia)) as Hmod.
  lia.
Qed.

Lemma clampEffect_cases (pages currentPage : Z) :
  (0 <= pages)%Z ->
  (pages = 0%Z /\ clampEffect pages currentPage = 1%Z)
  \/ ((0 < pages < currentPage)%Z /\ clampEffect pages currentPage = pages)
  \/ ((0 < pages)%Z /\ (currentPage <= pages)%Z
      /\ clampEffect pages currentPage = currentPage).
Proof.
  intros Hpos. unfold clampEffect. rewrite !Z.gtb_ltb.
  destruct (Z.eqb_spec pages 0) as [Hz | Hnz];
    destruct (Z.eqb_spec currentPage 1) as [Hone | Hnone];
    destruct (Z.ltb_spec pages currentPage) as [Hover | Hin];
    destruct (Z.ltb_spec 0 pages) as [Hsome | Hnone']; simpl; lia.
Qed.

(** X12. The pages of the product table partition the product list: pages
    [1 .. totalPages] laid end to end are the list; each of them is not empty
    and has at most 50 rows; there is no page when the list is empty. The
    effect on the current page settles in one step, leaves a page in range
    alone and brings a page beyond the last one back into
    [1 .. max 1 totalPages]; the previous and next buttons keep a page in
    range. *)
Theorem pagination (products : list T) :
  let pages := totalPages products in
  concat (map (paginatedProducts products) (pageNumbers pages)) = products
  /\ (forall page, (1 <= page <= pages)%Z ->
        paginatedProducts products page <> []
        /\ (length (paginatedProducts products page) <= 50)%nat)
  /\ (pages = 0%Z <-> products = [])
  /\ (forall currentPage,
        let shown := clampEffect pages currentPage in
        clampEffect pages shown = shown
        /\ ((1 <= currentPage)%Z -> (1 <= shown <= Z.max 1 pages)%Z)
        /\ ((1 <= currentPage <= Z.max 1 pages)%Z -> shown = currentPage))
  /\ (forall page, (1 <= page <= pages)%Z ->
        (1 <= onPreviousPage page <= pages)%Z
        /\ (1 <= onNextPage pages page <= pages)%Z).
Proof.
  intros pages. destruct (totalPages_bounds products) as (Hpos & Hcover & Htight).
  fold pages in Hpos, Hcover, Htight.
  split; [|split; [|split; [|split]]].
  - unfold pageNumbers. rewrite map_map.
    rewrite (map_ext _ (fun k => take 50 (drop (50 * k) products)))
      by (intros k; apply paginatedProducts_nat).
    rewrite concat_pages. apply take_ge. lia.
  - intros page Hpage.
    replace page with (Z.of_nat (Z.to_nat (page - 1)) + 1)%Z by lia.
    rewrite paginatedProducts_nat. split.
    + intros Hnil. apply (f_equal length) in Hnil.
      rewrite length_take, length_drop in Hnil.
      change (length (@nil T)) with 0%nat in Hnil. lia.
    + rewrite length_take. lia.
  - split.
    + intros Hzero. apply length_zero_iff_nil. lia.
    + intros ->. reflexivity.
  - intros currentPage shown. subst shown.
    destruct (clampEffect_cases pages currentPage Hpos)
      as [[Hz ->] | [[Hover ->] | (Hin & Hle & ->)]];
      (split; [|split]); try lia.
    + destruct (clampEffect_cases pages 1 Hpos) as [[_ ->] | [[? ->] | (_ & _ & ->)]]; lia.
    + destruct (clampEffect_cases pages pages Hpos) as [[? ->] | [[? ->] | (_ & _ & ->)]]; lia.
    + destruct (clampEffect_cases pages currentPage Hpos)
        as [[? ->] | [[? ->] | (_ & _ & ->)]]; lia.
  - intros page Hpage. unfold onPreviousPage, onNextPage. lia.
Qed.

End Pagination.

(** ** The pricing pass without fallback, and rejected writes *)

Section PricingDirect.
Context `{Runtime}.

Lemma pricingBatch_direct admin productId (batch : list NormalizedProduct) log rs data1 :
  productVariantsBulkUpdate admin log productId (map withCost batch) = Json data1 ->
  nonEmpty (default [] data1) && hasCostError (default [] data1) = false ->
  pricingBatch admin productId batch (log, rs)
  = (Resolved tt,
     (log ++ [combinedCall productId batch],
      rs ++ map (directResult (default [] data1)) batch)).
Proof.
  intros Hcombined Hcost.
  unfold pricingBatch. unfold bind at 1. unfold bulkUpdate at 1, perform. simpl.
  rewrite Hcombined, Hcost. fold (combinedCall productId batch).
  destruct (default [] data1) as [|e errs]; simpl.
  - by rewrite (forEach_push_all batch (directResult [])); [|by intros v []].
  - by rewrite (forEach_push_all batch (directResult (e :: errs))); [|by intros v []].
Qed.

Lemma pricingBatch_rejected admin productId (batch : list NormalizedProduct) log rs err :
  productVariantsBulkUpdate admin log productId (map withCost batch) = Rejected err ->
  pricingBatch admin productId batch (log, rs)
  = (Threw err, (log ++ [combinedCall productId batch], rs)).
Proof.
  intros Hcombined.
  unfold pricingBatch. unfold bind at 1. unfold bulkUpdate at 1, perform. simpl.
  by rewrite Hcombined.
Qed.

Lemma chunks_of_cons {T} (fuel size : nat) (x : T) (rest : list T) :
  chunks_of (S fuel) size (x :: rest)
  = take size (x :: rest) :: chunks_of fuel size (drop size (x :: rest)).
Proof. reflexivity. Qed.

(** X13. When the combined price and cost write of a sub-batch returns and
    is not retried, that is when it reports no error or none of its errors
    matches the cost pattern, it is the only call made for the sub-batch: no
    price-only write and no standalone cost write follows. One outcome per
    variant is recorded, in order; all of them are updated with the message
    [Pricing updated] when no error was reported, and otherwise all of them
    fail with the message of the first error, whichever variant the error
    was about. *)
Theorem pricing_direct (admin : Admin) (productId : string)
    (batch : list NormalizedProduct) (log : list Call) (rs : list UpdateResponse)
    (data1 : option (list UserError)) :
  let userErrors := default [] data1 in
  productVariantsBulkUpdate admin log productId (map withCost batch) = Json data1 ->
  userErrors = [] \/ hasCostError userErrors = false ->
  exists outcomes,
    pricingBatch admin productId batch (log, rs)
    = (Resolved tt, (log ++ [combinedCall productId batch], rs ++ outcomes))
    /\ map r_sku outcomes = map sku batch
    /\ (userErrors = [] ->
        Forall (fun r => r_updated r = true /\ r_message r = "Pricing updated"
                         /\ r_error r = None) outcomes)
    /\ (forall e rest, userErrors = e :: rest ->
        Forall (fun r => r_updated r = false /\ r_message r = ue_message e
                         /\ r_error r = Some (ue_message e)) outcomes).
Proof.
  intros userErrors Hcombined Hdirect.
  assert (Hcost : nonEmpty userErrors && hasCostError userErrors = false).
  { destruct Hdirect as [-> | ->]; [reflexivity | apply andb_false_r]. }
  exists (map (directResult userErrors) batch).
  split; [by apply pricingBatch_direct|]. split; [|split].
  - rewrite map_map. apply map_ext. intros v. by destruct userErrors.
  - intros ->. apply Forall_forall. intros r Hr. apply list_elem_of_fmap in Hr.
    by destruct Hr as (v & -> & _).
  - intros e rest ->. apply Forall_forall. intros r Hr. apply list_elem_of_fmap in Hr.
    by destruct Hr as (v & -> & _).
Qed.

(** X14. When the first combined write for a parent product is rejected,
    it is the only call made for that product, and every included variant of
    the product, also those of later sub-batches that were never sent, is
    reported once as not updated, with the message [API error] and the
    rejection's message as error. *)
Theorem pricing_rejected_first (admin : Admin) (productId : string)
    (variants : list NormalizedProduct) (log : list Call) (rs : list UpdateResponse)
    (err : Thrown) :
  variants <> [] ->
  productVariantsBulkUpdate admin log productId (map withCost (take 100 variants))
  = Rejected err ->
  pricingGroup admin (productId, variants) (log, rs)
  = (Resolved tt,
     (log ++ [combinedCall productId (take 100 variants)],
      rs ++ map (apiError err) variants)).
Proof.
  intros Hne Hrejected.
  assert (Hchunks : exists more,
            chunks_of (length variants) 100 variants = take 100 variants :: more).
  { destruct variants as [|v variants]; [done|]. by eexists. }
  destruct Hchunks as [more Hchunks].
  unfold pricingGroup, tryCatch. cbn [fst snd]. unfold bind at 1.
  unfold variantBatchSize. rewrite chunkArray_eq by lia. unfold liftOption.
  rewrite Hchunks. cbn [forEach]. unfold bind at 1.
  rewrite (pricingBatch_rejected _ _ _ _ _ _ Hrejected).
  by rewrite (forEach_push_all variants (apiError err)); [|by intros w []].
Qed.

(** X15. A parent product with more than 100 included variants is written in
    sub-batches of 100. When the first sub-batch is written without error and
    the write of the second is rejected, the first 100 variants are reported
    twice: first as updated, then, with every other variant of the product,
    as not updated with the message [API error]. The price and cost of the
    first 100 have been written all the same. *)
Theorem pricing_rejected_later (admin : Admin) (productId : string)
    (variants : list NormalizedProduct) (log : list Call) (rs : list UpdateResponse)
    (data1 : option (list UserError)) (err : Thrown) :
  let first := take 100 variants in
  let second := take 100 (drop 100 variants) in
  (100 < length variants)%nat ->
  productVariantsBulkUpdate admin log productId (map withCost first) = Json data1 ->
  default [] data1 = [] ->
  productVariantsBulkUpdate admin (log ++ [combinedCall productId first]) productId
    (map withCost second) = Rejected err ->
  pricingGroup admin (productId, variants) (log, rs)
  = (Resolved tt,
     (log ++ [combinedCall productId first; combinedCall productId second],
      rs ++ map (directResult []) first ++ map (apiError err) variants)).
Proof.
  intros first second Hlen Hfirst Hclean Hsecond.
  unfold pricingGroup, tryCatch. cbn [fst snd]. unfold bind at 1.
  unfold variantBatchSize. rewrite chunkArray_eq by lia. unfold liftOption.
  assert (Hchunks : exists more,
            chunks_of (length variants) 100 variants = first :: second :: more).
  { destruct variants as [|v variants]; [simpl in Hlen; lia|].
    change (length (v :: variants)) with (S (length variants)).
    rewrite chunks_of_cons. fold first.
    destruct (drop 100 (v :: variants)) as [|w rest] eqn:Hdrop.
    { apply (f_equal length) in Hdrop. rewrite length_drop in Hdrop.
      simpl in Hdrop, Hlen. lia. }
    destruct (length variants) as [|n] eqn:Hn; [simpl in Hlen; lia|].
    rewrite chunks_of_cons. fold second. by eexists. }
  destruct Hchunks as [more ->].
  cbn [forEach]. unfold bind at 1.
  rewrite (pricingBatch_direct _ _ _ _ _ _ Hfirst) by (by rewrite Hclean).
  rewrite Hclean. unfold bind at 1.
  rewrite (pricingBatch_rejected _ _ _ _ _ _ Hsecond).
  rewrite (forEach_push_all variants (apiError err)); [|by intros w []].
  by rewrite <- !app_assoc.
Qed.

End PricingDirect.

Lemma pricing_direct_witness :
  exists outcomes,
    @pricingBatch refRuntime priceRejectingAdmin productGid
      [variantItem "V1" "A"; variantItem "V2" "B"] ([], [])
    = (Resolved tt,
       ([@combinedCall refRuntime productGid [variantItem "V1" "A"; variantItem "V2" "B"]],
        outcomes))
    /\ map r_sku outcomes = ["A"; "B"]
    /\ Forall (fun r => r_updated r = false /\ r_message r = "Price is too high"
                        /\ r_error r = Some "Price is too high") outcomes.
Proof.
  destruct (@pricing_direct refRuntime priceRejectingAdmin productGid
              [variantItem "V1" "A"; variantItem "V2" "B"] [] []
              (Some [{| ue_field := Some ["variants"; "0"; "price"];
                        ue_message := "Price is too high" |}]))
    as (outcomes & Hrun & Hskus & _ & Hfailed).
  - reflexivity.
  - right. vm_compute. reflexivity.
  - exists outcomes. split; [exact Hrun|]. split; [exact Hskus|].
    exact (Hfailed _ _ eq_refl).
Defined.

Lemma pricing_rejected_first_witness :
  @pricingGroup refRuntime unreachableAdmin (productGid, manyVariants 2) ([], [])
  = (Resolved tt,
     ([@combinedCall refRuntime productGid (manyVariants 2)],
      map (apiError (ErrorObject "Network error")) (manyVariants 2))).
Proof.
  apply (@pricing_rejected_first refRuntime unreachableAdmin productGid (manyVariants 2)
           [] [] (ErrorObject "Network error")).
  - discriminate.
  - reflexivity.
Defined.

Lemma pricing_rejected_later_witness :
  let variants := manyVariants 101 in
  exists calls results,
    @pricingGroup refRuntime droppingAdmin (productGid, variants) ([], [])
    = (Resolved tt, (calls, results))
    /\ length calls = 2%nat
    /\ length results = 201%nat
    /\ map r_updated (take 2 results) = [true; true]
    /\ map r_updated (take 2 (drop 100 results)) = [false; false]
    /\ map r_sku (take 2 (drop 100 results)) = map r_sku (take 2 results).
Proof.
  intros variants.
  pose proof (@pricing_rejected_later refRuntime droppingAdmin productGid variants
                [] [] (Some []) (ErrorObject "Network error")) as Hrun.
  cbv zeta in Hrun. eexists _, _. split.
  - apply Hrun.
    + vm_compute. lia.
    + reflexivity.
    + reflexivity.
    + reflexivity.
  - vm_compute. repeat split.
Defined.

(** ** The earlier version of the pricing action *)

Section Versions.
Context `{Runtime}.

Lemma forEach_ext {S T} (items : list T) (f g : T -> M S unit) :
  (forall x st, x ∈ items -> f x st = g x st) ->
  forall st, forEach items f st = forEach items g st.
Proof.
  induction items as [|x items IH]; intros Hfg st; [reflexivity|].
  simpl. unfold bind. rewrite (Hfg x st) by (by left).
  destruct (g x st) as [[[] | e |] st1]; [|reflexivity..].
  apply IH. intros y st' Hy. apply Hfg. by right.
Qed.

Lemma group_members (products : list NormalizedProduct) key members :
  (key, members) ∈ groupProductsByParent products ->
  members = List.filter (sameParent key) products /\ members <> [].
Proof.
  unfold groupProductsByParent. intros Hin.
  apply mapGet_elem in Hin; [|apply groupLoop_keys; constructor].
  rewrite groupLoop_get in Hin. simpl in Hin.
  destruct (List.filter (sameParent key) products); [discriminate|].
  by injection Hin as <-.
Qed.

Lemma pricingGroup_single admin productId (variants : list NormalizedProduct) st :
  variants <> [] -> (length variants <= 100)%nat ->
  pricingGroup admin (productId, variants) st
  = RouteV1.pricingGroup admin (productId, variants) st.
Proof.
  intros Hne Hlen.
  assert (Hchunks : chunks_of (length variants) 100 variants = [variants]).
  { destruct variants as [|v variants]; [done|].
    change (length (v :: variants)) with (S (length variants)).
    rewrite chunks_of_cons, take_ge, drop_ge by exact Hlen.
    by destruct (length variants). }
  unfold pricingGroup, RouteV1.pricingGroup, tryCatch. cbn [fst snd].
  unfold bind at 1. unfold variantBatchSize.
  rewrite chunkArray_eq by lia. unfold liftOption. rewrite Hchunks.
  cbn [forEach]. unfold bind at 1.
  by destruct (pricingBatch admin productId variants st) as [[[] | e |] st1].
Qed.

Lemma stockPassV1_calls admin productsToUpdate locationId log rs :
  let stockChanges :=
    List.filter hasDelta (map (toChange locationId) productsToUpdate) in
  RouteV1.stockPass admin productsToUpdate locationId (log, rs)
  = (Resolved tt,
     (log ++ map adjustCall (chunks_of (length stockChanges) 100 stockChanges), rs)).
Proof.
  intros stockChanges. unfold RouteV1.stockPass. fold stockChanges.
  clearbody stockChanges.
  destruct (nonEmpty stockChanges) eqn:Hchanges.
  2:{ destruct stockChanges; [|discriminate Hchanges]. simpl. by rewrite app_nil_r. }
  unfold bind at 1. rewrite chunkArray_eq by lia. unfold liftOption.
  generalize (chunks_of (length stockChanges) 100 stockChanges). intros batches.
  revert log. induction batches as [|b batches IH]; intros log.
  - simpl. by rewrite app_nil_r.
  - cbn [forEach]. unfold bind at 1.
    assert (Hbatch : tryCatch (adjustQuantities admin b ;;; ret tt) (fun _ => ret tt)
                       (log, rs)
                     = (Resolved tt, (log ++ [adjustCall b], rs))).
    { unfold tryCatch, bind, adjustQuantities, perform. simpl. fold (adjustCall b).
      by destruct (inventoryAdjustQuantities admin log b). }
    rewrite Hbatch, IH. simpl. by rewrite <- app_assoc.
Qed.

(** X16. Writing in sub-batches changed nothing for products of at most 100
    included variants: on a submission where no parent product has more than
    100 included variants, the earlier version of the pricing action, which
    writes all the variants of a product in one call, and the current one
    make the same calls in the same order, also in the stock pass, and report
    the same SKUs in the same order. Without the stock pass they return the
    same results; with it, the earlier version never lets the stock answers
    touch the pricing outcomes. *)
Theorem updatePricing_versions (admin : Admin) (products : list NormalizedProduct)
    (withStock : bool) (locationId : option string) (log : list Call) :
  let selected := List.filter update products in
  let current := start (updatePricing admin products withStock locationId) [] log in
  let earlier :=
    start (RouteV1.updatePricing admin products withStock locationId) [] log in
  let pricingOnly :=
    start (RouteV1.updatePricing admin products false locationId) [] log in
  Forall (fun g => (length (snd g) <= 100)%nat) (groupProductsByParent selected) ->
  snd current = snd earlier
  /\ (withStock = false -> current = earlier)
  /\ fst earlier = fst pricingOnly
  /\ exists data data',
       fst current = Resolved data /\ fst earlier = Resolved data'
       /\ map r_sku (a_results data) = map r_sku (a_results data')
       /\ a_error data = a_error data'.
Proof.
  intros selected current earlier pricingOnly Hsmall.
  destruct (length products =? 0)%nat eqn:Hempty.
  { assert (Hcur : current
              = (Resolved {| a_results := [];
                             a_error := Some "No products to update" |}, log)).
    { subst current. unfold updatePricing. by rewrite Hempty. }
    assert (Hold : forall flag,
              start (RouteV1.updatePricing admin products flag locationId) [] log
              = (Resolved {| a_results := [];
                             a_error := Some "No products to update" |}, log)).
    { intros flag. unfold RouteV1.updatePricing. by rewrite Hempty. }
    subst earlier pricingOnly. rewrite Hcur, !Hold.
    split; [reflexivity|]. split; [reflexivity|]. split; [reflexivity|].
    by eexists _, _. }
  assert (Hgroups : forall st,
            forEach (groupProductsByParent selected) (pricingGroup admin) st
            = forEach (groupProductsByParent selected) (RouteV1.pricingGroup admin) st).
  { apply forEach_ext. intros [productId variants] st Hg.
    apply pricingGroup_single.
    - by apply group_members in Hg as [_ Hne].
    - rewrite Forall_forall in Hsmall. exact (Hsmall _ Hg). }
  destruct (pricingGroups_pushes admin (groupProductsByParent selected) log [])
    as (log1 & rs1 & Heq & _).
  simpl in Heq.
  destruct (stockPass_keeps admin selected locationId log1 rs1) as (rs2 & Hpass & Hskus).
  pose proof (stockPassV1_calls admin selected locationId log1 rs1) as Hpass1.
  cbv zeta in Hpass, Hpass1.
  set (log2 := log1 ++ map adjustCall
                 (chunks_of
                    (length (List.filter hasDelta (map (toChange locationId) selected)))
                    100 (List.filter hasDelta (map (toChange locationId) selected))))
    in Hpass, Hpass1.
  assert (Hcur : current
            = if withStock
              then (Resolved {| a_results := rs2; a_error := None |}, log2)
              else (Resolved {| a_results := rs1; a_error := None |}, log1)).
  { subst current. unfold updatePricing. rewrite Hempty. fold selected.
    destruct withStock.
    - apply (start_eq _ _ _ _ (log2, rs2)).
      unfold bind at 1. rewrite Heq. unfold bind at 1. by rewrite Hpass.
    - apply (start_eq _ _ _ _ (log1, rs1)).
      unfold bind at 1. by rewrite Heq. }
  assert (Hold : forall flag : bool,
            start (RouteV1.updatePricing admin products flag locationId) [] log
            = (Resolved {| a_results := rs1; a_error := None |},
               if flag then log2 else log1)).
  { intros flag. unfold RouteV1.updatePricing. rewrite Hempty. fold selected.
    destruct flag.
    - apply (start_eq _ _ _ _ (log2, rs1)).
      unfold bind at 1. rewrite <- Hgroups, Heq. unfold bind at 1. by rewrite Hpass1.
    - apply (start_eq _ _ _ _ (log1, rs1)).
      unfold bind at 1. by rewrite <- Hgroups, Heq. }
  subst earlier pricingOnly. rewrite Hcur, !Hold.
  destruct withStock; simpl.
  - split; [reflexivity|]. split; [discriminate|]. split; [reflexivity|].
    by eexists _, _.
  - split; [reflexivity|]. split; [reflexivity|]. split; [reflexivity|].
    by eexists _, _.
Qed.

End Versions.

Lemma updatePricing_versions_witness :
  let products := [stockItem "A" 3 5; stockItem "B" 4 4] in
  snd (@start _ _ (@updatePricing refRuntime acceptingAdmin products true (Some "loc"))
         [] [])
  = snd (@start _ _ (@RouteV1.updatePricing refRuntime acceptingAdmin products true
                       (Some "loc")) [] []).
Proof.
  intros products.
  apply (@updatePricing_versions refRuntime acceptingAdmin products true (Some "loc") []).
  vm_compute. repeat constructor.
Defined.

(** ** The loader's default location *)

Section DefaultLocation.
Import Loader.

Lemma find_first {T} (p : T -> bool) (xs : list T) (x : T) :
  find p xs = Some x ->
  exists before after,
    xs = before ++ x :: after /\ p x = true /\ Forall (fun y => p y = false) before.
Proof.
  induction xs as [|y xs IH]; simpl; [discriminate|].
  destruct (p y) eqn:Hy.
  - intros [= ->]. by exists [], xs.
  - intros Hfind. destruct (IH Hfind) as (before & after & -> & Hx & Hbefore).
    exists (y :: before), after. split; [reflexivity|]. split; [exact Hx|].
    by constructor.
Qed.

Lemma find_none {T} (p : T -> bool) (xs : list T) :
  find p xs = None <-> Forall (fun y => p y = false) xs.
Proof.
  induction xs as [|y xs IH]; simpl.
  - split; [constructor | done].
  - destruct (p y) eqn:Hy.
    + split; [discriminate|]. intros Hall. apply Forall_cons in Hall as [Hy' _].
      congruence.
    + rewrite IH. split; [by constructor|]. intros Hall.
      by apply Forall_cons in Hall as [_ ?].
Qed.

(** X17. The loader's default location is the first active location when
    one is active, and the first location otherwise; there is none exactly
    when the answer carries no location. The location id handed to the page
    is that of the default location, so it is the id of an active location
    whenever one is active, and it is null only when there is no location or
    the default one has an empty id. *)
Theorem loader_default_location (locationsData : option (list Location)) :
  let locations := default [] locationsData in
  let data := loader locationsData in
  (defaultLocation locations = None <-> locations = [])
  /\ (forall l, defaultLocation locations = Some l ->
        (exists before after,
           locations = before ++ l :: after
           /\ Forall (fun y => loc_isActive y = false) before
           /\ (loc_isActive l = true \/ (before = [] /\ Forall (fun y => loc_isActive y = false) after))))
  /\ (forall i, ld_locationId data = Some i ->
        i <> EmptyString
        /\ exists l, l ∈ locations /\ loc_id l = i
             /\ ((exists a, a ∈ locations /\ loc_isActive a = true)
                 -> loc_isActive l = true))
  /\ (ld_locationId data = None ->
        locations = []
        \/ exists l, defaultLocation locations = Some l /\ loc_id l = EmptyString)
  /\ ld_locations data = locations.
Proof.
  intros locations data. subst data. unfold loader. fold locations.
  clearbody locations.
  assert (Hchosen : forall l, defaultLocation locations = Some l ->
            exists before after,
              locations = before ++ l :: after
              /\ Forall (fun y => loc_isActive y = false) before
              /\ (loc_isActive l = true
                  \/ (before = [] /\ Forall (fun y => loc_isActive y = false) after))).
  { intros l. unfold defaultLocation.
    destruct (find loc_isActive locations) as [l'|] eqn:Hfind.
    - intros [= <-]. destruct (find_first _ _ _ Hfind) as (before & after & -> & Hl & Hb).
      exists before, after. split; [reflexivity|]. split; [exact Hb | by left].
    - apply find_none in Hfind. destruct locations as [|l0 rest]; [discriminate|].
      intros [= <-]. exists [], rest. split; [reflexivity|]. split; [constructor|].
      right. split; [reflexivity|]. by apply Forall_cons in Hfind as [_ ?]. }
  split; [|split; [exact Hchosen|split; [|split]]].
  - unfold defaultLocation. destruct (find loc_isActive locations) as [l|] eqn:Hfind.
    + split; [discriminate|]. intros ->. discriminate Hfind.
    + destruct locations; split; done.
  - simpl. intros i Hi.
    destruct (defaultLocation locations) as [l|] eqn:Hdef; [|discriminate].
    destruct (loc_id l) as [|c rest] eqn:Hid; [discriminate|].
    injection Hi as <-. split; [discriminate|]. exists l.
    destruct (Hchosen l eq_refl) as (before & after & -> & Hb & Hcase).
    split; [|split; [exact Hid|]].
    + apply elem_of_app. right. by left.
    + intros (a & Ha & Hactive). destruct Hcase as [Hl | [-> Hafter]]; [exact Hl|].
      simpl in Ha. apply elem_of_cons in Ha. destruct Ha as [-> | Ha]; [exact Hactive|].
      rewrite Forall_forall in Hafter. rewrite (Hafter a Ha) in Hactive. discriminate.
  - simpl. intros Hnone.
    destruct (defaultLocation locations) as [l|] eqn:Hdef.
    + right. exists l. split; [reflexivity|]. by destruct (loc_id l).
    + left. unfold defaultLocation in Hdef.
      destruct (find loc_isActive locations); [discriminate|]. by destruct locations.
  - simpl. rewrite <- (map_id locations) at 2. apply map_ext. by intros [].
Qed.

End DefaultLocation.

(** ** Chunks of size zero *)

Section ZeroChunks.
Context {T : Type}.

Lemma chunks_of_fuel (fuel size : nat) : forall rest : list T,
  (1 <= size)%nat -> (length rest <= fuel)%nat ->
  chunks_of fuel size rest = chunks_of (length rest) size rest.
Proof.
  induction fuel as [fuel IH] using lt_wf_ind. intros rest Hs Hf.
  destruct rest as [|x rest]; [by destruct fuel|].
  destruct fuel as [|fuel]; [simpl in Hf; lia|].
  change (length (x :: rest)) with (S (length rest)).
  rewrite !chunks_of_cons. f_equal.
  assert (Hdrop : (length (drop size (x :: rest)) <= length rest)%nat).
  { rewrite length_drop. simpl. lia. }
  rewrite (IH fuel) by (simpl in Hf; lia).
  rewrite (IH (length rest)); [reflexivity | | lia | exact Hdrop].
  destruct (decide (length rest < S fuel)%nat); [done | simpl in Hf; lia].
Qed.

(** X18. With a chunk size of 0 the loop of [chunkArray] makes no progress:
    on a non-empty array no number of iterations ends it, so the call never
    returns, while on the empty array it returns no chunk at once. With a
    size of at least 1 the loop ends within as many iterations as the array
    has elements, and giving it more changes nothing. *)
Theorem chunkArray_zero_size (arr : list T) :
  (forall fuel i chunks,
     (i < length arr)%nat -> chunk_loop fuel arr 0 i chunks = None)
  /\ (arr <> [] -> chunkArray arr 0 = None)
  /\ chunkArray (@nil T) 0 = Some []
  /\ (forall fuel size,
        (1 <= size)%nat -> (length arr <= fuel)%nat ->
        chunk_loop fuel arr size 0 [] = chunkArray arr size).
Proof.
  assert (Hstuck : forall fuel i chunks,
            (i < length arr)%nat -> chunk_loop fuel arr 0 i chunks = None).
  { induction fuel as [|fuel IH]; intros i chunks Hi; simpl.
    - by rewrite (proj2 (Nat.ltb_lt _ _) Hi).
    - rewrite (proj2 (Nat.ltb_lt _ _) Hi), Nat.add_0_r. by apply IH. }
  split; [exact Hstuck|]. split; [|split; [reflexivity|]].
  - intros Hne. apply Hstuck. destruct arr; [done | simpl; lia].
  - intros fuel size Hs Hf. rewrite chunkArray_eq by exact Hs.
    rewrite chunk_loop_spec by lia. rewrite drop_0. simpl.
    by rewrite chunks_of_fuel.
Qed.

End ZeroChunks.
